(** * PulsePoint sync core: a shallow embedding and its properties

    The development follows the Go sources of the repository:
    - [pkg/models], [internal/core/interfaces], [pkg/errors]
      (modules [models], [interfaces], [state], [pperrors])
    - [internal/watchers/queue/change_queue.go]   (module [queue])
    - [internal/watchers/local/watcher.go]        (module [local]; the
      debounce callback step by step in [local_steps])
    - [internal/strategies]: shared helpers in [strategies], one module per
      strategy ([oneway], [mirror], [backup])
    - the sync engine and its metrics             (module [engine])
    - the state manager over the embedded store   (modules [database],
      [statemgr], [statestore]; bbolt itself in [bolt])
    - queue persistence, the watcher's ignore rules, path removal and
      debouncing                                  (modules [queue_store],
      [local_watch])
    - [internal/watchers/ignore]                  (module [ignore])
    - [internal/providers/mock]                   (module [mock])
    - the sync pipeline                           (module [pipeline])

    Conventions.  Go strings are [string]; [int]/[int64] are [Z] (with the
    64-bit wrap-around written out where the code does arithmetic on them);
    [time.Time] instants are [Z] (nanoseconds); Go maps are [gmap]; a Go
    [error] value is an [option] of an error type ([None] is [nil]).
    Mutexes only delimit the atomic steps: a function below is one
    critical section of the source, or a run of critical sections with
    nothing of another goroutine in between, and interleavings are
    explicit inputs.  Where a property depends on what other goroutines
    do between the critical sections of one function, the function is
    split into its steps ([local_steps] for the debounce callback).
    Part I holds the definitions, Part II the lemmas, one [_props] module
    per package. *)

From Stdlib Require Import ZArith QArith.
From stdpp Require Import gmap strings list fin_maps sorting.

Local Open Scope string_scope.
Local Open Scope Z_scope.

(* ===================================================================== *)
(** * Part I: definitions *)
(* ===================================================================== *)

(** 64-bit two's complement wrap-around of Go's [int]/[int64] arithmetic. *)
Definition wrap64 (z : Z) : Z := (z + 2 ^ 63) mod 2 ^ 64 - 2 ^ 63.

Definition add64 (a b : Z) : Z := wrap64 (a + b).

Arguments wrap64 : simpl never.
Arguments add64 : simpl never.

Definition in_int64 (z : Z) : Prop := - 2 ^ 63 <= z < 2 ^ 63.

(** ** pkg/models: change events *)
Module models.

(** [type ChangeType string] *)
Abbreviation ChangeType := string (only parsing).

Definition ChangeTypeCreate : ChangeType := "create".
Definition ChangeTypeModify : ChangeType := "modify".
Definition ChangeTypeDelete : ChangeType := "delete".
Definition ChangeTypeRename : ChangeType := "rename".
Definition ChangeTypeMove : ChangeType := "move".
Definition ChangeTypeChmod : ChangeType := "chmod".
Definition ChangeTypeTouch : ChangeType := "touch".
Definition ChangeTypeTruncate : ChangeType := "truncate".

(** [models.ChangeEvent]; the free-form [Metadata] map is left out. *)
Record ChangeEvent := {
  ID : string;
  Type_ : ChangeType;
  Source : string;
  Path : string;
  OldPath : string;
  Timestamp : Z;
  Size : Z;
  Hash : string;
  IsDir : bool;
  Status : string;
  Processed : bool;
  Retries : Z
}.

#[global] Instance ChangeEvent_eq_dec : EqDecision ChangeEvent.
Proof. solve_decision. Defined.

End models.

(** ** internal/watchers/queue: the change queue *)
Module queue.
Import models.

(** The in-memory part of [PulsePointChangeQueue]: the pending map keyed by
    path, the set of paths being processed, and the two size limits.  The
    bbolt mirror is written by a detached goroutine ([go
    q.pulsePointPersistToDB()]) and does not feed back into these fields. *)
Record PulsePointChangeQueue := {
  items : gmap string ChangeEvent;
  processingItems : gmap string bool;
  maxSize : Z;
  batchSize : Z
}.

Definition set_items (q : PulsePointChangeQueue) (m : gmap string ChangeEvent) :=
  {| items := m; processingItems := processingItems q;
     maxSize := maxSize q; batchSize := batchSize q |}.

Definition set_processingItems (q : PulsePointChangeQueue) (m : gmap string bool) :=
  {| items := items q; processingItems := m;
     maxSize := maxSize q; batchSize := batchSize q |}.

(** [fmt.Errorf("queue is at maximum capacity (%d items)", q.maxSize)] *)
Inductive QueueError := ErrAtCapacity (max : Z).

(** [time.Time.After] on instants. *)
Definition After (t u : Z) : bool := u <? t.

(** [pulsePointShouldReplace], rule by rule as in the source. *)
Definition pulsePointShouldReplace (existing new : ChangeEvent) : bool :=
  if String.eqb (Type_ new) ChangeTypeDelete then true
  else if String.eqb (Type_ existing) ChangeTypeCreate
          && String.eqb (Type_ new) ChangeTypeModify then false
  else if String.eqb (Type_ existing) ChangeTypeModify
          && String.eqb (Type_ new) ChangeTypeModify
       then After (Timestamp new) (Timestamp existing)
  else if String.eqb (Type_ existing) ChangeTypeCreate
          && String.eqb (Type_ new) ChangeTypeDelete then true
  else After (Timestamp new) (Timestamp existing).

(** [q.processingItems[path]]: a missing key reads as [false]. *)
Definition isProcessing (q : PulsePointChangeQueue) (path : string) : bool :=
  default false (processingItems q !! path).

(** [Add]: capacity check, processing check, then deduplication. *)
Definition Add (q : PulsePointChangeQueue) (event : ChangeEvent)
  : PulsePointChangeQueue * option QueueError :=
  if maxSize q <=? Z.of_nat (size (items q)) then
    (q, Some (ErrAtCapacity (maxSize q)))
  else if isProcessing q (Path event) then (q, None)
  else
    match items q !! Path event with
    | Some existing =>
        if pulsePointShouldReplace existing event
        then (set_items q (<[Path event := event]> (items q)), None)
        else (q, None)
    | None => (set_items q (<[Path event := event]> (items q)), None)
    end.

(** A run of [Add] calls, in arrival order; errors go back to the callers. *)
Definition AddAll (q : PulsePointChangeQueue) (events : list ChangeEvent)
  : PulsePointChangeQueue :=
  foldl (fun q e => fst (Add q e)) q events.

Definition GetPendingCount (q : PulsePointChangeQueue) : Z :=
  Z.of_nat (size (items q)).

Definition GetProcessingCount (q : PulsePointChangeQueue) : Z :=
  Z.of_nat (size (processingItems q)).

(** First critical section of [pulsePointProcessBatch]: walk [q.items] in
    Go's (unspecified) iteration order [order] until the batch holds
    [batchSize] entries.  [make] with a negative capacity panics in Go; the
    constructor replaces 0 by 100.  This is the loop for a capacity that
    [make] grants; [queue_store.flush] is the flush with the panic. *)
Definition selectBatch (q : PulsePointChangeQueue)
    (order : list (string * ChangeEvent)) : list (string * ChangeEvent) :=
  take (Z.to_nat (batchSize q)) order.

(** [q.processingItems[path] = true; delete(q.items, path)] for the batch. *)
Definition markProcessing (q : PulsePointChangeQueue) (batchPaths : list string)
  : PulsePointChangeQueue :=
  foldl (fun q path =>
           set_items (set_processingItems q (<[path := true]> (processingItems q)))
                     (delete path (items q)))
        q batchPaths.

(** [for i, path := range batchPaths { q.items[path] = batch[i] }] *)
Definition reinsert (q : PulsePointChangeQueue) (batch : list (string * ChangeEvent))
  : PulsePointChangeQueue :=
  foldl (fun q pe => set_items q (<[pe.1 := pe.2]> (items q))) q batch.

(** [delete(q.processingItems, path)] for the batch. *)
Definition unmarkProcessing (q : PulsePointChangeQueue) (batchPaths : list string)
  : PulsePointChangeQueue :=
  foldl (fun q path => set_processingItems q (delete path (processingItems q)))
        q batchPaths.

(** [pulsePointProcessBatch].  [processFunc] is the configured callback
    ([None] is a nil callback); [during] are the events other goroutines
    [Add] while the callback runs (no lock is held then), [window] those
    added between the reinsertion (under [itemsMu]) and the removal from
    the processing set (under [processingMu]). *)
Definition pulsePointProcessBatch (q : PulsePointChangeQueue)
    (order : list (string * ChangeEvent))
    (processFunc : option (list ChangeEvent -> option string))
    (during window : list ChangeEvent) : PulsePointChangeQueue :=
  if Nat.eqb (size (items q)) 0 then q
  else
    let batch := selectBatch q order in
    let batchPaths := batch.*1 in
    let q1 := markProcessing q batchPaths in
    let q2 := AddAll q1 during in
    let q3 :=
      match processFunc with
      | Some f =>
          if Nat.ltb 0 (length batch) then
            match f (batch.*2) with
            | Some _ => reinsert q2 batch
            | None => q2
            end
          else q2
      | None => q2
      end in
    let q4 := AddAll q3 window in
    unmarkProcessing q4 batchPaths.

(** "Keep the newer timestamp": [new] only when it is strictly newer. *)
Definition newer (old new : ChangeEvent) : ChangeEvent :=
  if Timestamp old <? Timestamp new then new else old.

(** The deduplication table of the design, row by row: the event that is
    to stay pending when [new] arrives for the path of [old]. *)
Definition dedup_table (old new : ChangeEvent) : ChangeEvent :=
  if decide (Type_ new = ChangeTypeDelete) then new
  else if decide (Type_ old = ChangeTypeCreate ∧ Type_ new = ChangeTypeModify) then old
  else if decide (Type_ old = ChangeTypeModify ∧ Type_ new = ChangeTypeModify)
       then newer old new
  else newer old new.

(** Sample events used by the examples. *)
Definition mkEvent (ty path : string) (ts : Z) : ChangeEvent :=
  {| ID := ""; Type_ := ty; Source := "local"; Path := path; OldPath := "";
     Timestamp := ts; Size := 0; Hash := ""; IsDir := false;
     Status := "pending"; Processed := false; Retries := 0 |}.

Definition mkQueue (its : list (string * ChangeEvent)) (max batch : Z) :=
  {| items := list_to_map its; processingItems := ∅;
     maxSize := max; batchSize := batch |}.

End queue.

(** ** internal/core/interfaces: events, files, results *)
Module interfaces.

Abbreviation ChangeType := string (only parsing).

Definition ChangeTypeCreate : ChangeType := "create".
Definition ChangeTypeModify : ChangeType := "modify".
Definition ChangeTypeDelete : ChangeType := "delete".
Definition ChangeTypeRename : ChangeType := "rename".
Definition ChangeTypeMove : ChangeType := "move".
Definition ChangeTypeChmod : ChangeType := "chmod".

(** [interfaces.ChangeEvent] (the [Error] field is never set by the code
    below and is left out). *)
Record ChangeEvent := {
  Type_ : ChangeType;
  Path : string;
  OldPath : string;
  Timestamp : Z;
  Size : Z;
  Hash : string;
  IsDir : bool
}.

(** [interfaces.File], with the fields the strategies fill in. *)
Record File := {
  f_Path : string;
  f_Size : Z;
  f_Hash : string;
  f_ModifiedTime : Z;
  f_IsFolder : bool
}.

Record Metadata := {
  m_Path : string;
  m_Size : Z;
  m_Hash : string;
  m_IsFolder : bool
}.

Record SyncError := {
  se_Path : string;
  se_Operation : string;
  se_Message : string;
  se_Timestamp : Z
}.

Record Conflict := {
  c_Path : string;
  c_Type : string;
  c_DetectedAt : Z
}.

Record SyncResult := {
  StartTime : Z;
  EndTime : Z;
  FilesProcessed : Z;
  FilesUploaded : Z;
  FilesDownloaded : Z;
  FilesDeleted : Z;
  FilesSkipped : Z;
  BytesTransferred : Z;
  Errors : list SyncError;
  Conflicts : list Conflict;
  Success : bool
}.

Record StrategyConfig := {
  ConflictResolution : string;
  IgnorePatterns : list string;
  MaxFileSize : Z;
  PreserveDeleted : bool;
  VersionControl : bool
}.

End interfaces.

(** ** fsnotify: the notification library's event type.  [Op] is a bit set
    with [Create Op = 1 << iota], then [Write], [Remove], [Rename], [Chmod]. *)
Module fsnotify.

Definition Create : Z := 1.
Definition Write : Z := 2.
Definition Remove : Z := 4.
Definition Rename : Z := 8.
Definition Chmod : Z := 16.

Record Event := { Name : string; Op : Z }.

End fsnotify.

(** ** internal/watchers/local: the file watcher *)
Module local.
Import interfaces.

Definition ChangeTypeUnknown : ChangeType := "unknown".

(** The watcher fields that [pulsePointProcessEvent] reads and writes:
    the watched paths, the hash cache, and the events sent on
    [eventsChan] so far (oldest first). *)
Record PulsePointWatcher := {
  paths : gmap string bool;
  fileHashes : gmap string string;
  eventsChan : list ChangeEvent
}.

Record FileInfo := { fi_Size : Z; fi_IsDir : bool }.

(** What the operating system, the clock and the scheduler answer when a
    debounce timer fires: [os.Stat] ([None] when [info == nil]), the
    result of [pulsePointCalculateHash] ([None] on error),
    [time.Now().Unix()], and whether the final [select] takes
    [<-pw.ctx.Done()] instead of the send. *)
Record Firing := {
  stat : option FileInfo;
  hash : option string;
  now : Z;
  ctxDone : bool
}.

(** [pulsePointMapEventType]: the first matching bit wins. *)
Definition pulsePointMapEventType (op : Z) : ChangeType :=
  if Z.land op fsnotify.Create =? fsnotify.Create then ChangeTypeCreate
  else if Z.land op fsnotify.Write =? fsnotify.Write then ChangeTypeModify
  else if Z.land op fsnotify.Remove =? fsnotify.Remove then ChangeTypeDelete
  else if Z.land op fsnotify.Rename =? fsnotify.Rename then ChangeTypeRename
  else if Z.land op fsnotify.Chmod =? fsnotify.Chmod then ChangeTypeChmod
  else ChangeTypeUnknown.

Section processEvent.

(** [pulsePointAddRecursive] walks the file system below a new
    directory; it only writes [paths] and [fileHashes]. *)
Variable pulsePointAddRecursive :
  string → gmap string bool * gmap string string
         → gmap string bool * gmap string string.

(** The [if info != nil { ... }] block: [None] is the early [return]
    that drops the event, otherwise the updated cache and event. *)
Definition statBlock (pw : PulsePointWatcher) (name : string)
    (changeType : ChangeType) (env : Firing) (changeEvent : ChangeEvent)
  : option (gmap string string * ChangeEvent) :=
  match stat env with
  | None => Some (fileHashes pw, changeEvent)
  | Some info =>
      let ce := {| Type_ := Type_ changeEvent; Path := Path changeEvent;
                   OldPath := OldPath changeEvent;
                   Timestamp := Timestamp changeEvent;
                   Size := fi_Size info; Hash := Hash changeEvent;
                   IsDir := fi_IsDir info |} in
      if negb (fi_IsDir info) && negb (String.eqb changeType ChangeTypeDelete) then
        match hash env with
        | None => Some (fileHashes pw, ce)
        | Some h =>
            let ce' := {| Type_ := Type_ ce; Path := Path ce;
                          OldPath := OldPath ce; Timestamp := Timestamp ce;
                          Size := Size ce; Hash := h; IsDir := IsDir ce |} in
            if String.eqb changeType ChangeTypeModify
               && match fileHashes pw !! name with
                  | Some oldHash => String.eqb oldHash h
                  | None => false
                  end
            then None
            else Some (<[name := h]> (fileHashes pw), ce')
        end
      else Some (fileHashes pw, ce)
  end.

(** [pulsePointProcessEvent]: what runs when the debounce timer of
    [event.Name] fires, as one uninterrupted run.  Its critical
    sections are taken apart in [local_steps]. *)
Definition pulsePointProcessEvent (pw : PulsePointWatcher)
    (event : fsnotify.Event) (env : Firing) : PulsePointWatcher :=
  let changeType := pulsePointMapEventType (fsnotify.Op event) in
  if String.eqb changeType ChangeTypeUnknown then pw
  else
    let changeEvent :=
      {| Type_ := changeType; Path := fsnotify.Name event; OldPath := "";
         Timestamp := now env; Size := 0; Hash := ""; IsDir := false |} in
    match statBlock pw (fsnotify.Name event) changeType env changeEvent with
    | None => pw
    | Some (hashes, ce) =>
        let '(paths', hashes') :=
          if IsDir ce && String.eqb changeType ChangeTypeCreate
          then pulsePointAddRecursive (fsnotify.Name event) (paths pw, hashes)
          else (paths pw, hashes) in
        {| paths := paths'; fileHashes := hashes';
           eventsChan := if ctxDone env then eventsChan pw
                         else (eventsChan pw ++ [ce])%list |}
    end.

End processEvent.

End local.

(** ** pkg/errors *)
Module pperrors.

(** A Go [error]: a [*PulseError] or any other error value. *)
#[local] Unset Elimination Schemes.
Inductive error :=
| PulseError (Type_ Message : string) (Err : option error) (StatusCode : Z)
| PlainError (msg : string).
#[local] Set Elimination Schemes.

(** The [Error] method of [PulseError]. *)
Fixpoint Error (e : error) : string :=
  match e with
  | PulseError t m (Some inner) _ => "[" ++ t ++ "] " ++ m ++ ": " ++ Error inner
  | PulseError t m None _ => "[" ++ t ++ "] " ++ m
  | PlainError m => m
  end.

(** [New] leaves [StatusCode] at its zero value. *)
Definition New (errType message : string) (err : option error) : error :=
  PulseError errType message err 0.

Definition NewSyncError (message : string) (err : option error) : error :=
  New "sync" message err.

Definition NewDatabaseError (message : string) (err : option error) : error :=
  New "filesystem" message err.

Definition IsNotFoundError (err : error) : bool :=
  match err with
  | PulseError _ _ _ code => code =? 404
  | PlainError _ => false
  end.

End pperrors.

(** ** internal/strategies: one-way, mirror and backup *)
Module strategies.
Import interfaces pperrors.

(** The object store behind [interfaces.CloudProvider]: a state and the
    four operations the strategies call.  Go's [(value, error)] results are
    pairs; [None] is [nil]. *)
Record CloudProvider (P : Type) := {
  Upload : P → File → P * option error;
  Delete : P → string → P * option error;
  List : P → string → P * (list File * option error);
  GetMetadata : P → string → P * (option Metadata * option error)
}.
Arguments Upload {P}.
Arguments Delete {P}.
Arguments List {P}.
Arguments GetMetadata {P}.

(** The provider calls a run has issued, in order. *)
Inductive ProviderCall :=
| CallUpload (file : File)
| CallDelete (path : string)
| CallList (folder : string)
| CallGetMetadata (path : string).

Definition is_delete (c : ProviderCall) : bool :=
  match c with CallDelete _ => true | _ => false end.

(** The state one [Sync] threads through its helpers: the provider, the
    log of calls, the number of clock readings taken, and the
    [*SyncResult] the helpers mutate. *)
Record Run (P : Type) := {
  prov : P;
  calls : list ProviderCall;
  ticks : nat;
  result : SyncResult
}.
Arguments prov {P}.
Arguments calls {P}.
Arguments ticks {P}.
Arguments result {P}.

Definition with_result {P} (s : Run P) (r : SyncResult) : Run P :=
  {| prov := prov s; calls := calls s; ticks := ticks s; result := r |}.

Definition emptyResult (start : Z) : SyncResult :=
  {| StartTime := start; EndTime := 0; FilesProcessed := 0;
     FilesUploaded := 0; FilesDownloaded := 0; FilesDeleted := 0;
     FilesSkipped := 0; BytesTransferred := 0; Errors := [];
     Conflicts := []; Success := true |}.

Definition incProcessed (r : SyncResult) : SyncResult :=
  {| StartTime := StartTime r; EndTime := EndTime r;
     FilesProcessed := add64 (FilesProcessed r) 1;
     FilesUploaded := FilesUploaded r; FilesDownloaded := FilesDownloaded r;
     FilesDeleted := FilesDeleted r; FilesSkipped := FilesSkipped r;
     BytesTransferred := BytesTransferred r; Errors := Errors r;
     Conflicts := Conflicts r; Success := Success r |}.

Definition incSkipped (r : SyncResult) : SyncResult :=
  {| StartTime := StartTime r; EndTime := EndTime r;
     FilesProcessed := FilesProcessed r;
     FilesUploaded := FilesUploaded r; FilesDownloaded := FilesDownloaded r;
     FilesDeleted := FilesDeleted r; FilesSkipped := add64 (FilesSkipped r) 1;
     BytesTransferred := BytesTransferred r; Errors := Errors r;
     Conflicts := Conflicts r; Success := Success r |}.

Definition incDeleted (r : SyncResult) : SyncResult :=
  {| StartTime := StartTime r; EndTime := EndTime r;
     FilesProcessed := FilesProcessed r;
     FilesUploaded := FilesUploaded r; FilesDownloaded := FilesDownloaded r;
     FilesDeleted := add64 (FilesDeleted r) 1; FilesSkipped := FilesSkipped r;
     BytesTransferred := BytesTransferred r; Errors := Errors r;
     Conflicts := Conflicts r; Success := Success r |}.

(** [result.FilesUploaded++; result.BytesTransferred += change.Size] *)
Definition recordUpload (r : SyncResult) (size : Z) : SyncResult :=
  {| StartTime := StartTime r; EndTime := EndTime r;
     FilesProcessed := FilesProcessed r;
     FilesUploaded := add64 (FilesUploaded r) 1;
     FilesDownloaded := FilesDownloaded r;
     FilesDeleted := FilesDeleted r; FilesSkipped := FilesSkipped r;
     BytesTransferred := add64 (BytesTransferred r) size; Errors := Errors r;
     Conflicts := Conflicts r; Success := Success r |}.

(** [result.Errors = append(result.Errors, e)], and [result.Success =
    false] where the caller says so. *)
Definition appendError (r : SyncResult) (e : SyncError) (success : bool)
  : SyncResult :=
  {| StartTime := StartTime r; EndTime := EndTime r;
     FilesProcessed := FilesProcessed r;
     FilesUploaded := FilesUploaded r; FilesDownloaded := FilesDownloaded r;
     FilesDeleted := FilesDeleted r; FilesSkipped := FilesSkipped r;
     BytesTransferred := BytesTransferred r; Errors := (Errors r ++ [e])%list;
     Conflicts := Conflicts r; Success := success |}.

Definition setSuccess (r : SyncResult) (success : bool) : SyncResult :=
  {| StartTime := StartTime r; EndTime := EndTime r;
     FilesProcessed := FilesProcessed r;
     FilesUploaded := FilesUploaded r; FilesDownloaded := FilesDownloaded r;
     FilesDeleted := FilesDeleted r; FilesSkipped := FilesSkipped r;
     BytesTransferred := BytesTransferred r; Errors := Errors r;
     Conflicts := Conflicts r; Success := success |}.

Definition setEndTime (r : SyncResult) (t : Z) : SyncResult :=
  {| StartTime := StartTime r; EndTime := t;
     FilesProcessed := FilesProcessed r;
     FilesUploaded := FilesUploaded r; FilesDownloaded := FilesDownloaded r;
     FilesDeleted := FilesDeleted r; FilesSkipped := FilesSkipped r;
     BytesTransferred := BytesTransferred r; Errors := Errors r;
     Conflicts := Conflicts r; Success := Success r |}.

Section common.
Context {P : Type}.
Variable provider : CloudProvider P.
(** [clock n] is what the n-th reading of [time.Now()] returns. *)
Variable clock : nat → Z.

Definition timeNow (s : Run P) : Z * Run P :=
  (clock (ticks s),
   {| prov := prov s; calls := calls s; ticks := S (ticks s);
      result := result s |}).

Definition callUpload (s : Run P) (file : File) : Run P * option error :=
  let '(p, err) := Upload provider (prov s) file in
  ({| prov := p; calls := (calls s ++ [CallUpload file])%list;
      ticks := ticks s; result := result s |}, err).

Definition callDelete (s : Run P) (path : string) : Run P * option error :=
  let '(p, err) := Delete provider (prov s) path in
  ({| prov := p; calls := (calls s ++ [CallDelete path])%list;
      ticks := ticks s; result := result s |}, err).

Definition callList (s : Run P) (folder : string)
  : Run P * (list File * option error) :=
  let '(p, r) := List provider (prov s) folder in
  ({| prov := p; calls := (calls s ++ [CallList folder])%list;
      ticks := ticks s; result := result s |}, r).

Definition callGetMetadata (s : Run P) (path : string)
  : Run P * (option Metadata * option error) :=
  let '(p, r) := GetMetadata provider (prov s) path in
  ({| prov := p; calls := (calls s ++ [CallGetMetadata path])%list;
      ticks := ticks s; result := result s |}, r).

(** [s.config.MaxFileSize > 0 && change.Size > s.config.MaxFileSize] *)
Definition exceedsLimit (config : StrategyConfig) (change : ChangeEvent) : bool :=
  (0 <? MaxFileSize config) && (MaxFileSize config <? Size change).

(** The file model built from a change; [time.Unix(0, change.Timestamp)]
    is the instant itself. *)
Definition fileOf (path : string) (change : ChangeEvent) : File :=
  {| f_Path := path; f_Size := Size change; f_Hash := Hash change;
     f_ModifiedTime := Timestamp change; f_IsFolder := IsDir change |}.

(** [uploadFile], the same text in oneway.go and mirror.go. *)
Definition uploadFile (config : StrategyConfig) (s : Run P)
    (change : ChangeEvent) : Run P * option error :=
  if exceedsLimit config change then
    (with_result s (incSkipped (result s)), None)
  else
    let '(s1, err) := callUpload s (fileOf (Path change) change) in
    match err with
    | Some e =>
        (s1, Some (NewSyncError ("failed to upload " ++ Path change) (Some e)))
    | None => (with_result s1 (recordUpload (result s1) (Size change)), None)
    end.

(** The loop body shared by the three [Sync] functions: on an error the
    failure is appended to [result.Errors]; [clearsSuccess] tells whether
    the strategy also executes [result.Success = false]. *)
Definition recordFailure (clearsSuccess : bool) (s : Run P)
    (change : ChangeEvent) (e : error) : Run P :=
  let '(t, s1) := timeNow s in
  with_result s1
    (appendError (result s1)
       {| se_Path := Path change; se_Operation := Type_ change;
          se_Message := Error e; se_Timestamp := t |}
       (if clearsSuccess then false else Success (result s1))).

Definition deleteEvent (path : string) : ChangeEvent :=
  {| Type_ := ChangeTypeDelete; Path := path; OldPath := "";
     Timestamp := 0; Size := 0; Hash := ""; IsDir := false |}.

(** The run a [Sync] of one-way or mirror starts from. *)
Definition startRun (p0 : P) : Run P :=
  {| prov := p0; calls := []; ticks := 1; result := emptyResult (clock 0) |}.

End common.

(** The three result fields that [success] is about. *)
Definition verdict (r : SyncResult) : list SyncError * list Conflict * bool :=
  (Errors r, Conflicts r, Success r).

(** The invariant of the one-way and mirror loops: [Success] is on
    exactly while no error has been recorded; no conflict is ever
    recorded. *)
Definition success_tracks_errors (r : SyncResult) : Prop :=
  (Success r = true ↔ Errors r = []) ∧ Conflicts r = [].

Definition no_delete (cs : list ProviderCall) : Prop :=
  Forall (fun c => is_delete c = false) cs.

End strategies.

(** *** internal/strategies/oneway.go *)
Module oneway.
Import interfaces pperrors strategies.

Section strategy.
Context {P : Type}.
Variable provider : CloudProvider P.
Variable clock : nat → Z.
Variable config : StrategyConfig.

Definition deleteFile (s : Run P) (change : ChangeEvent)
  : Run P * option error :=
  let '(s1, err) := callDelete provider s (Path change) in
  match err with
  | Some e =>
      (s1, Some (NewSyncError ("failed to delete " ++ Path change) (Some e)))
  | None => (with_result s1 (incDeleted (result s1)), None)
  end.

Definition processChange (s : Run P) (change : ChangeEvent)
  : Run P * option error :=
  let s0 := with_result s (incProcessed (result s)) in
  if String.eqb (Type_ change) ChangeTypeCreate
     || String.eqb (Type_ change) ChangeTypeModify then
    uploadFile provider config s0 change
  else if String.eqb (Type_ change) ChangeTypeDelete then
    if PreserveDeleted config
    then (with_result s0 (incSkipped (result s0)), None)
    else deleteFile s0 change
  else if String.eqb (Type_ change) ChangeTypeRename then
    let '(s1, err) := deleteFile s0 (deleteEvent (OldPath change)) in
    match err with
    | Some e => (s1, Some e)
    | None => uploadFile provider config s1 change
    end
  else (with_result s0 (incSkipped (result s0)), None).

(** The [for _, change := range changes] loop of [Sync]. *)
Definition processAll (s : Run P) (changes : list ChangeEvent) : Run P :=
  foldl (fun s change =>
           let '(s', err) := processChange s change in
           match err with
           | Some e => recordFailure clock true s' change e
           | None => s'
           end) s changes.

Definition Sync (p0 : P) (changes : list ChangeEvent) : Run P :=
  let s0 := {| prov := p0; calls := []; ticks := 1;
               result := emptyResult (clock 0) |} in
  let s1 := processAll s0 changes in
  let '(t, s2) := timeNow clock s1 in
  with_result s2 (setEndTime (result s2) t).

End strategy.
End oneway.

(** *** internal/strategies/mirror.go *)
Module mirror.
Import interfaces pperrors strategies.

(** [NewPulsePointMirrorStrategy]: [preserve_deleted] is forced off. *)
Definition NewConfig (config : option StrategyConfig) : StrategyConfig :=
  let c := default {| ConflictResolution := "keep_local"; IgnorePatterns := [];
                      MaxFileSize := 0; PreserveDeleted := false;
                      VersionControl := false |} config in
  {| ConflictResolution := ConflictResolution c;
     IgnorePatterns := IgnorePatterns c; MaxFileSize := MaxFileSize c;
     PreserveDeleted := false; VersionControl := VersionControl c |}.

Section strategy.
Context {P : Type}.
Variable provider : CloudProvider P.
Variable clock : nat → Z.
Variable config : StrategyConfig.

Definition deleteFile (s : Run P) (change : ChangeEvent)
  : Run P * option error :=
  let '(s1, err) := callDelete provider s (Path change) in
  match err with
  | Some e =>
      if IsNotFoundError e then (s1, None)
      else (s1, Some (NewSyncError ("failed to delete " ++ Path change) (Some e)))
  | None => (with_result s1 (incDeleted (result s1)), None)
  end.

Definition processChange (s : Run P) (change : ChangeEvent)
  : Run P * option error :=
  let s0 := with_result s (incProcessed (result s)) in
  if String.eqb (Type_ change) ChangeTypeCreate
     || String.eqb (Type_ change) ChangeTypeModify then
    uploadFile provider config s0 change
  else if String.eqb (Type_ change) ChangeTypeDelete then
    deleteFile s0 change
  else if String.eqb (Type_ change) ChangeTypeRename then
    let '(s1, err) := deleteFile s0 (deleteEvent (OldPath change)) in
    match err with
    | Some e => (s1, Some e)
    | None => uploadFile provider config s1 change
    end
  else (with_result s0 (incSkipped (result s0)), None).

(** The [for _, change := range changes] loop of [Sync]. *)
Definition processAll (s : Run P) (changes : list ChangeEvent) : Run P :=
  foldl (fun s change =>
           let '(s', err) := processChange s change in
           match err with
           | Some e => recordFailure clock true s' change e
           | None => s'
           end) s changes.

(** [cleanupRemote]: lists the remote root; the comparison with the
    local files is a TODO in the source, only the count is logged. *)
Definition cleanupRemote (s : Run P) (localPath : string)
  : Run P * option error :=
  let '(s1, (remoteFiles, err)) := callList provider s "/" in
  match err with
  | Some e => (s1, Some (NewSyncError "failed to list remote files" (Some e)))
  | None => (s1, None)
  end.

Definition Sync (p0 : P) (source : string) (changes : list ChangeEvent)
  : Run P :=
  let s0 := {| prov := p0; calls := []; ticks := 1;
               result := emptyResult (clock 0) |} in
  let s1 := processAll s0 changes in
  let '(s2, err) := cleanupRemote s1 source in
  let s3 := match err with
            | Some _ => with_result s2 (setSuccess (result s2) false)
            | None => s2
            end in
  let '(t, s4) := timeNow clock s3 in
  with_result s4 (setEndTime (result s4) t).

End strategy.
End mirror.

(** *** internal/strategies/backup.go *)
Module backup.
Import interfaces pperrors strategies.

(** [NewPulsePointBackupStrategy]: both flags are forced on. *)
Definition NewConfig (config : option StrategyConfig) : StrategyConfig :=
  let c := default {| ConflictResolution := "keep_both"; IgnorePatterns := [];
                      MaxFileSize := 0; PreserveDeleted := true;
                      VersionControl := true |} config in
  {| ConflictResolution := ConflictResolution c;
     IgnorePatterns := IgnorePatterns c; MaxFileSize := MaxFileSize c;
     PreserveDeleted := true; VersionControl := true |}.

Section strategy.
Context {P : Type}.
Variable provider : CloudProvider P.
Variable clock : nat → Z.
Variable config : StrategyConfig.
(** [time.Time.Format("20060102_150405")] and the [path/filepath]
    functions of the Go library. *)
Variable formatTime : Z → string.
Variables filepath_Dir filepath_Base filepath_Ext : string → string.
Variable filepath_Join : string → string → string.

Definition generateVersionedPath (originalPath timestamp : string) : string :=
  let dir := filepath_Dir originalPath in
  let base := filepath_Base originalPath in
  let ext := filepath_Ext base in
  let nameWithoutExt :=
    String.substring 0 (String.length base - String.length ext) base in
  let versionedName := nameWithoutExt ++ "_v" ++ timestamp ++ ext in
  if String.eqb dir "." then versionedName
  else filepath_Join dir versionedName.

Definition backupFile (s : Run P) (change : ChangeEvent)
    (backupTimestamp : string) : Run P * option error :=
  if exceedsLimit config change then
    (with_result s (incSkipped (result s)), None)
  else
    let '(s1, remotePath) :=
      if VersionControl config then
        let '(s', (metadata, err)) := callGetMetadata provider s (Path change) in
        match err, metadata with
        | None, Some _ =>
            (s', generateVersionedPath (Path change) backupTimestamp)
        | _, _ => (s', Path change)
        end
      else (s, Path change) in
    let '(s2, err) := callUpload provider s1 (fileOf remotePath change) in
    match err with
    | Some e =>
        (s2, Some (NewSyncError ("failed to backup " ++ Path change) (Some e)))
    | None => (with_result s2 (recordUpload (result s2) (Size change)), None)
    end.

Definition markerFile (markerPath : string) (t : Z) : File :=
  {| f_Path := markerPath; f_Size := 0; f_Hash := "";
     f_ModifiedTime := t; f_IsFolder := false |}.

(** A failed marker upload is only logged ("not a fatal error"). *)
Definition markDeleted (s : Run P) (change : ChangeEvent)
    (backupTimestamp : string) : Run P * option error :=
  let markerPath := Path change ++ ".deleted_" ++ backupTimestamp in
  let '(t, s1) := timeNow clock s in
  let '(s2, _) := callUpload provider s1 (markerFile markerPath t) in
  (with_result s2 (incProcessed (result s2)), None).

Definition markMoved (s : Run P) (oldPath newPath backupTimestamp : string)
  : Run P * option error :=
  let markerPath := oldPath ++ ".moved_" ++ backupTimestamp in
  let '(t, s1) := timeNow clock s in
  let '(s2, _) := callUpload provider s1 (markerFile markerPath t) in
  (s2, None).

Definition processChange (s : Run P) (change : ChangeEvent)
    (backupTimestamp : string) : Run P * option error :=
  let s0 := with_result s (incProcessed (result s)) in
  if String.eqb (Type_ change) ChangeTypeCreate
     || String.eqb (Type_ change) ChangeTypeModify then
    backupFile s0 change backupTimestamp
  else if String.eqb (Type_ change) ChangeTypeDelete then
    markDeleted s0 change backupTimestamp
  else if String.eqb (Type_ change) ChangeTypeRename then
    let '(s1, err) :=
      markMoved s0 (OldPath change) (Path change) backupTimestamp in
    match err with
    | Some e => (s1, Some e)
    | None => backupFile s1 change backupTimestamp
    end
  else (with_result s0 (incSkipped (result s0)), None).

(** The [for _, change := range changes] loop of [Sync]: failures are
    appended to [result.Errors] and the loop goes on. *)
Definition processAll (s : Run P) (changes : list ChangeEvent)
    (backupTimestamp : string) : Run P :=
  foldl (fun s change =>
           let '(s', err) := processChange s change backupTimestamp in
           match err with
           | Some e => recordFailure clock false s' change e
           | None => s'
           end) s changes.

(** The session timestamp is the second clock reading of [Sync]. *)
Definition sessionTimestamp : string := formatTime (clock 1).

(** [Sync]: unlike its two siblings the loop body does not execute
    [result.Success = false]. *)
Definition Sync (p0 : P) (changes : list ChangeEvent) : Run P :=
  let s0 := {| prov := p0; calls := []; ticks := 2;
               result := emptyResult (clock 0) |} in
  let backupTimestamp := sessionTimestamp in
  let s1 := processAll s0 changes backupTimestamp in
  let '(t, s2) := timeNow clock s1 in
  with_result s2 (setEndTime (result s2) t).

End strategy.
End backup.

(** ** pkg/models/state.go: the sync state *)
Module state.

(** [models.SyncState]; [OperationProgress] only ever receives the
    constants 0 and 100 below, the free-form [Metadata] map is left out. *)
Record SyncState := {
  Version : string;
  SchemaVersion : Z;
  LastSyncTime : Z;
  LastSuccessTime : Z;
  TotalFiles : Z;
  SyncedFiles : Z;
  PendingFiles : Z;
  FailedFiles : Z;
  TotalBytes : Z;
  SyncedBytes : Z;
  CurrentOperation : string;
  OperationProgress : Z;
  OperationStarted : Z;
  IsRunning : bool;
  IsPaused : bool;
  IsInitialized : bool;
  ConsecutiveErrors : Z;
  Errors : list string;
  Warnings : list string
}.

Definition NewSyncState : SyncState :=
  {| Version := "1.0.0"; SchemaVersion := 1; LastSyncTime := 0;
     LastSuccessTime := 0; TotalFiles := 0; SyncedFiles := 0;
     PendingFiles := 0; FailedFiles := 0; TotalBytes := 0; SyncedBytes := 0;
     CurrentOperation := ""; OperationProgress := 0; OperationStarted := 0;
     IsRunning := false; IsPaused := false; IsInitialized := true;
     ConsecutiveErrors := 0; Errors := []; Warnings := [] |}.

(** [StartOperation]; [t] is its [time.Now()]. *)
Definition StartOperation (s : SyncState) (operation : string) (t : Z) : SyncState :=
  {| Version := Version s; SchemaVersion := SchemaVersion s;
     LastSyncTime := LastSyncTime s; LastSuccessTime := LastSuccessTime s;
     TotalFiles := TotalFiles s; SyncedFiles := SyncedFiles s;
     PendingFiles := PendingFiles s; FailedFiles := FailedFiles s;
     TotalBytes := TotalBytes s; SyncedBytes := SyncedBytes s;
     CurrentOperation := operation; OperationProgress := 0;
     OperationStarted := t; IsRunning := true; IsPaused := false;
     IsInitialized := IsInitialized s;
     ConsecutiveErrors := ConsecutiveErrors s;
     Errors := Errors s; Warnings := Warnings s |}.

(** [EndOperation]; [t1] and [t2] are its two [time.Now()] readings. *)
Definition EndOperation (s : SyncState) (success : bool) (t1 t2 : Z) : SyncState :=
  {| Version := Version s; SchemaVersion := SchemaVersion s;
     LastSyncTime := t2;
     LastSuccessTime := if success then t1 else LastSuccessTime s;
     TotalFiles := TotalFiles s; SyncedFiles := SyncedFiles s;
     PendingFiles := PendingFiles s; FailedFiles := FailedFiles s;
     TotalBytes := TotalBytes s; SyncedBytes := SyncedBytes s;
     CurrentOperation := ""; OperationProgress := 100;
     OperationStarted := OperationStarted s; IsRunning := false;
     IsPaused := IsPaused s; IsInitialized := IsInitialized s;
     ConsecutiveErrors :=
       if success then 0 else add64 (ConsecutiveErrors s) 1;
     Errors := Errors s; Warnings := Warnings s |}.

Definition setIsPaused (s : SyncState) (b : bool) : SyncState :=
  {| Version := Version s; SchemaVersion := SchemaVersion s;
     LastSyncTime := LastSyncTime s; LastSuccessTime := LastSuccessTime s;
     TotalFiles := TotalFiles s; SyncedFiles := SyncedFiles s;
     PendingFiles := PendingFiles s; FailedFiles := FailedFiles s;
     TotalBytes := TotalBytes s; SyncedBytes := SyncedBytes s;
     CurrentOperation := CurrentOperation s;
     OperationProgress := OperationProgress s;
     OperationStarted := OperationStarted s; IsRunning := IsRunning s;
     IsPaused := b; IsInitialized := IsInitialized s;
     ConsecutiveErrors := ConsecutiveErrors s;
     Errors := Errors s; Warnings := Warnings s |}.

(** [interfaces.SyncState], the value handed to the state manager. *)
Record ISyncState := {
  i_Version : string;
  i_LastSyncTime : Z;
  i_LastSuccessTime : Z;
  i_TotalFiles : Z;
  i_SyncedFiles : Z;
  i_PendingFiles : Z;
  i_FailedFiles : Z;
  i_TotalBytes : Z;
  i_SyncedBytes : Z;
  i_CurrentOperation : string;
  i_IsRunning : bool;
  i_Errors : list string
}.

(** The field-by-field conversion written out in [saveState],
    [SaveState] and [LoadState]. *)
Definition toInterface (s : SyncState) : ISyncState :=
  {| i_Version := Version s; i_LastSyncTime := LastSyncTime s;
     i_LastSuccessTime := LastSuccessTime s; i_TotalFiles := TotalFiles s;
     i_SyncedFiles := SyncedFiles s; i_PendingFiles := PendingFiles s;
     i_FailedFiles := FailedFiles s; i_TotalBytes := TotalBytes s;
     i_SyncedBytes := SyncedBytes s;
     i_CurrentOperation := CurrentOperation s; i_IsRunning := IsRunning s;
     i_Errors := Errors s |}.

End state.

(** ** The sync engine (package sync): lifecycle and metrics *)
Module engine.
Import pperrors.

(** How a call ends: [return nil], [return err], or a run-time panic. *)
Inductive outcome :=
| ReturnNil
| ReturnErr (err : error)
| Panic (msg : string).

(** The runtime state of [PulsePointEngine]: the two flags, the current
    sync state, whether [stopChan] and [pauseChan] are closed, the states
    handed to [stateManager.SaveState] (oldest first), and the number of
    clock readings taken. *)
Record PulsePointEngine := {
  isRunning : bool;
  isPaused : bool;
  currentState : state.SyncState;
  stopChanClosed : bool;
  pauseChanClosed : bool;
  saved : list state.ISyncState;
  ticks : nat
}.

Section lifecycle.
Variable clock : nat → Z.

(** [saveState]: the error of [SaveState] is dropped by every caller. *)
Definition saveState (e : PulsePointEngine) : PulsePointEngine :=
  {| isRunning := isRunning e; isPaused := isPaused e;
     currentState := currentState e;
     stopChanClosed := stopChanClosed e;
     pauseChanClosed := pauseChanClosed e;
     saved := (saved e ++ [state.toInterface (currentState e)])%list;
     ticks := ticks e |}.

Definition setFlags (e : PulsePointEngine) (running paused : bool)
  : PulsePointEngine :=
  {| isRunning := running; isPaused := paused;
     currentState := currentState e;
     stopChanClosed := stopChanClosed e;
     pauseChanClosed := pauseChanClosed e;
     saved := saved e; ticks := ticks e |}.

Definition setCurrentState (e : PulsePointEngine) (s : state.SyncState)
    (readings : nat) : PulsePointEngine :=
  {| isRunning := isRunning e; isPaused := isPaused e; currentState := s;
     stopChanClosed := stopChanClosed e;
     pauseChanClosed := pauseChanClosed e;
     saved := saved e; ticks := (ticks e + readings)%nat |}.

Definition setChans (e : PulsePointEngine) (stopClosed pauseClosed : bool)
  : PulsePointEngine :=
  {| isRunning := isRunning e; isPaused := isPaused e;
     currentState := currentState e;
     stopChanClosed := stopClosed; pauseChanClosed := pauseClosed;
     saved := saved e; ticks := ticks e |}.

(** [Start]; [watcherStart] is what [e.watcher.Start] returns. *)
Definition Start (e : PulsePointEngine) (watcherStart : option error)
  : PulsePointEngine * outcome :=
  if isRunning e then
    (e, ReturnErr (NewSyncError "engine already running" None))
  else
    let e1 := setFlags e true false in
    match watcherStart with
    | Some err =>
        (setFlags e1 false (isPaused e1),
         ReturnErr (NewSyncError "failed to start file watcher" (Some err)))
    | None =>
        let e2 := setCurrentState e1
                    (state.StartOperation (currentState e1)
                       "sync_engine_running" (clock (ticks e1))) 1 in
        (saveState e2, ReturnNil)
    end.

(** [Stop]; closing an already closed [stopChan] panics. *)
Definition Stop (e : PulsePointEngine) (watcherStop : option error)
  : PulsePointEngine * outcome :=
  if negb (isRunning e) then (e, ReturnNil)
  else if stopChanClosed e then (e, Panic "close of closed channel")
  else
    let e1 := setChans e true (pauseChanClosed e) in
    let e2 := setFlags e1 false false in
    let e3 := setCurrentState e2
                (state.EndOperation (currentState e2) true
                   (clock (ticks e2)) (clock (S (ticks e2)))) 2 in
    (saveState e3, ReturnNil).

(** [Pause]; [e.isPaused = true] precedes [close(e.pauseChan)]. *)
Definition Pause (e : PulsePointEngine) : PulsePointEngine * outcome :=
  if negb (isRunning e) then
    (e, ReturnErr (NewSyncError "engine not running" None))
  else if isPaused e then
    (e, ReturnErr (NewSyncError "engine already paused" None))
  else
    let e1 := setFlags e (isRunning e) true in
    if pauseChanClosed e1 then (e1, Panic "close of closed channel")
    else
      let e2 := setChans e1 (stopChanClosed e1) true in
      let e3 := setCurrentState e2
                  (state.setIsPaused (currentState e2) true) 0 in
      (saveState e3, ReturnNil).

(** [Resume]; [e.pauseChan = make(chan struct{})] is a fresh open channel. *)
Definition Resume (e : PulsePointEngine) : PulsePointEngine * outcome :=
  if negb (isRunning e) then
    (e, ReturnErr (NewSyncError "engine not running" None))
  else if negb (isPaused e) then
    (e, ReturnErr (NewSyncError "engine not paused" None))
  else
    let e1 := setFlags e (isRunning e) false in
    let e2 := setChans e1 (stopChanClosed e1) false in
    let e3 := setCurrentState e2
                (state.setIsPaused (currentState e2) false) 0 in
    (saveState e3, ReturnNil).

End lifecycle.

(** [NewPulsePointEngine] with nothing stored yet. *)
Definition NewPulsePointEngine : PulsePointEngine :=
  {| isRunning := false; isPaused := false;
     currentState := state.NewSyncState;
     stopChanClosed := false; pauseChanClosed := false;
     saved := []; ticks := 0 |}.

Definition is_error (o : outcome) : bool :=
  match o with ReturnErr _ => true | _ => false end.

(** *** Metrics.  [float64] values are idealised as exact rationals. *)
Record SyncMetrics := {
  TotalSyncs : Z;
  SuccessfulSyncs : Z;
  FailedSyncs : Z;
  TotalFiles : Z;
  TotalBytes : Z;
  LastSyncDuration : Z;
  AverageSpeed : Q;
  CurrentSpeed : Q
}.

(** [&SyncMetrics{StartTime: time.Now()}] *)
Definition newMetrics : SyncMetrics :=
  {| TotalSyncs := 0; SuccessfulSyncs := 0; FailedSyncs := 0;
     TotalFiles := 0; TotalBytes := 0; LastSyncDuration := 0;
     AverageSpeed := 0%Q; CurrentSpeed := 0%Q |}.

(** [float64(bytes) / (1024 * 1024) / duration.Seconds()] for a duration
    in nanoseconds. *)
Definition mbps (bytes duration : Z) : Q :=
  ((inject_Z bytes / inject_Z (1024 * 1024)) /
   (inject_Z duration / inject_Z 1000000000))%Q.

Definition recordSuccess (m : SyncMetrics) (result : interfaces.SyncResult)
  : SyncMetrics :=
  let total := add64 (TotalSyncs m) 1 in
  let succ := add64 (SuccessfulSyncs m) 1 in
  let files := add64 (TotalFiles m) (interfaces.FilesProcessed result) in
  let bytes := add64 (TotalBytes m) (interfaces.BytesTransferred result) in
  let duration :=
    wrap64 (interfaces.EndTime result - interfaces.StartTime result) in
  if 0 <? duration then
    let speed := mbps (interfaces.BytesTransferred result) duration in
    {| TotalSyncs := total; SuccessfulSyncs := succ;
       FailedSyncs := FailedSyncs m; TotalFiles := files;
       TotalBytes := bytes; LastSyncDuration := duration;
       AverageSpeed :=
         if Qeq_bool (AverageSpeed m) 0 then speed
         else ((AverageSpeed m * inject_Z (succ - 1) + speed)
               / inject_Z succ)%Q;
       CurrentSpeed := speed |}
  else
    {| TotalSyncs := total; SuccessfulSyncs := succ;
       FailedSyncs := FailedSyncs m; TotalFiles := files;
       TotalBytes := bytes; LastSyncDuration := duration;
       AverageSpeed := AverageSpeed m; CurrentSpeed := CurrentSpeed m |}.

Definition recordFailure (m : SyncMetrics) : SyncMetrics :=
  {| TotalSyncs := add64 (TotalSyncs m) 1;
     SuccessfulSyncs := SuccessfulSyncs m;
     FailedSyncs := add64 (FailedSyncs m) 1;
     TotalFiles := TotalFiles m; TotalBytes := TotalBytes m;
     LastSyncDuration := LastSyncDuration m;
     AverageSpeed := AverageSpeed m; CurrentSpeed := CurrentSpeed m |}.

(** A history of metric updates, as [Sync] issues them. *)
Inductive record_call :=
| Succeeded (result : interfaces.SyncResult)
| Failed.

Definition record (m : SyncMetrics) (c : record_call) : SyncMetrics :=
  match c with
  | Succeeded r => recordSuccess m r
  | Failed => recordFailure m
  end.

Definition recordAll (cs : list record_call) : SyncMetrics :=
  foldl record newMetrics cs.

(** The design's average: the mean of the speeds of the successful
    syncs, each speed being megabytes transferred per second. *)
Definition speed_of (r : interfaces.SyncResult) : Q :=
  mbps (interfaces.BytesTransferred r)
       (interfaces.EndTime r - interfaces.StartTime r).

Definition successful_speeds (cs : list record_call) : list Q :=
  omap (fun c => match c with
                 | Succeeded r => Some (speed_of r)
                 | Failed => None
                 end) cs.

Definition cumulative_mean (speeds : list Q) : Q :=
  (foldr Qplus 0 speeds / inject_Z (Z.of_nat (length speeds)))%Q.

(** A history entry whose speed is defined and positive: a failure, or a
    success that moved some bytes in a positive time. *)
Definition positive_speed (c : record_call) : Prop :=
  match c with
  | Failed => True
  | Succeeded r =>
      0 < interfaces.BytesTransferred r
      ∧ 0 < interfaces.EndTime r - interfaces.StartTime r < 2 ^ 63
  end.

(** What the running average has accumulated: [n] successful syncs whose
    speeds sum to [total]. *)
Definition averaged (m : SyncMetrics) (total : Q) : Prop :=
  0 <= SuccessfulSyncs m
  ∧ (AverageSpeed m * inject_Z (SuccessfulSyncs m) == total)%Q
  ∧ (SuccessfulSyncs m = 0 → (AverageSpeed m == 0)%Q)
  ∧ (0 < SuccessfulSyncs m → (0 < AverageSpeed m)%Q).

End engine.

(** ** internal/database: the embedded key-value store *)
Module database.
Import pperrors.

Definition BucketState : string := "state".
Definition BucketFileState : string := "file_state".
Definition BucketTransactions : string := "transactions".

(** A bbolt database: open or closed, with named buckets of byte strings.
    [Bucket.Get] is the map lookup: [None] is the nil slice returned for a
    key that does not exist. *)
Record DB := {
  opened : bool;
  buckets : gmap string (gmap string string)
}.

Definition ErrDatabaseNotOpen : error := PlainError "database not open".

(** [db.View(fn)]: a read-only transaction; beginning it fails on a
    closed database, otherwise the result is what [fn] returns. *)
Definition View {A : Type} (db : DB)
    (fn : gmap string (gmap string string) → A + error) : A + error :=
  if opened db then fn (buckets db) else inr ErrDatabaseNotOpen.

End database.

(** ** The state manager (package sync) *)
Module statemgr.
Import pperrors database.

(** [models.FileState], with the fields the manager converts and a few
    of those it drops. *)
Record ModelFileState := {
  Path : string;
  FileID : string;
  RemoteID : string;
  LocalHash : string;
  RemoteHash : string;
  HashAlgo : string;
  LocalModTime : Z;
  RemoteModTime : Z;
  LastSyncTime : Z;
  Size : Z;
  Status : string;
  LastError : string;
  RetryCount : Z;
  Version : Z;
  IsFolder : bool
}.

(** [interfaces.FileState] *)
Record FileState := {
  fs_Path : string;
  fs_LocalHash : string;
  fs_RemoteHash : string;
  fs_LocalModTime : Z;
  fs_RemoteModTime : Z;
  fs_Size : Z;
  fs_Status : string;
  fs_LastSyncTime : Z;
  fs_LastError : string;
  fs_RetryCount : Z;
  fs_RemoteID : string;
  fs_Version : Z
}.

(** [interfaces.SyncTransaction] *)
Record SyncTransaction := {
  tx_ID : string;
  tx_StartTime : Z;
  tx_EndTime : Z;
  tx_Type : string;
  tx_Status : string;
  tx_FilesAffected : list string;
  tx_BytesTransferred : Z;
  tx_Errors : list string;
  tx_Result : option interfaces.SyncResult
}.

Definition toFileState (m : ModelFileState) : FileState :=
  {| fs_Path := Path m; fs_LocalHash := LocalHash m;
     fs_RemoteHash := RemoteHash m; fs_LocalModTime := LocalModTime m;
     fs_RemoteModTime := RemoteModTime m; fs_Size := Size m;
     fs_Status := Status m; fs_LastSyncTime := LastSyncTime m;
     fs_LastError := LastError m; fs_RetryCount := RetryCount m;
     fs_RemoteID := RemoteID m; fs_Version := Version m |}.

Section manager.
(** [json.Unmarshal] into the three stored types. *)
Variable unmarshalSyncState : string → state.SyncState + error.
Variable unmarshalFileState : string → ModelFileState + error.
Variable unmarshalTransaction : string → SyncTransaction + error.

(** The closure passed to [View] by the three getters: fail when the
    bucket is missing, otherwise read the key. *)
Definition readKey (bucketName missing key : string)
    (tx : gmap string (gmap string string)) : option string + error :=
  match tx !! bucketName with
  | None => inr (PlainError missing)
  | Some bucket => inl (bucket !! key)
  end.

Definition LoadState (db : DB) : option state.ISyncState * option error :=
  match View db (readKey BucketState "state bucket not found" "current") with
  | inr err => (None, Some (NewDatabaseError "failed to load state" (Some err)))
  | inl None => (None, None)
  | inl (Some data) =>
      match unmarshalSyncState data with
      | inr err =>
          (None, Some (NewDatabaseError "failed to unmarshal state" (Some err)))
      | inl modelState => (Some (state.toInterface modelState), None)
      end
  end.

Definition GetFileState (db : DB) (path : string)
  : option FileState * option error :=
  match View db (readKey BucketFileState "file state bucket not found" path) with
  | inr err =>
      (None, Some (NewDatabaseError "failed to get file state" (Some err)))
  | inl None => (None, None)
  | inl (Some data) =>
      match unmarshalFileState data with
      | inr err =>
          (None, Some (NewDatabaseError "failed to unmarshal file state"
                         (Some err)))
      | inl modelFile => (Some (toFileState modelFile), None)
      end
  end.

Definition GetTransaction (db : DB) (id : string)
  : option SyncTransaction * option error :=
  match View db (readKey BucketTransactions "transactions bucket not found" id) with
  | inr err =>
      (None, Some (NewDatabaseError "failed to get transaction" (Some err)))
  | inl None => (None, None)
  | inl (Some data) =>
      match unmarshalTransaction data with
      | inr err =>
          (None, Some (NewDatabaseError "failed to unmarshal transaction"
                         (Some err)))
      | inl transaction => (Some transaction, None)
      end
  end.

(** The two ways a getter may fail, as the design names them. *)
Definition database_failure (db : DB) (bucketName : string) : Prop :=
  opened db = false ∨ buckets db !! bucketName = None.

Definition decoding_failure {A : Type} (unmarshal : string → A + error)
    (db : DB) (bucketName key : string) : Prop :=
  ∃ bucket data err,
    buckets db !! bucketName = Some bucket
    ∧ bucket !! key = Some data ∧ unmarshal data = inr err.

(** A key is absent when its bucket exists and does not hold it. *)
Definition absent (db : DB) (bucketName key : string) : Prop :=
  ∃ bucket, buckets db !! bucketName = Some bucket ∧ bucket !! key = None.

End manager.

(** [Initialize] on an empty database file: the three buckets exist. *)
Definition initialized : DB :=
  {| opened := true;
     buckets := {[ BucketState := ∅; BucketFileState := ∅;
                   BucketTransactions := ∅ ]} |}.

End statemgr.

(** ** Sample values used by the examples of Part II: events, test doubles
    for the object store, and stand-ins for library functions *)
Module queue_samples.
Import models queue.

Definition sample_create : ChangeEvent := mkEvent ChangeTypeCreate "a.txt" 1.
Definition sample_modify : ChangeEvent := mkEvent ChangeTypeModify "a.txt" 2.
Definition sample_delete : ChangeEvent := mkEvent ChangeTypeDelete "a.txt" 2.

Definition always_fail : list ChangeEvent → option string :=
  fun _ => Some "process failed".

End queue_samples.

Module local_samples.
Import interfaces local.

Definition sample_watcher : PulsePointWatcher :=
  {| paths := {[ "/w" := true ]};
     fileHashes := {[ "/w/a.txt" := "d41d8cd9" ]};
     eventsChan := [] |}.

Definition sample_firing : Firing :=
  {| stat := Some {| fi_Size := 4; fi_IsDir := false |};
     hash := Some "d41d8cd9"; now := 1700000000; ctxDone := false |}.

End local_samples.

Module strategy_samples.
Import interfaces pperrors strategies.

Definition fileHasPath (path : string) (f : File) : bool :=
  String.eqb (f_Path f) path.

Definition notFound : error := PulseError "provider" "file not found" None 404.

(** An in-memory store: the state is the list of remote files. *)
Definition memProvider : CloudProvider (list File) :=
  {| Upload := fun fs f =>
       (f :: filter (fun g => negb (fileHasPath (f_Path f) g)) fs, None);
     Delete := fun fs path =>
       if existsb (fileHasPath path) fs
       then (filter (fun g => negb (fileHasPath path g)) fs, None)
       else (fs, Some notFound);
     List := fun fs _ => (fs, (fs, None));
     GetMetadata := fun fs path =>
       match find (fileHasPath path) fs with
       | Some f => (fs, (Some {| m_Path := f_Path f; m_Size := f_Size f;
                                 m_Hash := f_Hash f;
                                 m_IsFolder := f_IsFolder f |}, None))
       | None => (fs, (None, Some notFound))
       end |}.

(** A store that is unreachable: every operation fails. *)
Definition downProvider : CloudProvider unit :=
  {| Upload := fun u _ => (u, Some (PlainError "connection refused"));
     Delete := fun u _ => (u, Some (PlainError "connection refused"));
     List := fun u _ => (u, ([], Some (PlainError "connection refused")));
     GetMetadata := fun u _ => (u, (None, Some (PlainError "connection refused"))) |}.

Definition tickClock (n : nat) : Z := 1700000000 + Z.of_nat n.

Definition noLimit : StrategyConfig :=
  {| ConflictResolution := "keep_local"; IgnorePatterns := [];
     MaxFileSize := 0; PreserveDeleted := false; VersionControl := false |}.

Definition remoteFile (path hash : string) : File :=
  {| f_Path := path; f_Size := 1; f_Hash := hash; f_ModifiedTime := 0;
     f_IsFolder := false |}.

Definition change (ty path old : string) (size : Z) : ChangeEvent :=
  {| Type_ := ty; Path := path; OldPath := old; Timestamp := 5;
     Size := size; Hash := "h"; IsDir := false |}.

(** Stand-ins for the Go library functions in the examples. *)
Definition fmtTime (_ : Z) : string := "20240101_120000".
Definition dirDot (_ : string) : string := ".".
Definition baseId (path : string) : string := path.
Definition extTxt (_ : string) : string := ".txt".
Definition joinSlash (a b : string) : string := a ++ "/" ++ b.

Definition sample_rename : ChangeEvent :=
  change ChangeTypeRename "new.txt" "old.txt" 20.

Definition limit10 : StrategyConfig :=
  {| ConflictResolution := "keep_both"; IgnorePatterns := [];
     MaxFileSize := 10; PreserveDeleted := true; VersionControl := true |}.

End strategy_samples.

Module engine_samples.

Definition syncResult (bytes start stop : Z) : interfaces.SyncResult :=
  {| interfaces.StartTime := start; interfaces.EndTime := stop;
     interfaces.FilesProcessed := 0; interfaces.FilesUploaded := 0;
     interfaces.FilesDownloaded := 0; interfaces.FilesDeleted := 0;
     interfaces.FilesSkipped := 0; interfaces.BytesTransferred := bytes;
     interfaces.Errors := []; interfaces.Conflicts := [];
     interfaces.Success := true |}.

End engine_samples.

Module statemgr_samples.
Import pperrors.

Definition undecodable {A : Type} (_ : string) : A + error :=
  inr (PlainError "unexpected end of JSON input").

End statemgr_samples.

(** ** go.etcd.io/bbolt: buckets inside a read-write transaction.  The
    library's argument checks are written out; disk failures at commit are
    outside the model. *)
Module bolt.
Import pperrors database.

Inductive BoltError :=
| ErrNotOpen
| ErrBucketNotFound
| ErrBucketExists
| ErrBucketNameRequired
| ErrKeyRequired
| ErrKeyTooLarge
| ErrValueTooLarge.

#[global] Instance BoltError_eq_dec : EqDecision BoltError.
Proof. solve_decision. Defined.

Definition MaxKeySize : Z := 32768.
Definition MaxValueSize : Z := 2147483646.

Definition strlen (s : string) : Z := Z.of_nat (String.length s).

(** [Bucket.Put] *)
Definition Put (bucket : gmap string string) (key value : string)
  : gmap string string + BoltError :=
  if String.eqb key "" then inr ErrKeyRequired
  else if MaxKeySize <? strlen key then inr ErrKeyTooLarge
  else if MaxValueSize <? strlen value then inr ErrValueTooLarge
  else inl (<[key := value]> bucket).

(** [Bucket.Delete]: deleting a key that does not exist is not an error. *)
Definition Delete (bucket : gmap string string) (key : string)
  : gmap string string :=
  delete key bucket.

(** [Tx.DeleteBucket], [Tx.CreateBucket], [Tx.CreateBucketIfNotExists] *)
Definition DeleteBucket (tx : gmap string (gmap string string)) (name : string)
  : gmap string (gmap string string) + BoltError :=
  match tx !! name with
  | Some _ => inl (delete name tx)
  | None => inr ErrBucketNotFound
  end.

Definition CreateBucket (tx : gmap string (gmap string string)) (name : string)
  : gmap string (gmap string string) + BoltError :=
  if String.eqb name "" then inr ErrBucketNameRequired
  else match tx !! name with
       | Some _ => inr ErrBucketExists
       | None => inl (<[name := ∅]> tx)
       end.

Definition CreateBucketIfNotExists (tx : gmap string (gmap string string))
    (name : string) : gmap string (gmap string string) + BoltError :=
  if String.eqb name "" then inr ErrBucketNameRequired
  else match tx !! name with
       | Some _ => inl tx
       | None => inl (<[name := ∅]> tx)
       end.

(** [db.Update(fn)]: the transaction commits what [fn] returns, or rolls
    back when [fn] returns an error; it cannot begin on a closed database. *)
Definition Update {E : Type} (notOpen : E) (db : DB)
    (fn : gmap string (gmap string string)
          → gmap string (gmap string string) + E) : DB * option E :=
  if opened db then
    match fn (buckets db) with
    | inl tx => ({| opened := opened db; buckets := tx |}, None)
    | inr err => (db, Some err)
    end
  else (db, Some notOpen).

(** The message of a bbolt error, as a Go [error] value. *)
Definition toError (e : BoltError) : error :=
  PlainError
    match e with
    | ErrNotOpen => "database not open"
    | ErrBucketNotFound => "bucket not found"
    | ErrBucketExists => "bucket already exists"
    | ErrBucketNameRequired => "bucket name required"
    | ErrKeyRequired => "key required"
    | ErrKeyTooLarge => "key too large"
    | ErrValueTooLarge => "value too large"
    end.

(** bbolt keeps the keys of a bucket in byte order ([bytes.Compare],
    which is [String.compare] on byte strings) and a cursor walks the
    entries in that order: [cursor.First()] is the smallest key,
    [cursor.Last()] the largest. *)
Definition keyLe (a b : string * string) : Prop := String.leb a.1 b.1 = true.


#[global] Instance keyLe_dec : RelDecision keyLe.
Proof. intros a b. unfold keyLe. apply _. Defined.


End bolt.

(** ** internal/watchers/queue: construction, persistence, statistics *)
Module queue_store.
Import models queue database bolt.

(** The bucket the queue mirrors itself into (not [database.BucketQueue]). *)
Definition QueueBucket : string := "Queue".

(** [QueueConfig] with the zero-value defaults of
    [NewPulsePointChangeQueue]. *)
Definition defaultMaxSize (n : Z) : Z := if n =? 0 then 10000 else n.
Definition defaultBatchSize (n : Z) : Z := if n =? 0 then 100 else n.

Section codec.
(** [json.Marshal] and [json.Unmarshal] of a change event; [None] is an
    encoding or decoding error. *)
Variable marshalEvent : ChangeEvent → option string.
Variable unmarshalEvent : string → option ChangeEvent.

(** The [for path, event := range itemsCopy] loop of
    [pulsePointPersistToDB]: an event that does not encode is skipped, a
    failing [Put] aborts the transaction. *)
Fixpoint putAll (bucket : gmap string string)
    (order : list (string * ChangeEvent)) : gmap string string + BoltError :=
  match order with
  | [] => inl bucket
  | (path, event) :: rest =>
      match marshalEvent event with
      | None => putAll bucket rest
      | Some data =>
          match Put bucket path data with
          | inr err => inr err
          | inl bucket' => putAll bucket' rest
          end
      end
  end.

(** [pulsePointPersistToDB]; [order] is Go's iteration order over the copy
    of [q.items]. *)
Definition pulsePointPersistToDB (q : PulsePointChangeQueue)
    (order : list (string * ChangeEvent)) (db : DB) : DB * option BoltError :=
  Update ErrNotOpen db (fun tx =>
    let cleared :=
      match DeleteBucket tx QueueBucket with
      | inl tx' => inl tx'
      | inr err => if decide (err = ErrBucketNotFound) then inl tx else inr err
      end in
    match cleared with
    | inr err => inr err
    | inl tx1 =>
        match CreateBucketIfNotExists tx1 QueueBucket with
        | inr err => inr err
        | inl tx2 =>
            match putAll (default ∅ (tx2 !! QueueBucket)) order with
            | inr err => inr err
            | inl bucket => inl (<[QueueBucket := bucket]> tx2)
            end
        end
    end).

(** The [bucket.ForEach] callback of [pulsePointLoadFromDB], over the
    entries in cursor order: an entry that does not decode is skipped, a
    decoded event is stored under its own [Path]. *)
Fixpoint loadAll (items : gmap string ChangeEvent)
    (cursor : list (string * string)) : gmap string ChangeEvent :=
  match cursor with
  | [] => items
  | (_, v) :: rest =>
      match unmarshalEvent v with
      | None => loadAll items rest
      | Some event => loadAll (<[Path event := event]> items) rest
      end
  end.

(** An entry bbolt accepts: it encodes, its key is not empty, and key and
    value are within the library's size limits. *)
Definition storable (path : string) (event : ChangeEvent) : Prop :=
  ∃ data, marshalEvent event = Some data
          ∧ path ≠ "" ∧ strlen path ≤ MaxKeySize ∧ strlen data ≤ MaxValueSize.

(** [pulsePointLoadFromDB]: a missing bucket is an empty queue; only a
    closed database is an error. *)
Definition pulsePointLoadFromDB (q : PulsePointChangeQueue)
    (cursor : list (string * string)) (db : DB)
  : PulsePointChangeQueue * option BoltError :=
  if opened db then
    match buckets db !! QueueBucket with
    | None => (q, None)
    | Some _ => (set_items q (loadAll (items q) cursor), None)
    end
  else (q, Some ErrNotOpen).

(** [NewPulsePointChangeQueue] *)
Definition NewPulsePointChangeQueue (db : DB) (configMaxSize configBatchSize : Z)
    (cursor : list (string * string)) : PulsePointChangeQueue + BoltError :=
  let q0 := {| items := ∅; processingItems := ∅;
               maxSize := defaultMaxSize configMaxSize;
               batchSize := defaultBatchSize configBatchSize |} in
  match pulsePointLoadFromDB q0 cursor db with
  | (_, Some err) => inr err
  | (q, None) => inl q
  end.

End codec.

(** [Clear]: the pending map is replaced by an empty one, then the bucket
    is deleted (an absent bucket makes [Clear] return the bbolt error). *)
Definition Clear (q : PulsePointChangeQueue) (db : DB)
  : PulsePointChangeQueue * DB * option BoltError :=
  let q' := set_items q ∅ in
  let '(db', err) := Update ErrNotOpen db (fun tx => DeleteBucket tx QueueBucket) in
  (q', db', err).

(** Every pending event is stored under its own path. *)
Definition keyed (q : PulsePointChangeQueue) : Prop :=
  ∀ p e, items q !! p = Some e → Path e = p.

(** What a flush callback returned, for the flush to count as done. *)
Definition callback_ok (processFunc : option (list ChangeEvent → option string))
    (batch : list ChangeEvent) : Prop :=
  match processFunc with
  | Some f => f batch = None
  | None => True
  end.

(** [make([]*models.ChangeEvent, 0, q.batchSize)], the first statement
    of [pulsePointProcessBatch] after the emptiness test, panics when
    the capacity is negative or above [maxCap], the largest capacity the
    Go runtime grants for a slice of pointers.  [itemsMu] is held at
    that point and the panic is not recovered. *)
Definition makePanics (maxCap : Z) (q : PulsePointChangeQueue) : bool :=
  negb (Nat.eqb (size (items q)) 0)
  && ((batchSize q <? 0) || (maxCap <? batchSize q)).

(** A flush as the ticker goroutine runs it: [None] is the run-time
    panic of [make], before any field of the queue is written. *)
Definition flush (maxCap : Z) (q : PulsePointChangeQueue)
    (order : list (string * ChangeEvent))
    (processFunc : option (list ChangeEvent → option string))
    (during window : list ChangeEvent) : option PulsePointChangeQueue :=
  if makePanics maxCap q then None
  else Some (pulsePointProcessBatch q order processFunc during window).

(** A codec that only knows one event, for the examples. *)
Definition oneEventMarshal (e : ChangeEvent) (x : ChangeEvent) : option string :=
  if decide (x = e) then Some "{}" else None.

Definition oneEventUnmarshal (e : ChangeEvent) (data : string) : option ChangeEvent :=
  if String.eqb data "{}" then Some e else None.

Definition openDB : DB := {| opened := true; buckets := ∅ |}.

End queue_store.

Module watcher_samples.
Import interfaces local.

Definition created : fsnotify.Event :=
  {| fsnotify.Name := "/w/a.txt"; fsnotify.Op := fsnotify.Create |}.
Definition written : fsnotify.Event :=
  {| fsnotify.Name := "/w/a.txt"; fsnotify.Op := fsnotify.Write |}.
Definition removed : fsnotify.Event :=
  {| fsnotify.Name := "/w/a.txt"; fsnotify.Op := fsnotify.Remove |}.
Definition renamed : fsnotify.Event :=
  {| fsnotify.Name := "/w/a.txt"; fsnotify.Op := fsnotify.Rename |}.

Definition file_firing (h : string) (t : Z) : Firing :=
  {| stat := Some {| fi_Size := 4; fi_IsDir := false |};
     hash := Some h; now := t; ctxDone := false |}.

Definition gone_firing (t : Z) : Firing :=
  {| stat := None; hash := None; now := t; ctxDone := false |}.

End watcher_samples.

(** ** internal/watchers/local: ignore rules, path removal, debouncing *)
Module local_watch.
Import interfaces local.

(** [strings.HasPrefix] and [strings.Contains] *)
Definition HasPrefix (s prefix : string) : bool := String.prefix prefix s.

Fixpoint Contains (s substr : string) : bool :=
  String.prefix substr s
  || match s with
     | EmptyString => false
     | String _ s' => Contains s' substr
     end.

(** The watcher with the fields behind [pulsePointHandleEvent].  A
    [*time.Timer] is a number; [armed] holds the timers that
    [time.AfterFunc] started and that neither fired nor were stopped, with
    the event their function closes over; [running] holds the timers whose
    function has been started and has not yet reached its clean-up. *)
Record Watching := {
  watcher : PulsePointWatcher;
  ignorePatterns : list string;
  debounceTimers : gmap string nat;
  armed : gmap nat fsnotify.Event;
  running : gmap nat fsnotify.Event;
  timersMade : nat
}.

Section watching.
(** [filepath.Match] (its error is dropped by the caller, a malformed
    pattern matches nothing), [filepath.Base] and [filepath.Abs]. *)
Variable Match : string → string → bool.
Variable Base : string → string.
Variable Abs : string → string + string.
Variable pulsePointAddRecursive :
  string → gmap string bool * gmap string string
         → gmap string bool * gmap string string.

(** The [for _, pattern := range pw.ignorePatterns] loop. *)
Fixpoint matchesAny (patterns : list string) (path : string) : bool :=
  match patterns with
  | [] => false
  | pattern :: rest =>
      if Match pattern (Base path) then true
      else if Contains path pattern then true
      else matchesAny rest path
  end.

(** [pulsePointShouldIgnore] *)
Definition pulsePointShouldIgnore (patterns : list string) (path : string)
  : bool :=
  if matchesAny patterns path then true
  else
    let base := Base path in
    if String.eqb base ".DS_Store" || String.eqb base "Thumbs.db"
       || String.eqb base ".git" || HasPrefix base "~"
    then true else false.

(** [RemovePath]; [order] is Go's iteration order over [pw.paths].  A
    failing [pw.watcher.Remove] is only logged. *)
Definition removeWatched (absPath : string) (pw : PulsePointWatcher)
    (watchedPath : string) : PulsePointWatcher :=
  if HasPrefix watchedPath absPath then
    {| paths := delete watchedPath (paths pw);
       fileHashes := delete watchedPath (fileHashes pw);
       eventsChan := eventsChan pw |}
  else pw.

Definition RemovePath (pw : PulsePointWatcher) (order : list (string * bool))
    (path : string) : PulsePointWatcher * option string :=
  match Abs path with
  | inr msg => (pw, Some ("failed to get absolute path: " ++ msg))
  | inl absPath => (foldl (removeWatched absPath) pw order.*1, None)
  end.

(** [pulsePointHandleEvent], under [debounceMu]: the timer registered for
    the path is stopped (which does nothing to a timer that has fired) and
    a new one is registered in its place. *)
Definition pulsePointHandleEvent (w : Watching) (event : fsnotify.Event)
  : Watching :=
  if pulsePointShouldIgnore (ignorePatterns w) (fsnotify.Name event) then w
  else
    let stopped :=
      match debounceTimers w !! fsnotify.Name event with
      | Some timer => delete timer (armed w)
      | None => armed w
      end in
    let timer := timersMade w in
    {| watcher := watcher w; ignorePatterns := ignorePatterns w;
       debounceTimers := <[fsnotify.Name event := timer]> (debounceTimers w);
       armed := <[timer := event]> stopped;
       running := running w;
       timersMade := S timer |}.

(** The function given to [time.AfterFunc], in its two parts: the run-time
    starts it for an armed timer and it processes the event; then it takes
    [debounceMu] and deletes the entry of the event's path. *)
Definition timerFires (w : Watching) (timer : nat) (env : Firing) : Watching :=
  match armed w !! timer with
  | None => w
  | Some event =>
      {| watcher := pulsePointProcessEvent pulsePointAddRecursive (watcher w)
                      event env;
         ignorePatterns := ignorePatterns w;
         debounceTimers := debounceTimers w;
         armed := delete timer (armed w);
         running := <[timer := event]> (running w);
         timersMade := timersMade w |}
  end.

Definition timerCleansUp (w : Watching) (timer : nat) : Watching :=
  match running w !! timer with
  | None => w
  | Some event =>
      {| watcher := watcher w; ignorePatterns := ignorePatterns w;
         debounceTimers := delete (fsnotify.Name event) (debounceTimers w);
         armed := armed w;
         running := delete timer (running w);
         timersMade := timersMade w |}
  end.

End watching.

(** [NewPulsePointWatcher], as far as these fields go. *)
Definition NewWatching : Watching :=
  {| watcher := {| paths := ∅; fileHashes := ∅; eventsChan := [] |};
     ignorePatterns := [];
     debounceTimers := ∅; armed := ∅; running := ∅; timersMade := 0 |}.

(** Every timer that can still fire is the one registered for the path of
    its event; a registered timer was made earlier and, while it can still
    fire, belongs to the path it is registered for. *)
Definition tidy (w : Watching) : Prop :=
  (∀ t ev, armed w !! t = Some ev →
     debounceTimers w !! fsnotify.Name ev = Some t)
  ∧ (∀ name t, debounceTimers w !! name = Some t →
       (t < timersMade w)%nat
       ∧ ∀ ev, armed w !! t = Some ev → fsnotify.Name ev = name).

(** The last event of a burst that is for [name]. *)
Definition lastFor (name : string) (events : list fsnotify.Event)
  : option fsnotify.Event :=
  last (filter (fun ev => fsnotify.Name ev = name) events).

End local_watch.

Module local_watch_samples.
Import interfaces local local_watch.

(** A base name and a matcher for the examples: the text after the last
    slash, and patterns that match only themselves. *)
Fixpoint afterSlash (s acc : string) : string :=
  match s with
  | EmptyString => acc
  | String c s' =>
      if Ascii.eqb c (Ascii.ascii_of_nat 47) then afterSlash s' EmptyString
      else afterSlash s' (acc ++ String c EmptyString)
  end.

Definition baseName (s : string) : string := afterSlash s EmptyString.
Definition literalMatch (pattern name : string) : bool := String.eqb pattern name.
Definition absSame (path : string) : string + string := inl path.

Definition two_dirs : PulsePointWatcher :=
  {| paths := {[ "/w" := true; "/w2" := true ]};
     fileHashes := {[ "/w/a.txt" := "d41d8cd9" ]};
     eventsChan := [] |}.

Definition one_armed : Watching :=
  {| watcher := two_dirs; ignorePatterns := [];
     debounceTimers := {[ "/w/a.txt" := 0%nat ]};
     armed := {[ 0%nat := watcher_samples.written ]};
     running := ∅; timersMade := 1 |}.

End local_watch_samples.

(** ** internal/strategies: what a run leaves in the call log and in the
    result, for the statements of Part II *)
Module strategies_log.
Import interfaces pperrors strategies.

(** The paths of the [Delete] calls of a log, in order. *)
Definition deletesOf (cs : list ProviderCall) : list string :=
  omap (fun c => match c with CallDelete p => Some p | _ => None end) cs.

(** What identifies the change an error entry is about. *)
Definition errorKey (e : SyncError) : string * string :=
  (se_Path e, se_Operation e).

Definition changeKey (c : ChangeEvent) : string * string :=
  (Path c, Type_ c).

Definition isDelete (c : ChangeEvent) : bool :=
  String.eqb (Type_ c) ChangeTypeDelete.

(** The remote paths a change makes a deleting strategy delete. *)
Definition deletedBy (preserveDeleted : bool) (c : ChangeEvent) : list string :=
  if String.eqb (Type_ c) ChangeTypeDelete then
    if preserveDeleted then [] else [Path c]
  else if String.eqb (Type_ c) ChangeTypeRename then [OldPath c]
  else [].

(** The bookkeeping of a finished run over [changes] in which a change
    counts [weight] times: the counter, the error entries (each for one of
    the changes that [mayFail], in their order), and the two times. *)
Definition counted (weight : ChangeEvent → Z) (changes : list ChangeEvent) : Z :=
  foldr (fun c n => weight c + n) 0 changes.

Definition accounted (clock : nat → Z) (weight : ChangeEvent → Z)
    (mayFail : ChangeEvent → bool) (changes : list ChangeEvent)
    (r : SyncResult) : Prop :=
  FilesProcessed r = wrap64 (counted weight changes)
  ∧ errorKey <$> Errors r `sublist_of` changeKey <$> filter mayFail changes
  ∧ StartTime r = clock 0%nat
  ∧ FilesDownloaded r = 0.

(** A change that the one-way and mirror strategies try to upload. *)
Definition uploadable (config : StrategyConfig) (c : ChangeEvent) : bool :=
  (String.eqb (Type_ c) ChangeTypeCreate || String.eqb (Type_ c) ChangeTypeModify)
  && negb (exceedsLimit config c).

(** No upload of the log is larger than the configured limit. *)
Definition within_limit (config : StrategyConfig) (cs : list ProviderCall)
  : Prop :=
  ∀ f, CallUpload f ∈ cs → f_Size f ≤ MaxFileSize config.

(** The clock readings of a run that reads the clock once at the start,
    once for every error entry and once at the end. *)
Definition timed (clock : nat → Z) (r : SyncResult) : Prop :=
  se_Timestamp <$> Errors r = clock <$> seq 1%nat (length (Errors r))
  ∧ EndTime r = clock (S (length (Errors r))).

End strategies_log.

(** ** The state manager: writing, listing and resetting; the buckets of a
    database opened by [database.Manager] *)
Module statestore.
Import pperrors database bolt statemgr.

Definition NewValidationError (message : string) (err : option error) : error :=
  New "validation" message err.

(** The conversion written out in [SaveState] and in the engine's
    [loadState]: the fields that [interfaces.SyncState] does not have are
    left at their zero values. *)
Definition fromInterface (i : state.ISyncState) : state.SyncState :=
  {| state.Version := state.i_Version i; state.SchemaVersion := 0;
     state.LastSyncTime := state.i_LastSyncTime i;
     state.LastSuccessTime := state.i_LastSuccessTime i;
     state.TotalFiles := state.i_TotalFiles i;
     state.SyncedFiles := state.i_SyncedFiles i;
     state.PendingFiles := state.i_PendingFiles i;
     state.FailedFiles := state.i_FailedFiles i;
     state.TotalBytes := state.i_TotalBytes i;
     state.SyncedBytes := state.i_SyncedBytes i;
     state.CurrentOperation := state.i_CurrentOperation i;
     state.OperationProgress := 0; state.OperationStarted := 0;
     state.IsRunning := state.i_IsRunning i; state.IsPaused := false;
     state.IsInitialized := false; state.ConsecutiveErrors := 0;
     state.Errors := state.i_Errors i; state.Warnings := [] |}.

(** The conversion written out in [UpdateFileState]. *)
Definition toModelFile (f : FileState) : ModelFileState :=
  {| Path := fs_Path f; FileID := ""; RemoteID := fs_RemoteID f;
     LocalHash := fs_LocalHash f; RemoteHash := fs_RemoteHash f;
     HashAlgo := ""; LocalModTime := fs_LocalModTime f;
     RemoteModTime := fs_RemoteModTime f;
     LastSyncTime := fs_LastSyncTime f; Size := fs_Size f;
     Status := fs_Status f; LastError := fs_LastError f;
     RetryCount := fs_RetryCount f; Version := fs_Version f;
     IsFolder := false |}.

(** The [for _, bucket := range buckets] loop of [Initialize] and of
    [Manager.initBuckets]. *)
Fixpoint createAll (tx : gmap string (gmap string string))
    (names : list string) : gmap string (gmap string string) + error :=
  match names with
  | [] => inl tx
  | name :: rest =>
      match CreateBucketIfNotExists tx name with
      | inr err =>
          inr (PlainError ("failed to create bucket " ++ name ++ ": "
                           ++ Error (toError err)))
      | inl tx' => createAll tx' rest
      end
  end.

(** [Manager.initBuckets] *)
Definition managerBuckets : list string :=
  ["files"; BucketState; "history"; "queue"; "config"; "conflicts";
   BucketTransactions; "events"; "metadata"].

Definition initBuckets (db : DB) : DB * option error :=
  Update ErrDatabaseNotOpen db (fun tx => createAll tx managerBuckets).

(** The closure passed to [Update] by the writers: fail when the bucket is
    missing, otherwise [bucket.Put]. *)
Definition writeKey (bucketName missing key data : string)
    (tx : gmap string (gmap string string))
  : gmap string (gmap string string) + error :=
  match tx !! bucketName with
  | None => inr (PlainError missing)
  | Some bucket =>
      match Put bucket key data with
      | inr err => inr (toError err)
      | inl bucket' => inl (<[bucketName := bucket']> tx)
      end
  end.

Definition wrapError (message : string) (r : DB * option error)
  : DB * option error :=
  match r with
  | (db, Some err) => (db, Some (NewDatabaseError message (Some err)))
  | (db, None) => (db, None)
  end.

(** [Initialize], without the background loops it starts. *)
Definition Initialize (db : DB) : DB * option error :=
  wrapError "failed to initialize state buckets"
    (Update ErrDatabaseNotOpen db
       (fun tx => createAll tx [BucketState; BucketFileState;
                                BucketTransactions])).

Section manager.
(** [json.Marshal] of the stored types. *)
Variable marshalSyncState : state.SyncState → string + error.
Variable marshalFileState : ModelFileState → string + error.
Variable unmarshalTransaction : string → SyncTransaction + error.

(** [SaveState]; [None] is the nil pointer. *)
Definition SaveState (db : DB) (st : option state.ISyncState)
  : DB * option error :=
  match st with
  | None => (db, Some (NewValidationError "state cannot be nil" None))
  | Some i =>
      match marshalSyncState (fromInterface i) with
      | inr err =>
          (db, Some (NewDatabaseError "failed to marshal state" (Some err)))
      | inl data =>
          wrapError "failed to save state"
            (Update ErrDatabaseNotOpen db
               (writeKey BucketState "state bucket not found" "current" data))
      end
  end.

(** [UpdateFileState] *)
Definition UpdateFileState (db : DB) (file : option FileState)
  : DB * option error :=
  match file with
  | None => (db, Some (NewValidationError "invalid file state" None))
  | Some f =>
      if String.eqb (fs_Path f) "" then
        (db, Some (NewValidationError "invalid file state" None))
      else
        match marshalFileState (toModelFile f) with
        | inr err =>
            (db, Some (NewDatabaseError "failed to marshal file state"
                         (Some err)))
        | inl data =>
            wrapError "failed to update file state"
              (Update ErrDatabaseNotOpen db
                 (writeKey BucketFileState "file state bucket not found"
                    (fs_Path f) data))
        end
  end.

(** [DeleteFileState] *)
Definition DeleteFileState (db : DB) (path : string) : DB * option error :=
  wrapError "failed to delete file state"
    (Update ErrDatabaseNotOpen db
       (fun tx =>
          match tx !! BucketFileState with
          | None => inr (PlainError "file state bucket not found")
          | Some bucket => inl (<[BucketFileState := Delete bucket path]> tx)
          end)).



End manager.

(** The loop of [Reset]: every bucket is deleted, if it is there, and
    created again. *)
Fixpoint resetAll (tx : gmap string (gmap string string))
    (names : list string) : gmap string (gmap string string) + error :=
  match names with
  | [] => inl tx
  | name :: rest =>
      let deleted :=
        match DeleteBucket tx name with
        | inl tx' => inl tx'
        | inr err =>
            if decide (err = ErrBucketNotFound) then inl tx
            else inr (PlainError ("failed to delete bucket " ++ name ++ ": "
                                  ++ Error (toError err)))
        end in
      match deleted with
      | inr err => inr err
      | inl tx1 =>
          match CreateBucket tx1 name with
          | inr err =>
              inr (PlainError ("failed to recreate bucket " ++ name ++ ": "
                               ++ Error (toError err)))
          | inl tx2 => resetAll tx2 rest
          end
      end
  end.

Definition Reset (db : DB) : DB * option error :=
  wrapError "failed to reset state"
    (Update ErrDatabaseNotOpen db
       (fun tx => resetAll tx [BucketState; BucketFileState;
                               BucketTransactions])).

End statestore.

Module statestore_samples.
Import pperrors database bolt statemgr statestore.

(** A codec for the examples that stores nothing but a tag and decodes
    every tag to one fixed value. *)
Definition sample_state : state.ISyncState :=
  state.toInterface state.NewSyncState.

Definition sample_file : FileState :=
  {| fs_Path := "a.txt"; fs_LocalHash := "d41d8cd9"; fs_RemoteHash := "";
     fs_LocalModTime := 1700000000; fs_RemoteModTime := 0; fs_Size := 4;
     fs_Status := "pending"; fs_LastSyncTime := 0; fs_LastError := "";
     fs_RetryCount := 0; fs_RemoteID := ""; fs_Version := 1 |}.

Definition tagMarshal {A : Type} (_ : A) : string + error := inl "{}".
Definition tagUnmarshal {A : Type} (a : A) (_ : string) : A + error := inl a.

Definition emptyOpen : DB := {| opened := true; buckets := ∅ |}.



End statestore_samples.

(** ** The sync engine: sequences of lifecycle calls *)
Module engine_calls.
Import pperrors engine.

Inductive Call :=
| CallStart (watcherStart : option error)
| CallStop (watcherStop : option error)
| CallPause
| CallResume.

Definition call (clock : nat → Z) (e : PulsePointEngine) (c : Call)
  : PulsePointEngine * outcome :=
  match c with
  | CallStart w => Start clock e w
  | CallStop w => Stop clock e w
  | CallPause => Pause e
  | CallResume => Resume e
  end.

(** The engine after a sequence of calls, whatever they returned. *)
Definition after (clock : nat → Z) (e : PulsePointEngine) (cs : list Call)
  : PulsePointEngine :=
  foldl (fun e c => (call clock e c).1) e cs.

Definition succeeded (c : record_call) : bool :=
  match c with Succeeded _ => true | Failed => false end.

(** What a history adds to an integer total: [f] of every successful
    sync, a failure adding nothing ([recordFailure] leaves the totals). *)
Definition total (f : interfaces.SyncResult → Z) (cs : list record_call) : Z :=
  foldr (fun c acc => match c with
                      | Succeeded r => f r + acc
                      | Failed => acc
                      end) 0 cs.

End engine_calls.

Module engine_calls_samples.
Import pperrors engine engine_calls engine_samples.

Definition mixed_history : list record_call :=
  [Succeeded (syncResult 1048576 0 1000000000); Failed;
   Succeeded (syncResult 3145728 5 1000000005)].

Definition running_engine : PulsePointEngine :=
  (Start (fun n => Z.of_nat n) NewPulsePointEngine None).1.

End engine_calls_samples.

(** ** internal/watchers/ignore: gitignore-style patterns *)
Module ignore.
Import local_watch.

Record Pattern := {
  Pattern_ : string;
  IsNegation : bool;
  IsDir : bool
}.

(** [strings.HasSuffix] and [strings.TrimSuffix] *)
Fixpoint HasSuffix (s suffix : string) : bool :=
  String.eqb s suffix
  || match s with
     | EmptyString => false
     | String _ s' => HasSuffix s' suffix
     end.

Definition TrimSuffix (s suffix : string) : string :=
  if HasSuffix s suffix
  then String.substring 0 (String.length s - String.length suffix) s
  else s.

(** [pattern[1:]] *)
Definition dropFirst (s : string) : string :=
  match s with
  | EmptyString => EmptyString
  | String _ rest => rest
  end.

Definition defaultIgnores : list string :=
  [".DS_Store"; "Thumbs.db"; "desktop.ini"; ".git"; ".svn"; ".hg"; ".idea";
   ".vscode"; "node_modules"; "__pycache__"; "*.pyc"; "*.pyo"; "*.swp";
   "*.swo"; "*~"; "#*#"; ".#*"].

Section matcher.
(** [strings.TrimSpace], [filepath.ToSlash], [filepath.Base],
    [filepath.Match] (a malformed pattern matches nothing) and
    [strings.Split(path, "/")]. *)
Variable TrimSpace : string → string.
Variable ToSlash : string → string.
Variable Base : string → string.
Variable Match : string → string → bool.
Variable SplitSlash : string → list string.

(** [AddPattern] *)
Definition AddPattern (patterns : list Pattern) (pattern : string)
  : list Pattern :=
  let pattern := TrimSpace pattern in
  if String.eqb pattern "" || HasPrefix pattern "#" then patterns
  else
    let p := {| Pattern_ := pattern; IsNegation := false; IsDir := false |} in
    let p := if HasPrefix pattern "!"
             then {| Pattern_ := dropFirst pattern; IsNegation := true;
                     IsDir := IsDir p |}
             else p in
    let p := if HasSuffix (Pattern_ p) "/"
             then {| Pattern_ := TrimSuffix (Pattern_ p) "/";
                     IsNegation := IsNegation p; IsDir := true |}
             else p in
    (patterns ++ [p])%list.

(** [pulsePointMatches] *)
Definition pulsePointMatches (path pattern : string) : bool :=
  let pattern := ToSlash pattern in
  if (Contains pattern "*" || Contains pattern "?")
     && (Match pattern (Base path) || Match pattern path)
  then true
  else if Contains path pattern then true
  else if String.eqb (Base path) pattern then true
  else existsb (fun part => String.eqb part pattern || Match pattern part)
         (SplitSlash path).

(** [pulsePointIsDefaultIgnored] *)
Definition pulsePointIsDefaultIgnored (name : string) : bool :=
  if existsb (fun pattern => Match pattern name) defaultIgnores then true
  else HasPrefix name "." && HasSuffix name ".tmp".

(** The body of the loop of [ShouldIgnore]. *)
Definition decide_ (path : string) (isDir ignored : bool) (pattern : Pattern)
  : bool :=
  if IsDir pattern && negb isDir then ignored
  else if pulsePointMatches path (Pattern_ pattern) then
    if IsNegation pattern then false else true
  else ignored.

(** [ShouldIgnore] *)
Definition ShouldIgnore (patterns : list Pattern) (path : string)
    (isDir : bool) : bool :=
  let path := ToSlash path in
  let base := Base path in
  if pulsePointIsDefaultIgnored base then true
  else foldl (decide_ path isDir) false patterns.

(** A pattern that applies to the path and matches it. *)
Definition hits (path : string) (isDir : bool) (pattern : Pattern) : bool :=
  negb (IsDir pattern && negb isDir)
  && pulsePointMatches path (Pattern_ pattern).

End matcher.

End ignore.

(** ** internal/providers/mock: the in-memory provider *)
Module mock.
Import interfaces pperrors strategies bolt.

(** [MockDriveProvider]: file contents by path, folders, and the byte
    counter that [GetQuota] reports as used. *)
Record MockDriveProvider := {
  files : gmap string string;
  folders : gmap string bool;
  quota : Z;
  used : Z
}.

Definition NewMockDriveProvider : MockDriveProvider :=
  {| files := ∅; folders := ∅; quota := 10 * 1024 * 1024 * 1024; used := 0 |}.

(** Where [Upload] takes the content from: [file.Content] when it is not
    nil, else [file.LocalPath] when it is not empty, with what reading it
    gives; or neither. *)
Inductive Source :=
| FromContent (read : string + error)
| FromLocalPath (read : string + error)
| NoSource.

Section provider.
(** [filepath.Dir], [filepath.Base]; what [List] collects, in Go's map
    order. *)
Variable Dir : string → string.
Variable Base : string → string.
Variable listing : MockDriveProvider → string → list File.

(** The loop that registers the parent directories, for at most [fuel]
    rounds. *)
Fixpoint addParents (fuel : nat) (dir : string) (fs : gmap string bool)
  : gmap string bool :=
  match fuel with
  | O => fs
  | S n =>
      if String.eqb dir "/" || String.eqb dir "." then fs
      else addParents n (Dir dir) (<[dir := true]> fs)
  end.

Definition store (m : MockDriveProvider) (remotePath content : string)
  : MockDriveProvider :=
  {| files := <[remotePath := content]> (files m);
     folders := addParents (S (String.length remotePath)) (Dir remotePath)
                  (folders m);
     quota := quota m;
     used := add64 (used m) (strlen content) |}.

(** [Upload] *)
Definition Upload (m : MockDriveProvider) (remotePath : string)
    (source : Source) : MockDriveProvider * option error :=
  match source with
  | FromContent (inl content) => (store m remotePath content, None)
  | FromContent (inr err) =>
      (m, Some (PlainError ("failed to read content: " ++ Error err)))
  | FromLocalPath (inl content) => (store m remotePath content, None)
  | FromLocalPath (inr err) =>
      (m, Some (PlainError ("failed to read local file: " ++ Error err)))
  | NoSource => (m, Some (PlainError "no content or local path provided"))
  end.

(** [Delete] *)
Definition Delete (m : MockDriveProvider) (path : string)
  : MockDriveProvider * option error :=
  match files m !! path with
  | Some content =>
      ({| files := delete path (files m); folders := folders m;
          quota := quota m;
          used := wrap64 (used m - strlen content) |}, None)
  | None =>
      match folders m !! path with
      | Some _ =>
          ({| files := files m; folders := delete path (folders m);
              quota := quota m; used := used m |}, None)
      | None => (m, Some (PlainError ("path not found: " ++ path)))
      end
  end.

(** [GetMetadata] *)
Definition GetMetadata (m : MockDriveProvider) (path : string)
  : option Metadata * option error :=
  match files m !! path with
  | Some content =>
      (Some {| m_Path := path; m_Size := strlen content;
               m_Hash := "mock-hash-" ++ Base path; m_IsFolder := false |},
       None)
  | None =>
      match folders m !! path with
      | Some _ =>
          (Some {| m_Path := path; m_Size := 0; m_Hash := "";
                   m_IsFolder := true |}, None)
      | None => (None, Some (PlainError ("path not found: " ++ path)))
      end
  end.

(** The mock behind the strategies.  The files the strategies build carry
    neither [Content] nor [LocalPath]. *)
Definition asProvider : CloudProvider MockDriveProvider :=
  {| strategies.Upload := fun m file => Upload m (f_Path file) NoSource;
     strategies.Delete := Delete;
     strategies.List := fun m folder => (m, (listing m folder, None));
     strategies.GetMetadata := fun m path => (m, GetMetadata m path) |}.

End provider.

(** The bytes the mock holds. *)
Definition stored (m : MockDriveProvider) : Z :=
  map_fold (fun _ content n => strlen content + n) 0 (files m).

(** A successful upload or a deletion. *)
Inductive Op :=
| OpUpload (path content : string)
| OpDelete (path : string).

Definition apply (Dir : string → string) (m : MockDriveProvider) (op : Op)
  : MockDriveProvider :=
  match op with
  | OpUpload path content => (Upload Dir m path (FromContent (inl content))).1
  | OpDelete path => (Delete m path).1
  end.

(** The bytes an operation drops from the store without a [Delete]. *)
Definition replaced (m : MockDriveProvider) (op : Op) : Z :=
  match op with
  | OpUpload path _ => default 0 (strlen <$> files m !! path)
  | OpDelete _ => 0
  end.

Fixpoint replacedBy (Dir : string → string) (m : MockDriveProvider)
    (ops : list Op) : Z :=
  match ops with
  | [] => 0
  | op :: rest => replaced m op + replacedBy Dir (apply Dir m op) rest
  end.

End mock.

(** ** The sync pipeline (package sync): phases with retries *)
Module pipeline.
Import interfaces pperrors.

(** [models.File], with what the pipeline reads of it. *)
Record File := {
  pf_Path : string;
  pf_Hash : string;
  pf_ModifiedTime : Z;
  pf_Size : Z
}.

Section pipeline.
(** The type of the free-form metadata and of the file states; [stateOf]
    is [models.NewFileState(file.Path)] after [UpdateLocalInfo]. *)
Variables Meta FileState : Type.
Variable stateOf : File → FileState.
(** [%d] of [fmt.Sprintf]. *)
Variable itoa : Z → string.

Record PipelineInput := {
  Changes : list ChangeEvent;
  FileStates : gmap string FileState;
  in_Metadata : Meta
}.

Record PipelineOutput := {
  ProcessedFiles : list File;
  FailedFiles : list File;
  out_Conflicts : list Conflict;
  out_BytesTransferred : Z;
  out_Metadata : Meta
}.

(** A [PipelinePhase]; [Execute n] is what the n-th call of [Execute] on
    this phase returns in the run at hand. *)
Record PipelinePhase := {
  Name : string;
  Validate : PipelineInput → option error;
  Execute_ : nat → PipelineInput → option PipelineOutput * option error
}.

Record PipelineConfig := {
  MaxRetries : Z;
  EnableValidation : bool
}.

(** How [Execute] ends: a result, an error, or the nil dereference of
    [output.ProcessedFiles]. *)
Inductive Outcome :=
| Ok (result : SyncResult)
| Err (err : error)
| NilDereference.

(** The loop [for retry := 0; retry <= MaxRetries; retry++] with [rounds]
    iterations left; [output] and [err] are the variables it assigns,
    [trace] the calls of [Execute] made so far. *)
Fixpoint retryLoop (rounds retry : nat) (phase : PipelinePhase)
    (input : PipelineInput) (output : option PipelineOutput)
    (err : option error) (trace : list (string * nat))
  : option PipelineOutput * option error * list (string * nat) :=
  match rounds with
  | O => (output, err, trace)
  | S rounds' =>
      let '(output', err') := Execute_ phase retry input in
      let trace' := (trace ++ [(Name phase, retry)])%list in
      match err' with
      | None => (output', None, trace')
      | Some _ => retryLoop rounds' (S retry) phase input output' err' trace'
      end
  end.

(** [input.FileStates[file.Path] = state] for the processed files. *)
Definition addStates (states : gmap string FileState) (processed : list File)
  : gmap string FileState :=
  foldl (fun states file => <[pf_Path file := stateOf file]> states)
    states processed.

Definition nextInput (input : PipelineInput) (output : option PipelineOutput)
  : PipelineInput :=
  match output with
  | None => input
  | Some o =>
      {| Changes := Changes input;
         FileStates := addStates (FileStates input) (ProcessedFiles o);
         in_Metadata := out_Metadata o |}
  end.

(** The loop over the phases; [output] is declared before it. *)
Fixpoint runPhases (config : PipelineConfig) (phases : list PipelinePhase)
    (input : PipelineInput) (output : option PipelineOutput)
    (trace : list (string * nat))
  : (option PipelineOutput + error) * list (string * nat) :=
  match phases with
  | [] => (inl output, trace)
  | phase :: rest =>
      match (if EnableValidation config then Validate phase input else None) with
      | Some err =>
          (inr (NewSyncError ("validation failed for phase " ++ Name phase)
                  (Some err)), trace)
      | None =>
          let '(output', err, trace') :=
            retryLoop (Z.to_nat (MaxRetries config + 1)) 0 phase input output
              None trace in
          match err with
          | Some e =>
              (inr (NewSyncError
                      ("phase " ++ Name phase ++ " failed after "
                       ++ itoa (MaxRetries config) ++ " retries")
                      (Some e)), trace')
          | None => runPhases config rest (nextInput input output') output' trace'
          end
      end
  end.

(** The result built from the last output. *)
Definition resultOf (startTime endTime : Z) (output : PipelineOutput)
  : SyncResult :=
  {| StartTime := startTime; EndTime := endTime;
     FilesProcessed := Z.of_nat (length (ProcessedFiles output));
     FilesUploaded := 0; FilesDownloaded := 0; FilesDeleted := 0;
     FilesSkipped := Z.of_nat (length (FailedFiles output));
     BytesTransferred := out_BytesTransferred output;
     Errors := []; Conflicts := out_Conflicts output;
     Success := (length (FailedFiles output) =? 0)%nat
                && (length (out_Conflicts output) =? 0)%nat |}.

(** [Execute]; the pipeline starts from no changes ([changes] is an empty
    placeholder in the source).  The fields it finally sets on the
    transaction are left out. *)
Definition Execute (config : PipelineConfig) (phases : list PipelinePhase)
    (meta0 : Meta) (startTime endTime : Z)
  : Outcome * list (string * nat) :=
  let input := {| Changes := []; FileStates := ∅; in_Metadata := meta0 |} in
  match runPhases config phases input None [] with
  | (inr err, trace) => (Err err, trace)
  | (inl None, trace) => (NilDereference, trace)
  | (inl (Some output), trace) => (Ok (resultOf startTime endTime output), trace)
  end.

End pipeline.

Arguments Changes {Meta FileState}.
Arguments FileStates {Meta FileState}.
Arguments in_Metadata {Meta FileState}.
Arguments ProcessedFiles {Meta}.
Arguments FailedFiles {Meta}.
Arguments out_Conflicts {Meta}.
Arguments out_BytesTransferred {Meta}.
Arguments out_Metadata {Meta}.
Arguments Name {Meta FileState}.
Arguments Validate {Meta FileState}.
Arguments Execute_ {Meta FileState}.
Arguments retryLoop {Meta FileState}.
Arguments addStates {FileState}.
Arguments nextInput {Meta FileState}.
Arguments runPhases {Meta FileState}.
Arguments resultOf {Meta}.
Arguments Execute {Meta FileState}.

End pipeline.

(** ** internal/watchers/local: the steps of a debounce callback *)
Module local_steps.
Import interfaces local.

(** [pulsePointProcessEvent] is not one critical section.  It takes
    [hashMu] twice, as a read lock around the cache lookup and, after
    releasing it, as a write lock around the cache update; it takes
    [pathsMu] around [pulsePointAddRecursive]; and it ends with the
    [select] that sends.  Timer callbacks run in goroutines of their
    own, so another callback can run between any two of these.  A
    callback is the point it has reached:
    - [Fired]: the timer has fired and nothing is done yet;
    - [Checked]: the cache lookup is over and did not end the callback;
      [write] is the hash that the cache update is going to store
      ([None] when no hash was computed);
    - [Cached]: the cache update is over;
    - [Sending]: the callback is at the final [select];
    - [Returned]. *)
Inductive Callback :=
| Fired (event : fsnotify.Event) (env : Firing)
| Checked (name : string) (changeType : ChangeType) (write : option string)
    (changeEvent : ChangeEvent) (cancelled : bool)
| Cached (name : string) (changeType : ChangeType)
    (changeEvent : ChangeEvent) (cancelled : bool)
| Sending (changeEvent : ChangeEvent) (cancelled : bool)
| Returned.

Section steps.
Variable pulsePointAddRecursive :
  string → gmap string bool * gmap string string
         → gmap string bool * gmap string string.

(** The [if info != nil { ... }] block up to the end of the read lock:
    [None] is the early [return], otherwise the hash still to be stored
    and the event.  Only [hashes], the cache as it is during the read
    lock, is read of the watcher. *)
Definition checkBlock (hashes : gmap string string) (name : string)
    (changeType : ChangeType) (env : Firing) (changeEvent : ChangeEvent)
  : option (option string * ChangeEvent) :=
  match stat env with
  | None => Some (None, changeEvent)
  | Some info =>
      let ce := {| Type_ := Type_ changeEvent; Path := Path changeEvent;
                   OldPath := OldPath changeEvent;
                   Timestamp := Timestamp changeEvent;
                   Size := fi_Size info; Hash := Hash changeEvent;
                   IsDir := fi_IsDir info |} in
      if negb (fi_IsDir info) && negb (String.eqb changeType ChangeTypeDelete) then
        match hash env with
        | None => Some (None, ce)
        | Some h =>
            let ce' := {| Type_ := Type_ ce; Path := Path ce;
                          OldPath := OldPath ce; Timestamp := Timestamp ce;
                          Size := Size ce; Hash := h; IsDir := IsDir ce |} in
            if String.eqb changeType ChangeTypeModify
               && match hashes !! name with
                  | Some oldHash => String.eqb oldHash h
                  | None => false
                  end
            then None
            else Some (Some h, ce')
        end
      else Some (None, ce)
  end.

(** One step of a callback on the watcher as it is at that moment.
    Mapping the type, [os.Stat], the clock and the hashing touch no
    field of the watcher and are part of the first step. *)
Definition step (pw : PulsePointWatcher) (cb : Callback)
  : PulsePointWatcher * Callback :=
  match cb with
  | Fired event env =>
      let changeType := pulsePointMapEventType (fsnotify.Op event) in
      if String.eqb changeType ChangeTypeUnknown then (pw, Returned)
      else
        let changeEvent :=
          {| Type_ := changeType; Path := fsnotify.Name event; OldPath := "";
             Timestamp := now env; Size := 0; Hash := ""; IsDir := false |} in
        match checkBlock (fileHashes pw) (fsnotify.Name event) changeType env
                changeEvent with
        | None => (pw, Returned)
        | Some (write, ce) =>
            (pw, Checked (fsnotify.Name event) changeType write ce (ctxDone env))
        end
  | Checked name changeType write ce cancelled =>
      (match write with
       | Some h => {| paths := paths pw;
                      fileHashes := <[name := h]> (fileHashes pw);
                      eventsChan := eventsChan pw |}
       | None => pw
       end, Cached name changeType ce cancelled)
  | Cached name changeType ce cancelled =>
      (if IsDir ce && String.eqb changeType ChangeTypeCreate then
         let '(paths', hashes') :=
           pulsePointAddRecursive name (paths pw, fileHashes pw) in
         {| paths := paths'; fileHashes := hashes';
            eventsChan := eventsChan pw |}
       else pw, Sending ce cancelled)
  | Sending ce cancelled =>
      ({| paths := paths pw; fileHashes := fileHashes pw;
          eventsChan := if cancelled then eventsChan pw
                        else (eventsChan pw ++ [ce])%list |}, Returned)
  | Returned => (pw, Returned)
  end.

(** The watcher and the callbacks in flight; the scheduler picks which
    callback takes its next step. *)
Definition stepAt (i : nat) (st : PulsePointWatcher * list Callback)
  : PulsePointWatcher * list Callback :=
  match st.2 !! i with
  | None => st
  | Some cb => let '(pw', cb') := step st.1 cb in (pw', <[i := cb']> st.2)
  end.

Definition run (schedule : list nat) (st : PulsePointWatcher * list Callback)
  : PulsePointWatcher * list Callback :=
  foldl (fun st i => stepAt i st) st schedule.

End steps.
End local_steps.

Module local_steps_samples.
Import interfaces local local_steps local_samples watcher_samples.

(** The Modify that a callback for [written] sends. *)
Definition modified (h : string) (t : Z) : ChangeEvent :=
  {| Type_ := ChangeTypeModify; Path := "/w/a.txt"; OldPath := "";
     Timestamp := t; Size := 4; Hash := h; IsDir := false |}.

(** Two callbacks for one path, as two timers of a burst start them
    (the second timer is armed after the first has fired), both hashing
    the file to the same new content. *)
Definition racing : PulsePointWatcher * list Callback :=
  (sample_watcher,
   [Fired written (file_firing "9e107d9d" 10);
    Fired written (file_firing "9e107d9d" 11)]).

End local_steps_samples.

Module pipeline_samples.
Import interfaces pperrors pipeline.

Definition fileA : File :=
  {| pf_Path := "a.txt"; pf_Hash := "d41d8cd9"; pf_ModifiedTime := 1;
     pf_Size := 4 |}.
Definition fileB : File :=
  {| pf_Path := "b.txt"; pf_Hash := "9e107d9d"; pf_ModifiedTime := 2;
     pf_Size := 8 |}.

Definition outputOf (processed failed : list File) : PipelineOutput unit :=
  {| ProcessedFiles := processed; FailedFiles := failed;
     out_Conflicts := []; out_BytesTransferred := 12; out_Metadata := tt |}.

(** A phase that returns [o] at every attempt, and one whose first
    attempt fails. *)
Definition steady (name : string) (o : PipelineOutput unit)
  : PipelinePhase unit unit :=
  {| Name := name; Validate := fun _ => None;
     Execute_ := fun _ _ => (Some o, None) |}.

Definition flaky (name : string) (o : PipelineOutput unit)
  : PipelinePhase unit unit :=
  {| Name := name; Validate := fun _ => None;
     Execute_ := fun n _ =>
       match n with
       | O => (None, Some (PlainError "busy"))
       | S _ => (Some o, None)
       end |}.

Definition twoPhases : list (PipelinePhase unit unit) :=
  [steady "collect" (outputOf [fileA] [fileB]);
   flaky "execute" (outputOf [fileA; fileB] [])].

Definition threeRetries : PipelineConfig :=
  {| MaxRetries := 3; EnableValidation := true |}.

End pipeline_samples.

(* ===================================================================== *)
(** * Part II: properties *)
(* ===================================================================== *)

Module queue_props.
Import models queue queue_samples.

Lemma shouldReplace_table old new :
  (if pulsePointShouldReplace old new then new else old) = dedup_table old new.
Proof.
  unfold pulsePointShouldReplace, dedup_table, newer, After.
  destruct (String.eqb_spec (Type_ new) ChangeTypeDelete) as [Hd|Hd].
  { rewrite decide_True by done. done. }
  rewrite decide_False by done.
  destruct (String.eqb_spec (Type_ old) ChangeTypeCreate) as [Hc|Hc];
    destruct (String.eqb_spec (Type_ new) ChangeTypeModify) as [Hm|Hm];
    destruct (String.eqb_spec (Type_ old) ChangeTypeModify) as [Hom|Hom];
    simpl;
    repeat (first [rewrite decide_True by (split; done)
                  |rewrite decide_False by (intros [? ?]; congruence)]);
    try done.
Qed.


(** *** Elementary facts about [Add] *)

Lemma set_items_id q : set_items q (items q) = q.
Proof. by destruct q. Qed.

Lemma Add_processingItems q e : processingItems (Add q e).1 = processingItems q.
Proof.
  unfold Add. repeat case_match; done.
Qed.

Lemma Add_limits q e :
  maxSize (Add q e).1 = maxSize q ∧ batchSize (Add q e).1 = batchSize q.
Proof. unfold Add. repeat case_match; done. Qed.

Lemma Add_at_capacity q e :
  maxSize q <= Z.of_nat (size (items q)) →
  Add q e = (q, Some (ErrAtCapacity (maxSize q))).
Proof.
  intros H. unfold Add. by rewrite (proj2 (Z.leb_le _ _) H).
Qed.

Lemma Add_while_processing q e :
  Z.of_nat (size (items q)) < maxSize q →
  isProcessing q (Path e) = true →
  Add q e = (q, None).
Proof.
  intros H Hp. unfold Add.
  rewrite (proj2 (Z.leb_gt _ _) H), Hp. done.
Qed.

Lemma Add_fresh q e :
  Z.of_nat (size (items q)) < maxSize q →
  isProcessing q (Path e) = false →
  items q !! Path e = None →
  Add q e = (set_items q (<[Path e := e]> (items q)), None).
Proof.
  intros H Hp Hn. unfold Add.
  by rewrite (proj2 (Z.leb_gt _ _) H), Hp, Hn.
Qed.

Lemma Add_existing q e old :
  Z.of_nat (size (items q)) < maxSize q →
  isProcessing q (Path e) = false →
  items q !! Path e = Some old →
  Add q e = (set_items q (<[Path e := dedup_table old e]> (items q)), None).
Proof.
  intros H Hp Hs. unfold Add.
  rewrite (proj2 (Z.leb_gt _ _) H), Hp, Hs.
  rewrite <- shouldReplace_table.
  destruct (pulsePointShouldReplace old e); [done|].
  rewrite (insert_id (items q) (Path e) old Hs). by rewrite set_items_id.
Qed.

(** A path that is being processed is never touched by [Add]. *)
Lemma Add_lookup_processing q e p :
  isProcessing q p = true → items (Add q e).1 !! p = items q !! p.
Proof.
  intros Hp. unfold Add.
  destruct (maxSize q <=? Z.of_nat (size (items q))); [done|].
  destruct (isProcessing q (Path e)) eqn:He; [done|].
  assert (Path e ≠ p) by (intros Heq; rewrite Heq in He; congruence).
  repeat case_match; simpl; try done; by rewrite lookup_insert_ne.
Qed.

Lemma AddAll_processingItems es : ∀ q,
  processingItems (AddAll q es) = processingItems q.
Proof.
  induction es as [|e es IH]; intros q; [done|].
  unfold AddAll in *. simpl. by rewrite IH, Add_processingItems.
Qed.

Lemma AddAll_lookup_processing es : ∀ q p,
  isProcessing q p = true → items (AddAll q es) !! p = items q !! p.
Proof.
  induction es as [|e es IH]; intros q p Hp; [done|].
  unfold AddAll in *. simpl. rewrite IH.
  - by apply Add_lookup_processing.
  - unfold isProcessing in *. by rewrite Add_processingItems.
Qed.

(** *** The three critical sections of [pulsePointProcessBatch] *)

Lemma markProcessing_items ps : ∀ q p,
  items (markProcessing q ps) !! p =
    if decide (p ∈ ps) then None else items q !! p.
Proof.
  induction ps as [|a ps IH]; intros q p.
  - unfold markProcessing. cbn [foldl].
    destruct (decide (p ∈ [])) as [H|H]; [by apply elem_of_nil in H|done].
  - unfold markProcessing in *. cbn [foldl]. rewrite IH. cbn [items set_items].
    destruct (decide (p ∈ ps)) as [Hin|Hin];
      destruct (decide (p ∈ a :: ps)) as [Hin'|Hin']; try done.
    + exfalso. apply Hin'. by right.
    + apply elem_of_cons in Hin' as [->|?]; [|done].
      by rewrite lookup_delete_eq.
    + rewrite lookup_delete_ne; [done|].
      intros ->. apply Hin'. by left.
Qed.

Lemma markProcessing_processing ps : ∀ q p,
  p ∈ ps → isProcessing (markProcessing q ps) p = true.
Proof.
  assert (Hkeep : ∀ ps q p, isProcessing q p = true →
                  isProcessing (markProcessing q ps) p = true).
  { clear. induction ps as [|a ps IH]; intros q p Hp; [done|].
    unfold markProcessing in *. simpl. apply IH.
    unfold isProcessing in *. simpl.
    destruct (decide (a = p)) as [->|Hne].
    - by rewrite lookup_insert_eq.
    - by rewrite lookup_insert_ne. }
  induction ps as [|a ps IH]; intros q p Hin.
  - by apply elem_of_nil in Hin.
  - apply elem_of_cons in Hin as [->|Hin].
    + unfold markProcessing. simpl. apply Hkeep.
      unfold isProcessing. simpl. by rewrite lookup_insert_eq.
    + unfold markProcessing in *. simpl. by apply IH.
Qed.

Lemma reinsert_processingItems batch : ∀ q,
  processingItems (reinsert q batch) = processingItems q.
Proof.
  induction batch as [|a b IH]; intros q; [done|].
  unfold reinsert in *. simpl. by rewrite IH.
Qed.

Lemma reinsert_lookup_other batch : ∀ q p,
  p ∉ batch.*1 → items (reinsert q batch) !! p = items q !! p.
Proof.
  induction batch as [|[a e] b IH]; intros q p Hn; [done|].
  unfold reinsert in *. simpl in *.
  apply not_elem_of_cons in Hn as [Hne Hn].
  rewrite IH by done. simpl. by rewrite lookup_insert_ne.
Qed.

Lemma reinsert_lookup batch : ∀ q p e,
  NoDup batch.*1 → (p, e) ∈ batch → items (reinsert q batch) !! p = Some e.
Proof.
  induction batch as [|[a e'] b IH]; intros q p e Hnd Hin.
  - by apply elem_of_nil in Hin.
  - simpl in Hnd. apply NoDup_cons in Hnd as [Hna Hnd].
    apply elem_of_cons in Hin as [Heq|Hin].
    + injection Heq as -> ->.
      unfold reinsert. simpl. fold (reinsert (set_items q (<[a:=e']> (items q))) b).
      rewrite reinsert_lookup_other by done. simpl. by rewrite lookup_insert_eq.
    + unfold reinsert in *. simpl. by apply IH.
Qed.

Lemma unmarkProcessing_items ps : ∀ q, items (unmarkProcessing q ps) = items q.
Proof.
  induction ps as [|a ps IH]; intros q; [done|].
  unfold unmarkProcessing in *. simpl. by rewrite IH.
Qed.

Lemma unmarkProcessing_processing ps : ∀ q p,
  p ∈ ps → processingItems (unmarkProcessing q ps) !! p = None.
Proof.
  assert (Hkeep : ∀ ps q p, processingItems q !! p = None →
                  processingItems (unmarkProcessing q ps) !! p = None).
  { clear. induction ps as [|a ps IH]; intros q p Hp; [done|].
    unfold unmarkProcessing in *. simpl. apply IH. simpl.
    destruct (decide (a = p)) as [->|Hne].
    - by rewrite lookup_delete_eq.
    - by rewrite lookup_delete_ne. }
  induction ps as [|a ps IH]; intros q p Hin.
  - by apply elem_of_nil in Hin.
  - apply elem_of_cons in Hin as [->|Hin].
    + unfold unmarkProcessing. simpl. apply Hkeep. simpl.
      by rewrite lookup_delete_eq.
    + unfold unmarkProcessing in *. simpl. by apply IH.
Qed.

(** Go's iteration over [q.items] visits every key once. *)
Lemma selectBatch_NoDup q order :
  order ≡ₚ map_to_list (items q) → NoDup (selectBatch q order).*1.
Proof.
  intros Hperm. unfold selectBatch.
  assert (Hnd : NoDup order.*1).
  { rewrite Hperm. apply NoDup_fst_map_to_list. }
  rewrite fmap_take. eapply sublist_NoDup; [exact Hnd|apply sublist_take].
Qed.


(** *** Deduplication on [Add] *)

(** C1 (as stated) fails at capacity: with [maxSize = 1] and a Create
    pending for a.txt, adding a Delete for a.txt is rejected with the
    over-capacity error and the Create stays pending, although the table
    says the Delete replaces it. *)
Lemma Add_dedup_full_queue_keeps_old :
  let q := mkQueue [("a.txt", sample_create)] 1 100 in
  items q !! Path sample_delete = Some sample_create
  ∧ dedup_table sample_create sample_delete = sample_delete
  ∧ (Add q sample_delete).2 = Some (ErrAtCapacity 1)
  ∧ items (Add q sample_delete).1 !! Path sample_delete
      ≠ Some (dedup_table sample_create sample_delete).
Proof. vm_compute. repeat split; try done. Qed.

(** C1 (amended): when [new] arrives for the path of a pending [old],
    [Add] leaves exactly one pending event for that path.  If the queue is
    below [maxSize] and the path is not being processed, that event is the
    one the deduplication table picks (Delete wins; Create then Modify
    keeps the Create; otherwise the strictly newer timestamp wins, ties
    keep [old]) and nothing else changes.  At capacity [Add] fails and
    [old] stays; for a path being processed the event is skipped and
    [old] stays. *)
Theorem Add_dedup (q : PulsePointChangeQueue) (new old : ChangeEvent) :
  items q !! Path new = Some old →
  (Z.of_nat (size (items q)) < maxSize q →
   isProcessing q (Path new) = false →
     Add q new =
       (set_items q (<[Path new := dedup_table old new]> (items q)), None)
     ∧ items (Add q new).1 !! Path new = Some (dedup_table old new)
     ∧ (∀ p, p ≠ Path new → items (Add q new).1 !! p = items q !! p)
     ∧ size (items (Add q new).1) = size (items q))
  ∧ (maxSize q <= Z.of_nat (size (items q)) →
     Add q new = (q, Some (ErrAtCapacity (maxSize q))))
  ∧ (Z.of_nat (size (items q)) < maxSize q →
     isProcessing q (Path new) = true →
     Add q new = (q, None))
  ∧ (∃ e, items (Add q new).1 !! Path new = Some e
          ∧ (e = old ∨ e = new)).
Proof.
  intros Hold. split; [|split; [|split]].
  - intros Hcap Hproc. rewrite (Add_existing q new old) by done.
    cbn [fst items set_items]. split; [done|]. split; [|split].
    + by rewrite lookup_insert_eq.
    + intros p Hp. by rewrite lookup_insert_ne.
    + assert (Hdom : dom (<[Path new := dedup_table old new]> (items q))
                     = dom (items q)).
      { rewrite dom_insert_L. apply elem_of_dom_2 in Hold.
        apply subseteq_union_1_L. by apply singleton_subseteq_l. }
      by rewrite <- !size_dom, Hdom.
  - apply Add_at_capacity.
  - apply Add_while_processing.
  - destruct (Z_lt_le_dec (Z.of_nat (size (items q))) (maxSize q)) as [Hlt|Hge].
    + destruct (isProcessing q (Path new)) eqn:Hp.
      * rewrite Add_while_processing by done. eauto.
      * rewrite (Add_existing q new old) by done.
        cbn [fst items set_items]. rewrite lookup_insert_eq.
        eexists; split; [done|].
        rewrite <- shouldReplace_table.
        destruct (pulsePointShouldReplace old new); auto.
    + rewrite Add_at_capacity by done. eauto.
Qed.

Lemma Add_dedup_witness :
  let q := mkQueue [("a.txt", sample_create)] 10000 100 in
  ∃ e, items (Add q sample_modify).1 !! Path sample_modify = Some e
       ∧ (e = sample_create ∨ e = sample_modify).
Proof.
  intros q.
  refine (proj2 (proj2 (proj2 (Add_dedup q sample_modify sample_create _)))).
  vm_compute. reflexivity.
Defined.

(** What [Add] does with a Delete arriving for a pending event. *)
Lemma Add_delete_replaces q d old :
  Type_ d = ChangeTypeDelete →
  items q !! Path d = Some old →
  Z.of_nat (size (items q)) < maxSize q →
  isProcessing q (Path d) = false →
  items (Add q d).1 !! Path d = Some d.
Proof.
  intros Hd Hold Hcap Hp.
  rewrite (Add_existing q d old) by done.
  cbn [fst items set_items]. rewrite lookup_insert_eq.
  unfold dedup_table. by rewrite decide_True.
Qed.

(** C2: a Create pending for b.txt followed by a Delete for b.txt.  The
    Delete replaces the Create and stays pending: one event remains for
    the path, the pair is not removed. *)
Theorem Add_create_then_delete_leaves_delete :
  let create := mkEvent ChangeTypeCreate "b.txt" 1 in
  let delete := mkEvent ChangeTypeDelete "b.txt" 2 in
  let q := fst (Add (mkQueue [] 10000 100) create) in
  pulsePointShouldReplace create delete = true
  ∧ Add q delete = (set_items q {[ "b.txt" := delete ]}, None)
  ∧ items (Add q delete).1 !! "b.txt" = Some delete
  ∧ GetPendingCount (Add q delete).1 = 1.
Proof. vm_compute. repeat split; done. Qed.

(** *** Failed batches *)

(** C7 (as stated) fails: a Create for a.txt is taken into a batch; while
    the callback runs a Delete for a.txt is added ([Add] returns no
    error); the callback fails.  The Create is pending again and the
    Delete is gone, although the table makes the Delete win. *)
Lemma failed_batch_ignores_dedup_table :
  let q := mkQueue [("a.txt", sample_create)] 10000 100 in
  let order := [("a.txt", sample_create)] in
  let q1 := markProcessing q (selectBatch q order).*1 in
  let q' := pulsePointProcessBatch q order (Some always_fail) [sample_delete] [] in
  (Add q1 sample_delete).2 = None
  ∧ dedup_table sample_create sample_delete = sample_delete
  ∧ items q' !! "a.txt" = Some sample_create
  ∧ items q' !! "a.txt" ≠ Some (dedup_table sample_create sample_delete).
Proof. vm_compute. repeat split; done. Qed.

(** C7 (amended): when the callback fails on a batch, every event of the
    batch is pending again under its path, whatever was added meanwhile
    (no partial-success accounting).  Events added for a batch path while
    the batch is processed are skipped by [Add]: no batch path is pending
    at reinsertion time, so the reinsertion overwrites nothing and the
    table is never consulted for them.  Other paths are left to [Add]
    alone, and the batch paths leave the processing set. *)
Theorem failed_batch_reinserted (q : PulsePointChangeQueue)
    (order : list (string * ChangeEvent))
    (f : list ChangeEvent → option string)
    (during window : list ChangeEvent) (err : string) :
  order ≡ₚ map_to_list (items q) →
  items q ≠ ∅ →
  f (selectBatch q order).*2 = Some err →
  let batch := selectBatch q order in
  let q2 := AddAll (markProcessing q batch.*1) during in
  let q' := pulsePointProcessBatch q order (Some f) during window in
  (∀ p e, (p, e) ∈ batch → items q' !! p = Some e)
  ∧ (∀ p, p ∈ batch.*1 → items q2 !! p = None)
  ∧ (∀ p, p ∉ batch.*1 →
       items (pulsePointProcessBatch q order (Some f) during []) !! p
       = items q2 !! p)
  ∧ (∀ p, p ∈ batch.*1 → processingItems q' !! p = None).
Proof.
  intros Hperm Hne Hf batch q2 q'.
  assert (Hsz : Nat.eqb (size (items q)) 0 = false).
  { apply Nat.eqb_neq. intros H0. by apply map_size_empty_inv in H0. }
  assert (Hnd : NoDup batch.*1) by by apply selectBatch_NoDup.
  assert (Hproc2 : ∀ p, p ∈ batch.*1 → isProcessing q2 p = true).
  { intros p Hp. unfold isProcessing, q2. rewrite AddAll_processingItems.
    by apply markProcessing_processing. }
  assert (Hnone : ∀ p, p ∈ batch.*1 → items q2 !! p = None).
  { intros p Hp. unfold q2. rewrite AddAll_lookup_processing.
    - rewrite markProcessing_items. by rewrite decide_True.
    - by apply markProcessing_processing. }
  assert (Hrun : ∀ w, pulsePointProcessBatch q order (Some f) during w
                 = unmarkProcessing (AddAll (if Nat.ltb 0 (length batch)
                                             then reinsert q2 batch else q2) w)
                                    batch.*1).
  { intros w. unfold pulsePointProcessBatch, q2, batch. rewrite Hsz.
    cbv zeta. by rewrite Hf. }
  split; [|split; [exact Hnone|split]].
  - intros p e Hin. unfold q'. rewrite Hrun, unmarkProcessing_items.
    assert (Hlen : Nat.ltb 0 (length batch) = true).
    { apply Nat.ltb_lt. destruct batch; [by apply elem_of_nil in Hin|simpl; lia]. }
    rewrite Hlen.
    assert (Hp : p ∈ batch.*1).
    { apply list_elem_of_fmap. by exists (p, e). }
    rewrite AddAll_lookup_processing.
    + by apply reinsert_lookup.
    + unfold isProcessing. rewrite reinsert_processingItems. by apply Hproc2.
  - intros p Hp. rewrite Hrun, unmarkProcessing_items. cbn [AddAll foldl].
    destruct (Nat.ltb 0 (length batch)); [|done].
    by apply reinsert_lookup_other.
  - intros p Hp. unfold q'. unfold pulsePointProcessBatch. rewrite Hsz.
    by apply unmarkProcessing_processing.
Qed.

Lemma failed_batch_reinserted_witness :
  let q := mkQueue [("a.txt", sample_create)] 10000 100 in
  let order := [("a.txt", sample_create)] in
  items (pulsePointProcessBatch q order (Some always_fail)
           [sample_delete] [sample_modify]) !! "a.txt" = Some sample_create.
Proof.
  intros q order.
  refine (proj1 (failed_batch_reinserted q order always_fail
                   [sample_delete] [sample_modify] "process failed" _ _ _)
            "a.txt" sample_create _).
  - vm_compute. reflexivity.
  - vm_compute. discriminate.
  - reflexivity.
  - vm_compute. constructor.
Defined.

End queue_props.

Module local_props.
Import interfaces local local_samples.

Section processEvent.
Variable addRecursive :
  string → gmap string bool * gmap string string
         → gmap string bool * gmap string string.

Lemma statBlock_same_hash pw name env ce info h :
  stat env = Some info → fi_IsDir info = false →
  hash env = Some h → fileHashes pw !! name = Some h →
  statBlock pw name ChangeTypeModify env ce = None.
Proof.
  intros Hs Hd Hh Hc. unfold statBlock.
  rewrite Hs, Hd, Hh, Hc. simpl. by rewrite String.eqb_refl.
Qed.

(** Whenever the block lets a Modify through with a recomputed hash,
    that hash differs from the cached one. *)
Lemma statBlock_modify_emitted pw name env ce hashes ce' info h :
  statBlock pw name ChangeTypeModify env ce = Some (hashes, ce') →
  stat env = Some info → fi_IsDir info = false → hash env = Some h →
  fileHashes pw !! name ≠ Some h ∧ Hash ce' = h.
Proof.
  intros Hb Hs Hd Hh. unfold statBlock in Hb.
  rewrite Hs, Hd, Hh in Hb. simpl in Hb.
  destruct (fileHashes pw !! name) as [old|] eqn:Hc.
  - destruct (String.eqb_spec old h) as [->|Hne]; [done|].
    injection Hb as _ <-. split; [congruence|done].
  - injection Hb as _ <-. done.
Qed.

(** One callback on its own, no other callback running meanwhile (see
    [local_steps] for callbacks that overlap): a debounced Modify on a
    regular file whose recomputed hash equals the cached hash for that
    path is dropped, the watcher state is unchanged and nothing is sent
    on the events channel; a Modify that is sent with a recomputed hash
    does not carry the hash that was cached for its path when the
    callback started. *)
Lemma uninterrupted_modify_with_cached_hash_dropped
    (pw : PulsePointWatcher) (event : fsnotify.Event) (env : Firing)
    (info : FileInfo) (h : string) :
  pulsePointMapEventType (fsnotify.Op event) = ChangeTypeModify →
  stat env = Some info → fi_IsDir info = false →
  hash env = Some h →
  (fileHashes pw !! fsnotify.Name event = Some h →
     pulsePointProcessEvent addRecursive pw event env = pw
     ∧ eventsChan (pulsePointProcessEvent addRecursive pw event env)
       = eventsChan pw)
  ∧ (∀ sent,
       eventsChan (pulsePointProcessEvent addRecursive pw event env)
         = (eventsChan pw ++ [sent])%list →
       Type_ sent = ChangeTypeModify ∧ Hash sent = h
       ∧ fileHashes pw !! fsnotify.Name event ≠ Some h).
Proof.
  intros Hty Hs Hd Hh. split.
  - intros Hc. unfold pulsePointProcessEvent. rewrite Hty. simpl.
    by rewrite (statBlock_same_hash _ _ _ _ info h).
  - intros sent. unfold pulsePointProcessEvent. rewrite Hty. simpl.
    destruct (statBlock _ _ _ _ _) as [[hashes ce]|] eqn:Hb.
    + destruct (statBlock_modify_emitted _ _ _ _ _ _ info h Hb Hs Hd Hh)
        as [Hne Hhash].
      assert (Hce : Type_ ce = ChangeTypeModify).
      { unfold statBlock in Hb. rewrite Hs, Hd, Hh in Hb. simpl in Hb.
        destruct (match fileHashes pw !! fsnotify.Name event with
                  | Some oldHash => String.eqb oldHash h
                  | None => false
                  end); [discriminate|].
        injection Hb as _ <-. reflexivity. }
      rewrite andb_false_r.
      destruct (ctxDone env); simpl.
      * intros Heq. exfalso.
        apply (f_equal length) in Heq. rewrite length_app in Heq.
        simpl in Heq. lia.
      * intros Heq. apply app_inv_head in Heq. injection Heq as <-. done.
    + intros Heq. exfalso.
      apply (f_equal length) in Heq. rewrite length_app in Heq.
      simpl in Heq. lia.
Qed.

End processEvent.

Lemma uninterrupted_modify_with_cached_hash_dropped_example :
  let event := {| fsnotify.Name := "/w/a.txt"; fsnotify.Op := fsnotify.Write |} in
  pulsePointProcessEvent (fun _ s => s) sample_watcher event sample_firing
    = sample_watcher
  ∧ eventsChan (pulsePointProcessEvent (fun _ s => s) sample_watcher event
                  sample_firing) = [].
Proof.
  intros event.
  refine (proj1 (uninterrupted_modify_with_cached_hash_dropped (fun _ s => s)
                   sample_watcher event sample_firing
                   {| fi_Size := 4; fi_IsDir := false |} "d41d8cd9"
                   _ _ _ _) _);
    reflexivity.
Defined.

End local_props.

Module local_steps_props.
Import interfaces local local_steps local_samples watcher_samples
  local_steps_samples.

Section steps.
Variable addRecursive :
  string → gmap string bool * gmap string string
         → gmap string bool * gmap string string.

(** The atomic block of [local] is the lookup followed at once by the
    update. *)
Lemma statBlock_checkBlock pw name changeType env ce :
  statBlock pw name changeType env ce
  = match checkBlock (fileHashes pw) name changeType env ce with
    | None => None
    | Some (write, ce') =>
        Some (match write with
              | Some h => <[name := h]> (fileHashes pw)
              | None => fileHashes pw
              end, ce')
    end.
Proof.
  unfold statBlock, checkBlock.
  repeat (case_match; simpl in *; simplify_eq); done.
Qed.

(** A callback whose steps are taken in a row, no other callback taking
    a step in between, is [pulsePointProcessEvent]. *)
Lemma run_uninterrupted pw cbs i event env :
  cbs !! i = Some (Fired event env) →
  run addRecursive [i; i; i; i] (pw, cbs)
  = (pulsePointProcessEvent addRecursive pw event env, <[i := Returned]> cbs).
Proof.
  intros Hi.
  assert (Hlen : (i < length cbs)%nat) by by eapply lookup_lt_Some.
  assert (Hret : ∀ pw' sched,
    Forall (λ j, j = i) sched →
    run addRecursive sched (pw', <[i := Returned]> cbs)
    = (pw', <[i := Returned]> cbs)).
  { intros pw' sched Hs. induction Hs as [|j sched -> _ IH]; [done|].
    unfold run in *. cbn [foldl]. unfold stepAt at 2. cbn [fst snd].
    rewrite list_lookup_insert_eq by done. cbn [step].
    by rewrite list_insert_insert_eq. }
  unfold run. cbn [foldl]. unfold stepAt at 4. cbn [fst snd]. rewrite Hi.
  unfold pulsePointProcessEvent. cbn [step].
  destruct (String.eqb _ ChangeTypeUnknown).
  { apply (Hret pw [i; i; i]). by repeat constructor. }
  rewrite statBlock_checkBlock.
  destruct (checkBlock _ _ _ _ _) as [[write ce]|].
  2:{ apply (Hret pw [i; i; i]). by repeat constructor. }
  unfold stepAt at 3. cbn [fst snd].
  rewrite list_lookup_insert_eq by done. cbn [step].
  rewrite list_insert_insert_eq.
  unfold stepAt at 2. cbn [fst snd].
  rewrite list_lookup_insert_eq by done. cbn [step].
  rewrite list_insert_insert_eq.
  unfold stepAt. cbn [fst snd].
  destruct pw as [ps hs ch]. cbn [paths fileHashes eventsChan].
  destruct write as [h|]; cbn [paths fileHashes eventsChan];
    destruct (IsDir ce && String.eqb _ ChangeTypeCreate);
    try destruct (addRecursive _ _) as [ps' hs'];
    cbn [fst snd]; rewrite list_lookup_insert_eq by done; cbn [step];
    by rewrite list_insert_insert_eq.
Qed.

(** Whatever ran before: a callback for a Modify on a regular file
    whose hash is the one in the cache when it looks it up returns at
    once and sends nothing. *)
Lemma check_same_hash_returns pw event env info h :
  pulsePointMapEventType (fsnotify.Op event) = ChangeTypeModify →
  stat env = Some info → fi_IsDir info = false →
  hash env = Some h →
  fileHashes pw !! fsnotify.Name event = Some h →
  step addRecursive pw (Fired event env) = (pw, Returned).
Proof.
  intros Hty Hs Hd Hh Hc. cbn [step]. rewrite Hty. simpl.
  unfold checkBlock. rewrite Hs, Hd, Hh, Hc. simpl.
  by rewrite String.eqb_refl.
Qed.

End steps.

(** C3: two callbacks for one path can both send a Modify with the same
    hash.  The cache holds the old hash of /w/a.txt; both callbacks hash
    the file to the same new content.  Both look the cache up before
    either updates it, so both pass the test.  When the second callback
    sends, the first has already stored the new hash and sent its
    Modify: the second Modify carries exactly the hash that is cached
    for its path, and the hash of the last event sent for it.  Had the
    callbacks run one after the other, the second would have been
    dropped. *)
Theorem overlapping_callbacks_send_cached_hash :
  let before := run (fun _ s => s) [0; 1; 0; 0; 0; 1; 1]%nat racing in
  let after := run (fun _ s => s) [1]%nat before in
  let in_turn := run (fun _ s => s) [0; 0; 0; 0; 1; 1; 1; 1]%nat racing in
  fileHashes racing.1 !! "/w/a.txt" = Some "d41d8cd9"
  ∧ before = ({| paths := {[ "/w" := true ]};
                 fileHashes := {[ "/w/a.txt" := "9e107d9d" ]};
                 eventsChan := [modified "9e107d9d" 10] |},
              [Returned; Sending (modified "9e107d9d" 11) false])
  ∧ eventsChan after.1 = [modified "9e107d9d" 10; modified "9e107d9d" 11]
  ∧ after.2 = [Returned; Returned]
  ∧ (∃ sent, last (eventsChan after.1) = Some sent
             ∧ Type_ sent = ChangeTypeModify
             ∧ fileHashes before.1 !! Path sent = Some (Hash sent)
             ∧ (Hash <$> last (eventsChan before.1)) = Some (Hash sent))
  ∧ eventsChan in_turn.1 = [modified "9e107d9d" 10]
  ∧ in_turn.2 = [Returned; Returned].
Proof.
  cbv zeta. split; [reflexivity|]. split; [by vm_compute|].
  split; [by vm_compute|]. split; [by vm_compute|].
  split; [|split; by vm_compute].
  exists (modified "9e107d9d" 11). by vm_compute.
Qed.

End local_steps_props.

Module strategies_props.
Import interfaces pperrors strategies strategy_samples.

(** *** Test doubles for the object store *)

Section generic.
Context {P : Type}.
Variable provider : CloudProvider P.
Variable clock : nat → Z.
Variable config : StrategyConfig.

Lemma uploadFile_verdict s c :
  verdict (result (uploadFile provider config s c).1) = verdict (result s).
Proof.
  unfold verdict, uploadFile, callUpload.
  destruct (exceedsLimit _ _); [done|].
  by destruct (Upload _ _ _) as [p [e|]].
Qed.

Lemma oneway_deleteFile_verdict s c :
  verdict (result (oneway.deleteFile provider s c).1) = verdict (result s).
Proof.
  unfold verdict, oneway.deleteFile, callDelete.
  by destruct (Delete _ _ _) as [p [e|]].
Qed.

Lemma mirror_deleteFile_verdict s c :
  verdict (result (mirror.deleteFile provider s c).1) = verdict (result s).
Proof.
  unfold verdict, mirror.deleteFile, callDelete.
  destruct (Delete _ _ _) as [p [e|]]; [|done].
  by destruct (IsNotFoundError e).
Qed.

Lemma oneway_processChange_verdict s c :
  verdict (result (oneway.processChange provider config s c).1)
  = verdict (result s).
Proof.
  unfold oneway.processChange.
  set (s0 := with_result s (incProcessed (result s))).
  assert (H0 : verdict (result s0) = verdict (result s)) by done.
  destruct (_ || _); [by rewrite uploadFile_verdict|].
  destruct (String.eqb (Type_ c) ChangeTypeDelete).
  { destruct (PreserveDeleted config); [done|].
    by rewrite oneway_deleteFile_verdict. }
  destruct (String.eqb (Type_ c) ChangeTypeRename); [|done].
  pose proof (oneway_deleteFile_verdict s0 (deleteEvent (OldPath c))) as Hd.
  destruct (oneway.deleteFile _ _ _) as [s1 [e|]]; simpl in *.
  - by rewrite Hd.
  - by rewrite uploadFile_verdict, Hd.
Qed.

Lemma mirror_processChange_verdict s c :
  verdict (result (mirror.processChange provider config s c).1)
  = verdict (result s).
Proof.
  unfold mirror.processChange.
  set (s0 := with_result s (incProcessed (result s))).
  assert (H0 : verdict (result s0) = verdict (result s)) by done.
  destruct (_ || _); [by rewrite uploadFile_verdict|].
  destruct (String.eqb (Type_ c) ChangeTypeDelete).
  { by rewrite mirror_deleteFile_verdict. }
  destruct (String.eqb (Type_ c) ChangeTypeRename); [|done].
  pose proof (mirror_deleteFile_verdict s0 (deleteEvent (OldPath c))) as Hd.
  destruct (mirror.deleteFile _ _ _) as [s1 [e|]]; simpl in *.
  - by rewrite Hd.
  - by rewrite uploadFile_verdict, Hd.
Qed.

Lemma recordFailure_tracks (s : Run P) c e :
  Conflicts (result s) = [] →
  success_tracks_errors (result (recordFailure clock true s c e)).
Proof.
  intros Hc. unfold recordFailure, success_tracks_errors. simpl.
  split; [|done]. split; [done|].
  intros H. by destruct (Errors (result s)).
Qed.

Lemma oneway_loop_tracks changes : ∀ s,
  success_tracks_errors (result s) →
  success_tracks_errors
    (result (oneway.processAll provider clock config s changes)).
Proof.
  induction changes as [|c cs IH]; intros s Hs; [done|].
  unfold oneway.processAll in *. simpl. apply IH.
  pose proof (oneway_processChange_verdict s c) as Hv.
  destruct (oneway.processChange _ _ _ _) as [s' [e|]]; simpl in Hv.
  - apply recordFailure_tracks. unfold verdict in Hv.
    destruct Hs as [_ Hc]. congruence.
  - unfold success_tracks_errors, verdict in *.
    injection Hv as -> -> ->. done.
Qed.

Lemma mirror_loop_tracks changes : ∀ s,
  success_tracks_errors (result s) →
  success_tracks_errors
    (result (mirror.processAll provider clock config s changes)).
Proof.
  induction changes as [|c cs IH]; intros s Hs; [done|].
  unfold mirror.processAll in *. simpl. apply IH.
  pose proof (mirror_processChange_verdict s c) as Hv.
  destruct (mirror.processChange _ _ _ _) as [s' [e|]]; simpl in Hv.
  - apply recordFailure_tracks. unfold verdict in Hv.
    destruct Hs as [_ Hc]. congruence.
  - unfold success_tracks_errors, verdict in *.
    injection Hv as -> -> ->. done.
Qed.

(** One-way: [success] holds exactly when [errors] and [conflicts] are
    empty. *)
Lemma oneway_success_iff p0 changes :
  let r := result (oneway.Sync provider clock config p0 changes) in
  Success r = true ↔ Errors r = [] ∧ Conflicts r = [].
Proof.
  unfold oneway.Sync. cbn zeta. fold (startRun clock p0).
  destruct (oneway_loop_tracks changes (startRun clock p0)) as [H1 H2]; [done|].
  simpl. rewrite H1, H2. split; [by intros ->|by intros [-> _]].
Qed.

(** Mirror: [success] additionally requires the remote listing of
    [cleanupRemote] to succeed, a failure that is not recorded in
    [errors]. *)
Lemma mirror_success_iff p0 source changes :
  let s1 := mirror.processAll provider clock config (startRun clock p0) changes in
  let r := result (mirror.Sync provider clock config p0 source changes) in
  Conflicts r = []
  ∧ (Success r = true ↔
       Errors r = [] ∧ (mirror.cleanupRemote provider s1 source).2 = None).
Proof.
  unfold mirror.Sync. cbn zeta. fold (startRun clock p0).
  destruct (mirror_loop_tracks changes (startRun clock p0)) as [H1 H2]; [done|].
  set (s1 := mirror.processAll _ _ _ _ _) in *.
  unfold mirror.cleanupRemote, callList.
  destruct (List provider (prov s1) "/") as [p [fs [e|]]]; simpl.
  - split; [done|]. split; [discriminate|]. by intros [_ ?].
  - split; [done|]. rewrite H1. split; [by intros ->|by intros [-> _]].
Qed.

End generic.

(** *** Backup *)
Section backup_generic.
Context {P : Type}.
Variable provider : CloudProvider P.
Variable clock : nat → Z.
Variable config : StrategyConfig.
Variable formatTime : Z → string.
Variables fDir fBase fExt : string → string.
Variable fJoin : string → string → string.

#[local] Abbreviation backupFile := (backup.backupFile provider config fDir fBase fExt fJoin).
#[local] Abbreviation processChange :=
  (backup.processChange provider clock config fDir fBase fExt fJoin).
#[local] Abbreviation processAll :=
  (backup.processAll provider clock config fDir fBase fExt fJoin).
#[local] Abbreviation versioned := (backup.generateVersionedPath fDir fBase fExt fJoin).

Lemma no_delete_snoc cs c :
  no_delete cs → is_delete c = false → no_delete (cs ++ [c]).
Proof.
  intros H1 H2. apply Forall_app. split; [done|]. by constructor.
Qed.

(** What [backupFile] asks of the provider: nothing when the file is
    over the size limit; otherwise an optional metadata lookup followed
    by exactly one upload of the change, to its own path or to the
    versioned path. *)
Lemma backupFile_calls (s : Run P) c ts :
  ∃ rest, calls (backupFile s c ts).1 = (calls s ++ rest)%list
    ∧ no_delete rest
    ∧ (exceedsLimit config c = true → rest = [])
    ∧ (exceedsLimit config c = false →
         ∃ remotePath,
           last rest = Some (CallUpload (fileOf remotePath c))
           ∧ (remotePath = Path c ∨ remotePath = versioned (Path c) ts)).
Proof.
  unfold backup.backupFile.
  destruct (exceedsLimit config c) eqn:Hlim.
  { exists []. simpl. rewrite app_nil_r. repeat split; try done. constructor. }
  destruct (VersionControl config).
  - unfold callGetMetadata.
    destruct (GetMetadata provider (prov s) (Path c)) as [p [md err]].
    set (remotePath := match err, md with
                       | None, Some _ => versioned (Path c) ts
                       | _, _ => Path c
                       end).
    assert (Hrp : remotePath = Path c ∨ remotePath = versioned (Path c) ts).
    { unfold remotePath. destruct err, md; auto. }
    exists [CallGetMetadata (Path c); CallUpload (fileOf remotePath c)].
    split; [|split; [|split]].
    + unfold remotePath, callUpload.
      destruct err, md; simpl;
        destruct (Upload provider p _) as [p' [e'|]]; simpl;
        by rewrite <- app_assoc.
    + by repeat constructor.
    + done.
    + intros _. by exists remotePath.
  - exists [CallUpload (fileOf (Path c) c)].
    split; [|split; [|split]].
    + unfold callUpload.
      by destruct (Upload provider (prov s) _) as [p' [e|]].
    + by repeat constructor.
    + done.
    + intros _. exists (Path c). auto.
Qed.

Lemma markDeleted_calls (s : Run P) c ts :
  (backup.markDeleted provider clock s c ts).2 = None
  ∧ calls (backup.markDeleted provider clock s c ts).1
    = (calls s ++ [CallUpload (backup.markerFile (Path c ++ ".deleted_" ++ ts)
                                                 (clock (ticks s)))])%list.
Proof.
  unfold backup.markDeleted, callUpload, timeNow. simpl.
  by destruct (Upload provider (prov s) _) as [p' e].
Qed.

Lemma markMoved_calls (s : Run P) old new ts :
  (backup.markMoved provider clock s old new ts).2 = None
  ∧ calls (backup.markMoved provider clock s old new ts).1
    = (calls s ++ [CallUpload (backup.markerFile (old ++ ".moved_" ++ ts)
                                                 (clock (ticks s)))])%list.
Proof.
  unfold backup.markMoved, callUpload, timeNow. simpl.
  by destruct (Upload provider (prov s) _) as [p' e].
Qed.

Lemma processChange_no_delete (s : Run P) c ts :
  no_delete (calls s) → no_delete (calls (processChange s c ts).1).
Proof.
  intros Hs. unfold backup.processChange.
  set (s0 := with_result s (incProcessed (result s))).
  assert (H0 : no_delete (calls s0)) by done.
  destruct (_ || _).
  { destruct (backupFile_calls s0 c ts) as (rest & -> & Hr & _).
    by apply Forall_app. }
  destruct (String.eqb (Type_ c) ChangeTypeDelete).
  { destruct (markDeleted_calls s0 c ts) as [_ ->]. by apply no_delete_snoc. }
  destruct (String.eqb (Type_ c) ChangeTypeRename); [|done].
  destruct (markMoved_calls s0 (OldPath c) (Path c) ts) as [He Hc].
  destruct (backup.markMoved _ _ _ _ _ _) as [s1 err]. simpl in *. subst err.
  destruct (backupFile_calls s1 c ts) as (rest & -> & Hr & _).
  rewrite Hc. apply Forall_app. split; [|done]. by apply no_delete_snoc.
Qed.

Lemma processChange_success (s : Run P) c ts :
  verdict (result (processChange s c ts).1) = verdict (result s).
Proof.
  unfold verdict, backup.processChange, backup.backupFile, backup.markDeleted,
    backup.markMoved, callUpload, callGetMetadata, timeNow.
  repeat (case_match; simpl in *; simplify_eq); done.
Qed.

Lemma processAll_no_delete changes : ∀ (s : Run P) ts,
  no_delete (calls s) → no_delete (calls (processAll s changes ts)).
Proof.
  induction changes as [|c cs IH]; intros s ts Hs; [done|].
  unfold backup.processAll in *. simpl. apply IH.
  pose proof (processChange_no_delete s c ts Hs) as Hc.
  by destruct (processChange s c ts) as [s' [e|]].
Qed.

(** The backup loop never turns [Success] off and records no conflict. *)
Lemma processAll_success changes : ∀ (s : Run P) ts,
  Success (result (processAll s changes ts)) = Success (result s)
  ∧ Conflicts (result (processAll s changes ts)) = Conflicts (result s).
Proof.
  induction changes as [|c cs IH]; intros s ts; [done|].
  unfold backup.processAll in *. simpl.
  pose proof (processChange_success s c ts) as Hv. unfold verdict in Hv.
  destruct (processChange s c ts) as [s' [e|]]; simpl in Hv;
    injection Hv as He Hc Hs;
    rewrite (proj1 (IH _ ts)), (proj2 (IH _ ts)); simpl; done.
Qed.

Lemma Sync_success_always p0 changes :
  Success (result (backup.Sync provider clock config formatTime
                     fDir fBase fExt fJoin p0 changes)) = true.
Proof.
  unfold backup.Sync. cbn zeta. simpl.
  by rewrite (proj1 (processAll_success changes _ _)).
Qed.

(** The provider calls of [backupFile], exactly: none for a file over
    the size limit; one upload to the path itself without version
    control; with version control a metadata lookup and then one
    upload, to the versioned path when the lookup answered with
    metadata and no error, to the path itself otherwise. *)
Lemma backupFile_calls_exact (s : Run P) c ts :
  calls (backupFile s c ts).1
  = (calls s ++
     (if exceedsLimit config c then []
      else if VersionControl config then
        [CallGetMetadata (Path c);
         CallUpload
           (fileOf (match (GetMetadata provider (prov s) (Path c)).2 with
                    | (Some _, None) => versioned (Path c) ts
                    | _ => Path c
                    end) c)]
      else [CallUpload (fileOf (Path c) c)]))%list.
Proof.
  unfold backup.backupFile.
  destruct (exceedsLimit config c); [by rewrite app_nil_r|].
  destruct (VersionControl config).
  - unfold callGetMetadata.
    destruct (GetMetadata provider (prov s) (Path c)) as [p [md err]].
    unfold callUpload.
    destruct err, md; simpl;
      destruct (Upload provider p _) as [p' [e'|]]; simpl;
      by rewrite <- app_assoc.
  - unfold callUpload.
    by destruct (Upload provider (prov s) _) as [p' [e|]].
Qed.

(** C5 (amended): a backup [Sync] never calls the provider's [Delete].
    A Delete event makes exactly one provider call, the upload of a
    zero-byte marker at [<path>.deleted_<ts>], and reports no error.  A
    Rename event first uploads a zero-byte marker at
    [<old path>.moved_<ts>].  If the size exceeds a positive
    [max_file_size] nothing more is sent.  Otherwise the new path is
    uploaded by the last call: without version control to the path
    itself; with version control the remote, as the marker upload left
    it, is first asked for the metadata of the new path, and the upload
    goes to the versioned path exactly when that lookup answers with
    metadata and no error (the remote already has the path), and to the
    path itself when it does not. *)
Theorem backup_preserves_remote :
  (∀ p0 changes,
     no_delete (calls (backup.Sync provider clock config formatTime
                         fDir fBase fExt fJoin p0 changes)))
  ∧ (∀ (s : Run P) c ts,
       Type_ c = ChangeTypeDelete →
       (processChange s c ts).2 = None
       ∧ calls (processChange s c ts).1
         = (calls s ++
            [CallUpload (backup.markerFile (Path c ++ ".deleted_" ++ ts)
                                           (clock (ticks s)))])%list
       ∧ f_Size (backup.markerFile (Path c ++ ".deleted_" ++ ts)
                                   (clock (ticks s))) = 0)
  ∧ (∀ (s : Run P) c ts,
       Type_ c = ChangeTypeRename →
       let marker := backup.markerFile (OldPath c ++ ".moved_" ++ ts)
                                       (clock (ticks s)) in
       let remote := (Upload provider (prov s) marker).1 in
       let remotePath :=
         match (GetMetadata provider remote (Path c)).2 with
         | (Some _, None) => versioned (Path c) ts
         | _ => Path c
         end in
       f_Size marker = 0
       ∧ calls (processChange s c ts).1
         = (calls s ++
            CallUpload marker ::
            (if exceedsLimit config c then []
             else if VersionControl config then
               [CallGetMetadata (Path c); CallUpload (fileOf remotePath c)]
             else [CallUpload (fileOf (Path c) c)]))%list).
Proof.
  split; [|split].
  - intros p0 changes. unfold backup.Sync. cbn zeta. simpl.
    apply processAll_no_delete. constructor.
  - intros s c ts Hty. unfold backup.processChange. rewrite Hty. simpl.
    set (s0 := with_result s (incProcessed (result s))).
    destruct (markDeleted_calls s0 c ts) as [-> ->]. done.
  - intros s c ts Hty marker remote remotePath. split; [done|].
    unfold backup.processChange. rewrite Hty. simpl.
    set (s0 := with_result s (incProcessed (result s))).
    destruct (markMoved_calls s0 (OldPath c) (Path c) ts) as [He Hc].
    assert (Hp : prov (backup.markMoved provider clock s0 (OldPath c)
                         (Path c) ts).1 = remote).
    { unfold backup.markMoved, callUpload, timeNow, remote, marker. simpl.
      by destruct (Upload provider (prov s) _) as [p' e]. }
    destruct (backup.markMoved _ _ _ _ _ _) as [s1 err]. simpl in *. subst err.
    rewrite backupFile_calls_exact, Hc, Hp, <- app_assoc. done.
Qed.

End backup_generic.

Lemma backup_preserves_remote_witness :
  let cfg := backup.NewConfig None in
  let c := change ChangeTypeRename "new.txt" "old.txt" 20 in
  let marker := backup.markerFile "old.txt.moved_20240101_120000"
                                  (tickClock 1) in
  f_Size marker = 0
  ∧ calls (backup.processChange memProvider tickClock cfg
             dirDot baseId extTxt joinSlash
             (startRun tickClock [remoteFile "new.txt" "A"]) c
             "20240101_120000").1
    = [CallUpload marker; CallGetMetadata "new.txt";
       CallUpload (fileOf "new_v20240101_120000.txt" c)].
Proof.
  intros cfg c marker.
  exact (proj2 (proj2 (backup_preserves_remote memProvider tickClock cfg
                         fmtTime dirDot baseId extTxt joinSlash))
           (startRun tickClock [remoteFile "new.txt" "A"]) c
           "20240101_120000" eq_refl).
Defined.

(** C5 (as stated) fails for a Rename whose size (20) exceeds
    [max_file_size] (10): the only provider call of the whole [Sync] is
    the upload of the moved-marker; the new path is skipped. *)
Lemma backup_rename_over_limit_sends_marker_only :
  let run := backup.Sync memProvider tickClock limit10 fmtTime
               dirDot baseId extTxt joinSlash [] [sample_rename] in
  calls run = [CallUpload (backup.markerFile "old.txt.moved_20240101_120000"
                                             (tickClock 2))]
  ∧ FilesUploaded (result run) = 0
  ∧ FilesSkipped (result run) = 1
  ∧ ¬ ∃ f, CallUpload f ∈ calls run ∧ f_Path f = "new.txt".
Proof.
  vm_compute. repeat split; try done.
  intros [f [Hin Hp]]. apply list_elem_of_singleton in Hin.
  injection Hin as ->. discriminate.
Qed.

(** C4: two runs where [success] disagrees with [errors.empty ∧
    conflicts.empty].  Backup, store unreachable, one Create: the failure
    is recorded in [errors] and [success] is still true.  Mirror, store
    unreachable, no events: the listing fails, [success] is false and
    [errors] is empty. *)
Theorem success_disagrees_with_errors :
  (let r := result (backup.Sync downProvider tickClock (backup.NewConfig None)
                      fmtTime dirDot baseId extTxt joinSlash tt
                      [change ChangeTypeCreate "r.txt" "" 1]) in
   Errors r =
     [{| se_Path := "r.txt"; se_Operation := "create";
         se_Message := "[sync] failed to backup r.txt: connection refused";
         se_Timestamp := tickClock 2 |}]
   ∧ Conflicts r = [] ∧ Success r = true)
  ∧ (let r := result (mirror.Sync downProvider tickClock (mirror.NewConfig None)
                        tt "." []) in
     Errors r = [] ∧ Conflicts r = [] ∧ Success r = false).
Proof. vm_compute. repeat split; done. Qed.

(** C6: a mirror [Sync] without events only lists the remote root: no
    [Delete] is issued and nothing is counted as deleted, whatever the
    remote holds.  With remote [{p.txt, q.txt}] the extra q.txt is still
    on the remote afterwards. *)
Theorem mirror_cleanup_deletes_nothing :
  (∀ (P : Type) (provider : CloudProvider P) clock config (p0 : P) source,
     let run := mirror.Sync provider clock config p0 source [] in
     calls run = [CallList "/"]
     ∧ FilesDeleted (result run) = 0
     ∧ prov run = (List provider p0 "/").1)
  ∧ (let remote := [remoteFile "p.txt" "A"; remoteFile "q.txt" "B"] in
     let run := mirror.Sync memProvider tickClock (mirror.NewConfig None)
                  remote "." [] in
     calls run = [CallList "/"]
     ∧ remoteFile "q.txt" "B" ∈ prov run
     ∧ Success (result run) = true).
Proof.
  split.
  - intros P provider clock config p0 source.
    unfold mirror.Sync, mirror.processAll, mirror.cleanupRemote, callList.
    simpl. destruct (List provider p0 "/") as [p [fs [e|]]]; done.
  - vm_compute. repeat split; try done.
    apply list_elem_of_In. right. left. reflexivity.
Qed.

End strategies_props.

Module engine_props.
Import pperrors engine engine_samples.

Section lifecycle.
Variable clock : nat → Z.

Lemma Pause_error_iff e :
  is_error (Pause e).2 = true ↔ ¬ (isRunning e = true ∧ isPaused e = false).
Proof.
  unfold Pause. cbn.
  destruct (isRunning e), (isPaused e), (pauseChanClosed e); simpl;
    (split; [intros H [H1 H2]; congruence
            |intros H; try reflexivity; exfalso; apply H; split; reflexivity]).
Qed.

Lemma Resume_error_iff e :
  is_error (Resume e).2 = true ↔ ¬ (isRunning e = true ∧ isPaused e = true).
Proof.
  unfold Resume.
  destruct (isRunning e), (isPaused e); simpl;
    (split; [intros H [H1 H2]; congruence
            |intros H; try reflexivity; exfalso; apply H; split; reflexivity]).
Qed.

(** C8: [Start] on a running engine returns the already-running error
    and changes nothing; only on a stopped engine does it set
    [isRunning] (and clear [isPaused]), returning nil when the watcher
    starts.  [Pause] returns an error exactly when the engine is not
    (running and not paused), [Resume] exactly when it is not (running
    and paused); neither changes the engine when it fails.  [Stop] on a
    stopped engine returns nil and leaves the engine as it was, so a
    [Stop] that follows a completed [Stop] does nothing. *)
Theorem lifecycle_preconditions (e : PulsePointEngine) (w : option error) :
  (isRunning e = true →
     Start clock e w
     = (e, ReturnErr (NewSyncError "engine already running" None)))
  ∧ (isRunning e = false →
       (w = None →
          (Start clock e w).2 = ReturnNil
          ∧ isRunning (Start clock e w).1 = true
          ∧ isPaused (Start clock e w).1 = false)
       ∧ (∀ err, w = Some err →
            is_error (Start clock e w).2 = true
            ∧ isRunning (Start clock e w).1 = false))
  ∧ ((Start clock e w).2 = ReturnNil →
       isRunning e = false ∧ isRunning (Start clock e w).1 = true)
  ∧ (is_error (Pause e).2 = true ↔
       ¬ (isRunning e = true ∧ isPaused e = false))
  ∧ (is_error (Pause e).2 = true → (Pause e).1 = e)
  ∧ (is_error (Resume e).2 = true ↔
       ¬ (isRunning e = true ∧ isPaused e = true))
  ∧ (is_error (Resume e).2 = true → (Resume e).1 = e)
  ∧ (isRunning e = false → Stop clock e w = (e, ReturnNil))
  ∧ ((Stop clock e w).2 = ReturnNil →
       ∀ w', Stop clock (Stop clock e w).1 w' = ((Stop clock e w).1, ReturnNil)).
Proof.
  split; [|split; [|split; [|split; [|split; [|split; [|split; [|split]]]]]]].
  - intros Hr. unfold Start. by rewrite Hr.
  - intros Hr. unfold Start. rewrite Hr. split.
    + by intros ->.
    + by intros err ->.
  - unfold Start. destruct (isRunning e); [done|].
    by destruct w.
  - apply Pause_error_iff.
  - unfold Pause. cbn.
    by destruct (isRunning e), (isPaused e), (pauseChanClosed e).
  - apply Resume_error_iff.
  - unfold Resume. cbn. by destruct (isRunning e), (isPaused e).
  - intros Hr. unfold Stop. by rewrite Hr.
  - unfold Stop. destruct (isRunning e) eqn:Hr; simpl.
    + destruct (stopChanClosed e); [done|]. intros _ w'. reflexivity.
    + intros _ w'. by rewrite Hr.
Qed.

End lifecycle.

Lemma lifecycle_preconditions_witness :
  Stop (fun n => Z.of_nat n) NewPulsePointEngine None
  = (NewPulsePointEngine, ReturnNil).
Proof.
  refine (proj1 (proj2 (proj2 (proj2 (proj2 (proj2 (proj2 (proj2
    (lifecycle_preconditions (fun n => Z.of_nat n) NewPulsePointEngine None))))))))
    _).
  reflexivity.
Defined.

(** *** Metrics *)

Lemma wrap64_small z : in_int64 z → wrap64 z = z.
Proof.
  unfold in_int64, wrap64. intros H.
  rewrite Z.mod_small; lia.
Qed.

Lemma wrap64_add_l a b : wrap64 (wrap64 a + b) = wrap64 (a + b).
Proof.
  unfold wrap64.
  replace ((a + 2 ^ 63) mod 2 ^ 64 - 2 ^ 63 + b + 2 ^ 63)
    with ((a + 2 ^ 63) mod 2 ^ 64 + b) by lia.
  rewrite Zplus_mod_idemp_l. f_equal. f_equal. lia.
Qed.

Lemma wrap64_add_r a b : wrap64 (a + wrap64 b) = wrap64 (a + b).
Proof. by rewrite Z.add_comm, wrap64_add_l, Z.add_comm. Qed.

(** The three counters stay consistent in 64-bit arithmetic after any
    history of updates. *)
Lemma counters_consistent cs :
  TotalSyncs (recordAll cs)
  = wrap64 (SuccessfulSyncs (recordAll cs) + FailedSyncs (recordAll cs)).
Proof.
  unfold recordAll.
  assert (H : ∀ m, TotalSyncs m = wrap64 (SuccessfulSyncs m + FailedSyncs m) →
              TotalSyncs (foldl record m cs)
              = wrap64 (SuccessfulSyncs (foldl record m cs)
                        + FailedSyncs (foldl record m cs))).
  { induction cs as [|c cs IH]; intros m Hm; [done|].
    simpl. apply IH. destruct c as [r|]; simpl.
    - unfold recordSuccess. destruct (0 <? _); simpl; rewrite Hm;
        unfold add64; rewrite !wrap64_add_l; f_equal; lia.
    - unfold add64. rewrite Hm, wrap64_add_l, wrap64_add_r. f_equal. lia. }
  apply H. reflexivity.
Qed.

(** Below 2^63 updates nothing wraps: the plain sum holds. *)
Lemma counters_sum cs :
  Z.of_nat (length cs) < 2 ^ 63 →
  TotalSyncs (recordAll cs)
  = SuccessfulSyncs (recordAll cs) + FailedSyncs (recordAll cs).
Proof.
  unfold recordAll. intros Hlen.
  assert (H : ∀ m,
    0 <= SuccessfulSyncs m → 0 <= FailedSyncs m →
    TotalSyncs m = SuccessfulSyncs m + FailedSyncs m →
    TotalSyncs m + Z.of_nat (length cs) < 2 ^ 63 →
    TotalSyncs (foldl record m cs)
    = SuccessfulSyncs (foldl record m cs) + FailedSyncs (foldl record m cs)).
  { clear Hlen. induction cs as [|c cs IH]; intros m Hs Hf Hm Hb; [done|].
    simpl length in Hb. simpl.
    assert (Ht : add64 (TotalSyncs m) 1 = TotalSyncs m + 1).
    { apply wrap64_small. unfold in_int64. lia. }
    assert (Hs1 : add64 (SuccessfulSyncs m) 1 = SuccessfulSyncs m + 1).
    { apply wrap64_small. unfold in_int64. lia. }
    assert (Hf1 : add64 (FailedSyncs m) 1 = FailedSyncs m + 1).
    { apply wrap64_small. unfold in_int64. lia. }
    apply IH; destruct c as [r|]; simpl; unfold recordSuccess;
      try destruct (0 <? _); simpl; lia. }
  apply H; simpl; lia.
Qed.

Lemma mbps_pos bytes d : 0 < bytes → 0 < d → (0 < mbps bytes d)%Q.
Proof.
  intros Hb Hd. destruct bytes as [|b|b]; try lia. destruct d as [|p|p]; try lia.
  unfold mbps, Qlt, Qdiv, Qmult, Qinv, inject_Z. simpl. lia.
Qed.

Lemma recordSuccess_averaged m total r :
  averaged m total → positive_speed (Succeeded r) →
  SuccessfulSyncs m + 1 < 2 ^ 63 →
  averaged (recordSuccess m r) (total + speed_of r)%Q
  ∧ SuccessfulSyncs (recordSuccess m r) = SuccessfulSyncs m + 1.
Proof.
  intros (Hn & Hsum & Hzero & Hpos) [Hb Hd] Hbound.
  assert (Hdur : wrap64 (interfaces.EndTime r - interfaces.StartTime r)
                 = interfaces.EndTime r - interfaces.StartTime r).
  { apply wrap64_small. unfold in_int64. lia. }
  assert (Hsucc : add64 (SuccessfulSyncs m) 1 = SuccessfulSyncs m + 1).
  { apply wrap64_small. unfold in_int64. lia. }
  assert (Hspeed : (0 < speed_of r)%Q) by (apply mbps_pos; lia).
  unfold recordSuccess. rewrite Hdur, Hsucc.
  rewrite (proj2 (Z.ltb_lt _ _) (proj1 Hd)).
  fold (speed_of r). cbn [SuccessfulSyncs AverageSpeed].
  split; [|reflexivity].
  unfold averaged. cbn [SuccessfulSyncs AverageSpeed].
  destruct (Z.eq_dec (SuccessfulSyncs m) 0) as [H0|H0].
  - rewrite (proj2 (Qeq_bool_iff _ _) (Hzero H0)).
    split; [lia|]. split; [|split; [lia|done]].
    rewrite <- Hsum, H0.
    change (inject_Z (0 + 1)) with 1%Q. change (inject_Z 0) with 0%Q. ring.
  - assert (Hp : (0 < AverageSpeed m)%Q) by (apply Hpos; lia).
    assert (Hne : Qeq_bool (AverageSpeed m) 0 = false).
    { apply not_true_is_false. intros Heq%Qeq_bool_iff.
      rewrite Heq in Hp. by apply Qlt_irrefl in Hp. }
    rewrite Hne.
    replace (SuccessfulSyncs m + 1 - 1) with (SuccessfulSyncs m) by lia.
    assert (Hn1 : ¬ (inject_Z (SuccessfulSyncs m + 1) == 0)%Q).
    { unfold Qeq, inject_Z. simpl. lia. }
    split; [lia|]. split; [|split; [lia|]].
    + rewrite <- Hsum. field. exact Hn1.
    + intros _. apply Qlt_shift_div_l.
      * unfold Qlt, inject_Z. simpl. lia.
      * rewrite Qmult_0_l.
        apply Qlt_le_trans with (speed_of r); [done|].
        rewrite <- (Qplus_0_l (speed_of r)) at 1.
        apply Qplus_le_l. apply Qmult_le_0_compat; [by apply Qlt_le_weak|].
        unfold Qle, inject_Z. simpl. lia.
Qed.

Lemma recordFailure_averaged m total :
  averaged m total → averaged (recordFailure m) total.
Proof. done. Qed.

Lemma recordAll_averaged cs : ∀ m total,
  Forall positive_speed cs →
  averaged m total →
  SuccessfulSyncs m + Z.of_nat (length cs) < 2 ^ 63 →
  averaged (foldl record m cs)
           (total + foldr Qplus 0 (successful_speeds cs))%Q
  ∧ SuccessfulSyncs (foldl record m cs)
    = SuccessfulSyncs m + Z.of_nat (length (successful_speeds cs)).
Proof.
  induction cs as [|c cs IH]; intros m total Hall Hm Hbound.
  - simpl. split; [|lia]. destruct Hm as (? & Hsum & ? & ?).
    repeat split; try done. rewrite Hsum. ring.
  - apply Forall_cons in Hall as [Hc Hall]. simpl length in Hbound.
    destruct c as [r|]; simpl.
    + destruct (recordSuccess_averaged m total r Hm Hc) as [Hm1 Hn1]; [lia|].
      destruct (IH _ _ Hall Hm1) as [Hfin Hcount]; [lia|].
      split; [|lia].
      destruct Hfin as (? & Hsum & ? & ?). repeat split; try done.
      rewrite Hsum. ring.
    + destruct (IH _ _ Hall (recordFailure_averaged m total Hm)) as [Hfin Hcount];
        [simpl; lia|].
      by split.
Qed.

(** On histories whose successful syncs all have a positive speed the
    running average is the cumulative mean of the speeds. *)
Lemma average_is_mean_of_positive_speeds cs :
  Forall positive_speed cs → Z.of_nat (length cs) < 2 ^ 63 →
  (AverageSpeed (recordAll cs) == cumulative_mean (successful_speeds cs))%Q.
Proof.
  intros Hall Hlen. unfold recordAll.
  destruct (recordAll_averaged cs newMetrics 0%Q Hall) as [Hfin Hcount].
  { repeat split; try done. }
  { simpl. lia. }
  cbn [SuccessfulSyncs newMetrics] in Hcount. rewrite Z.add_0_l in Hcount.
  destruct Hfin as (_ & Hsum & Hzero & _).
  unfold cumulative_mean. rewrite Hcount in *.
  destruct (successful_speeds cs) as [|x xs] eqn:Hs.
  - rewrite Hzero by done. reflexivity.
  - rewrite Qplus_0_l in Hsum. rewrite <- Hsum.
    field. unfold Qeq, inject_Z. simpl. lia.
Qed.

(** C9: two successful syncs of one second each, the first moving no
    bytes (speed 0 MB/s), the second 6 MiB (speed 6 MB/s).  The counters
    add up, the mean of the two speeds is 3, and [AverageSpeed] is 6: the
    zero average after the first sync is taken for "no average yet". *)
Theorem average_speed_restarts_after_zero :
  let history := [Succeeded (syncResult 0 0 1000000000);
                  Succeeded (syncResult (6 * 1024 * 1024) 0 1000000000)] in
  let m := recordAll history in
  TotalSyncs m = SuccessfulSyncs m + FailedSyncs m
  ∧ Forall2 Qeq (successful_speeds history) [0%Q; 6%Q]
  ∧ (cumulative_mean (successful_speeds history) == 3)%Q
  ∧ (AverageSpeed m == 6)%Q
  ∧ ¬ (AverageSpeed m == cumulative_mean (successful_speeds history))%Q.
Proof.
  split; [|split; [|split; [|split]]].
  - vm_compute. reflexivity.
  - repeat constructor; vm_compute; reflexivity.
  - vm_compute. reflexivity.
  - vm_compute. reflexivity.
  - vm_compute. discriminate.
Qed.

End engine_props.

Module statemgr_props.
Import pperrors database statemgr statemgr_samples.

Section manager.
Variable unmarshalSyncState : string → state.SyncState + error.
Variable unmarshalFileState : string → ModelFileState + error.
Variable unmarshalTransaction : string → SyncTransaction + error.

Lemma readKey_absent db bucketName missing key :
  opened db = true → absent db bucketName key →
  View db (readKey bucketName missing key) = inl None.
Proof.
  intros Ho (bucket & Hb & Hk). unfold View, readKey.
  by rewrite Ho, Hb, Hk.
Qed.

(** Why a read through [View] and a decoder can fail at all. *)
Lemma read_failure {A : Type} (unmarshal : string → A + error)
    db bucketName missing key :
  match View db (readKey bucketName missing key) with
  | inr _ => database_failure db bucketName
  | inl None => True
  | inl (Some data) =>
      match unmarshal data with
      | inr _ => decoding_failure unmarshal db bucketName key
      | inl _ => True
      end
  end.
Proof.
  unfold View, readKey, database_failure, decoding_failure.
  destruct (opened db); [|by left].
  destruct (buckets db !! bucketName) as [bucket|] eqn:Hb; [|by right].
  destruct (bucket !! key) as [data|] eqn:Hk; [|done].
  destruct (unmarshal data) as [v|err] eqn:Hu; [done|].
  by exists bucket, data, err.
Qed.

(** C10: on an open database, a key that is absent from its bucket
    makes [GetFileState], [GetTransaction] and [LoadState] return
    [(nil, nil)].  Whenever one of them returns an error, either the
    database failed (it is closed or the bucket is missing) or the
    stored value failed to decode. *)
Theorem absent_key_is_not_an_error (db : DB) (path id : string) :
  opened db = true →
  (absent db BucketFileState path →
     GetFileState unmarshalFileState db path = (None, None))
  ∧ (absent db BucketTransactions id →
       GetTransaction unmarshalTransaction db id = (None, None))
  ∧ (absent db BucketState "current" →
       LoadState unmarshalSyncState db = (None, None))
  ∧ (∀ e, (GetFileState unmarshalFileState db path).2 = Some e →
       database_failure db BucketFileState
       ∨ decoding_failure unmarshalFileState db BucketFileState path)
  ∧ (∀ e, (GetTransaction unmarshalTransaction db id).2 = Some e →
       database_failure db BucketTransactions
       ∨ decoding_failure unmarshalTransaction db BucketTransactions id)
  ∧ (∀ e, (LoadState unmarshalSyncState db).2 = Some e →
       database_failure db BucketState
       ∨ decoding_failure unmarshalSyncState db BucketState "current").
Proof.
  intros Ho. split; [|split; [|split; [|split; [|split]]]].
  - intros Ha. unfold GetFileState. by rewrite readKey_absent.
  - intros Ha. unfold GetTransaction. by rewrite readKey_absent.
  - intros Ha. unfold LoadState. by rewrite readKey_absent.
  - intros e. unfold GetFileState.
    pose proof (read_failure unmarshalFileState db BucketFileState
                  "file state bucket not found" path) as Hf.
    destruct (View db _) as [[data|]|err]; simpl; [|done|by left].
    destruct (unmarshalFileState data); [done|by right].
  - intros e. unfold GetTransaction.
    pose proof (read_failure unmarshalTransaction db BucketTransactions
                  "transactions bucket not found" id) as Hf.
    destruct (View db _) as [[data|]|err]; simpl; [|done|by left].
    destruct (unmarshalTransaction data); [done|by right].
  - intros e. unfold LoadState.
    pose proof (read_failure unmarshalSyncState db BucketState
                  "state bucket not found" "current") as Hf.
    destruct (View db _) as [[data|]|err]; simpl; [|done|by left].
    destruct (unmarshalSyncState data); [done|by right].
Qed.

End manager.

Lemma absent_key_is_not_an_error_witness :
  GetFileState undecodable initialized "/home/u/a.txt" = (None, None).
Proof.
  refine (proj1 (absent_key_is_not_an_error undecodable undecodable undecodable
                   initialized "/home/u/a.txt" "tx-1" _) _).
  - reflexivity.
  - exists ∅. split; [vm_compute; reflexivity|apply lookup_empty].
Defined.

End statemgr_props.

Module queue_store_props.
Import models queue database bolt queue_store queue_samples queue_props.

(** *** Capacity *)

Lemma Add_size q e :
  (size (items (Add q e).1) ≤ S (size (items q)))%nat
  ∧ (Z.of_nat (size (items q)) ≤ maxSize q →
     Z.of_nat (size (items (Add q e).1)) ≤ maxSize q).
Proof.
  unfold Add.
  destruct (maxSize q <=? Z.of_nat (size (items q))) eqn:Hcap; [split; simpl; lia|].
  apply Z.leb_gt in Hcap.
  destruct (isProcessing q (Path e)); [split; simpl; lia|].
  destruct (items q !! Path e) as [old|] eqn:Hold.
  - destruct (pulsePointShouldReplace old e); [|split; simpl; lia].
    cbn [fst items set_items].
    assert (Hdom : dom (<[Path e := e]> (items q)) = dom (items q)).
    { rewrite dom_insert_L. apply elem_of_dom_2 in Hold.
      apply subseteq_union_1_L. by apply singleton_subseteq_l. }
    rewrite <- !size_dom, Hdom. split; lia.
  - cbn [fst items set_items]. rewrite map_size_insert_None by done. split; lia.
Qed.

(** X1: no run of [Add] calls pushes the pending set over [maxSize]: a
    queue that holds at most [maxSize] events still does after any
    sequence of additions, and the limits themselves never change. *)
Theorem AddAll_respects_capacity (q : PulsePointChangeQueue)
    (events : list ChangeEvent) :
  Z.of_nat (size (items q)) ≤ maxSize q →
  Z.of_nat (size (items (AddAll q events))) ≤ maxSize (AddAll q events)
  ∧ maxSize (AddAll q events) = maxSize q
  ∧ (size (items (AddAll q events)) ≤ size (items q) + length events)%nat.
Proof.
  revert q. induction events as [|e es IH]; intros q Hq.
  - simpl. split; [done|]. split; [done|lia].
  - unfold AddAll in *. simpl.
    destruct (Add_size q e) as [Hs Hc]. destruct (Add_limits q e) as [Hm _].
    destruct (IH (Add q e).1) as (H1 & H2 & H3).
    { rewrite Hm. by apply Hc. }
    split; [done|]. split; [by rewrite H2|lia].
Qed.

Lemma AddAll_respects_capacity_witness :
  let q := mkQueue [("a.txt", sample_create)] 1 100 in
  let events := [sample_delete; mkEvent ChangeTypeCreate "b.txt" 3] in
  Z.of_nat (size (items (AddAll q events))) ≤ maxSize (AddAll q events)
  ∧ maxSize (AddAll q events) = maxSize q
  ∧ (size (items (AddAll q events)) ≤ size (items q) + length events)%nat.
Proof.
  intros q events. apply (AddAll_respects_capacity q events).
  vm_compute. discriminate.
Defined.

(** *** Events are stored under their own path *)

Lemma keyed_Add q e : keyed q → keyed (Add q e).1.
Proof.
  intros Hk p x. unfold Add.
  destruct (maxSize q <=? _); [apply Hk|].
  destruct (isProcessing q (Path e)); [apply Hk|].
  destruct (items q !! Path e) as [old|];
    [destruct (pulsePointShouldReplace old e); [|apply Hk]|];
    cbn [fst items set_items];
    (destruct (decide (Path e = p)) as [<-|Hne];
     [rewrite lookup_insert_eq; by intros [= <-]
     |rewrite lookup_insert_ne by done; apply Hk]).
Qed.

Lemma keyed_AddAll es : ∀ q, keyed q → keyed (AddAll q es).
Proof.
  induction es as [|e es IH]; intros q Hk; [done|].
  unfold AddAll in *. simpl. apply IH. by apply keyed_Add.
Qed.

Lemma keyed_markProcessing ps q : keyed q → keyed (markProcessing q ps).
Proof.
  intros Hk p e. rewrite markProcessing_items.
  destruct (decide (p ∈ ps)); [done|apply Hk].
Qed.

Lemma keyed_reinsert batch : ∀ q,
  keyed q → (∀ p e, (p, e) ∈ batch → Path e = p) → keyed (reinsert q batch).
Proof.
  induction batch as [|[a x] b IH]; intros q Hk Hb; [done|].
  unfold reinsert in *. simpl. apply IH.
  - intros p e. simpl. destruct (decide (a = p)) as [<-|Hne].
    + rewrite lookup_insert_eq. intros [= <-]. apply Hb. by left.
    + rewrite lookup_insert_ne by done. apply Hk.
  - intros p e Hin. apply Hb. by right.
Qed.

Lemma keyed_unmarkProcessing ps q : keyed q → keyed (unmarkProcessing q ps).
Proof. intros Hk p e. rewrite unmarkProcessing_items. apply Hk. Qed.

Lemma batch_from_items q order p e :
  order ≡ₚ map_to_list (items q) → (p, e) ∈ selectBatch q order →
  items q !! p = Some e.
Proof.
  intros Hperm Hin. apply elem_of_map_to_list. rewrite <- Hperm.
  unfold selectBatch in Hin. eapply elem_of_sublist; [done|apply sublist_take].
Qed.

(** X2: the pending map is keyed by event path, and every queue operation
    keeps it so: each [Add], and a whole flush whatever the callback
    returns and whatever is added meanwhile. *)
Theorem pending_keyed_by_path (q : PulsePointChangeQueue)
    (order : list (string * ChangeEvent))
    (processFunc : option (list ChangeEvent → option string))
    (events during window : list ChangeEvent) :
  keyed q →
  order ≡ₚ map_to_list (items q) →
  keyed (AddAll q events)
  ∧ keyed (pulsePointProcessBatch q order processFunc during window).
Proof.
  intros Hk Hperm. split; [by apply keyed_AddAll|].
  unfold pulsePointProcessBatch.
  destruct (Nat.eqb (size (items q)) 0); [done|]. cbv zeta.
  apply keyed_unmarkProcessing, keyed_AddAll.
  set (q2 := AddAll (markProcessing q (selectBatch q order).*1) during).
  assert (Hq2 : keyed q2) by by apply keyed_AddAll, keyed_markProcessing.
  destruct processFunc as [f|]; [|done].
  destruct (Nat.ltb 0 _); [|done].
  destruct (f _); [|done].
  apply keyed_reinsert; [done|].
  intros p e Hin. apply Hk. by eapply batch_from_items.
Qed.

Lemma keyed_mkQueue its max batch :
  (∀ p e, (p, e) ∈ its → Path e = p) → keyed (mkQueue its max batch).
Proof.
  intros H p e Hl. apply H. by apply elem_of_list_to_map_2 in Hl.
Qed.

Lemma pending_keyed_by_path_witness :
  Path sample_delete = "a.txt".
Proof.
  refine (proj1 (pending_keyed_by_path
                   (mkQueue [("a.txt", sample_create)] 10000 100)
                   [("a.txt", sample_create)] None [sample_delete] [] [] _ _)
            "a.txt" sample_delete _).
  - apply keyed_mkQueue. intros p e Hin.
    apply list_elem_of_singleton in Hin. by injection Hin as -> ->.
  - vm_compute. reflexivity.
  - vm_compute. reflexivity.
Defined.

(** *** Flushes *)

Lemma markProcessing_processing_other ps : ∀ q p,
  p ∉ ps → processingItems (markProcessing q ps) !! p = processingItems q !! p.
Proof.
  induction ps as [|a ps IH]; intros q p Hn; [done|].
  apply not_elem_of_cons in Hn as [Hne Hn].
  unfold markProcessing in *. simpl. rewrite IH by done. simpl.
  by rewrite lookup_insert_ne.
Qed.

Lemma unmarkProcessing_processing_other ps : ∀ q p,
  p ∉ ps → processingItems (unmarkProcessing q ps) !! p = processingItems q !! p.
Proof.
  induction ps as [|a ps IH]; intros q p Hn; [done|].
  apply not_elem_of_cons in Hn as [Hne Hn].
  unfold unmarkProcessing in *. simpl. rewrite IH by done. simpl.
  by rewrite lookup_delete_ne.
Qed.

Lemma mark_limits ps : ∀ q,
  maxSize (markProcessing q ps) = maxSize q
  ∧ batchSize (markProcessing q ps) = batchSize q.
Proof.
  induction ps as [|a ps IH]; intros q; [done|].
  unfold markProcessing in *. simpl. by destruct (IH (set_items
    (set_processingItems q (<[a:=true]> (processingItems q)))
    (delete a (items q)))) as [-> ->].
Qed.

Lemma reinsert_limits batch : ∀ q,
  maxSize (reinsert q batch) = maxSize q
  ∧ batchSize (reinsert q batch) = batchSize q.
Proof.
  induction batch as [|a b IH]; intros q; [done|].
  unfold reinsert in *. simpl.
  by destruct (IH (set_items q (<[a.1:=a.2]> (items q)))) as [-> ->].
Qed.

Lemma unmark_limits ps : ∀ q,
  maxSize (unmarkProcessing q ps) = maxSize q
  ∧ batchSize (unmarkProcessing q ps) = batchSize q.
Proof.
  induction ps as [|a ps IH]; intros q; [done|].
  unfold unmarkProcessing in *. simpl.
  by destruct (IH (set_processingItems q (delete a (processingItems q))))
    as [-> ->].
Qed.

Lemma queue_eq (q1 q2 : PulsePointChangeQueue) :
  items q1 = items q2 → processingItems q1 = processingItems q2 →
  maxSize q1 = maxSize q2 → batchSize q1 = batchSize q2 → q1 = q2.
Proof. destruct q1, q2. simpl. by intros -> -> -> ->. Qed.

(** The body of a flush whose callback fails, nothing being added
    meanwhile, is the identity on the queue. *)
Lemma failed_flush_identity (q : PulsePointChangeQueue)
    (order : list (string * ChangeEvent))
    (f : list ChangeEvent → option string) (err : string) :
  order ≡ₚ map_to_list (items q) →
  processingItems q = ∅ →
  f (selectBatch q order).*2 = Some err →
  pulsePointProcessBatch q order (Some f) [] [] = q.
Proof.
  intros Hperm Hproc Hf. unfold pulsePointProcessBatch.
  destruct (Nat.eqb (size (items q)) 0) eqn:Hsz; [done|]. cbv zeta.
  rewrite Hf. cbn [AddAll foldl].
  set (batch := selectBatch q order).
  assert (Hnd : NoDup batch.*1) by by apply selectBatch_NoDup.
  set (q1 := markProcessing q batch.*1).
  set (q3 := if Nat.ltb 0 (length batch) then reinsert q1 batch else q1).
  assert (Hitems : items q3 = items q).
  { apply map_eq. intros p. unfold q3.
    destruct (decide (p ∈ batch.*1)) as [Hin|Hin].
    - apply list_elem_of_fmap in Hin as ([p' e] & -> & Hin). simpl.
      assert (Hlen : Nat.ltb 0 (length batch) = true).
      { apply Nat.ltb_lt. destruct batch; [by apply elem_of_nil in Hin|simpl; lia]. }
      rewrite Hlen, (reinsert_lookup batch q1 p' e) by done.
      symmetry. by eapply batch_from_items.
    - assert (Hq1 : items q1 !! p = items q !! p).
      { unfold q1. rewrite markProcessing_items. by rewrite decide_False. }
      destruct (Nat.ltb 0 (length batch)); [|done].
      by rewrite reinsert_lookup_other. }
  assert (Hp3 : processingItems q3 = processingItems q1).
  { unfold q3. destruct (Nat.ltb 0 (length batch)); [|done].
    apply reinsert_processingItems. }
  apply queue_eq.
  - by rewrite unmarkProcessing_items.
  - apply map_eq. intros p. rewrite Hproc, lookup_empty.
    destruct (decide (p ∈ batch.*1)) as [Hin|Hin].
    + by apply unmarkProcessing_processing.
    + rewrite unmarkProcessing_processing_other, Hp3 by done.
      unfold q1. rewrite markProcessing_processing_other by done.
      by rewrite Hproc.
  - rewrite (proj1 (unmark_limits _ _)). unfold q3.
    destruct (Nat.ltb 0 (length batch));
      rewrite ?(proj1 (reinsert_limits _ _)); apply mark_limits.
  - rewrite (proj2 (unmark_limits _ _)). unfold q3.
    destruct (Nat.ltb 0 (length batch));
      rewrite ?(proj2 (reinsert_limits _ _)); apply mark_limits.
Qed.

(** X3: a flush whose callback fails, with nothing processing
    beforehand and nothing added meanwhile.  If the queue is not empty
    and [batch_size] is negative (or beyond what [make] can allocate),
    the flush panics in [make] and nothing is written.  Otherwise it
    leaves the queue exactly as it was: the same pending events under
    the same paths, an empty processing set, the same limits.  A
    [batch_size] between 0 and [maxCap] never panics. *)
Theorem failed_flush_restores_queue (maxCap : Z) (q : PulsePointChangeQueue)
    (order : list (string * ChangeEvent))
    (f : list ChangeEvent → option string) (err : string) :
  order ≡ₚ map_to_list (items q) →
  processingItems q = ∅ →
  f (selectBatch q order).*2 = Some err →
  flush maxCap q order (Some f) [] []
    = (if makePanics maxCap q then None else Some q)
  ∧ (0 ≤ batchSize q ≤ maxCap →
       flush maxCap q order (Some f) [] [] = Some q)
  ∧ (items q ≠ ∅ → batchSize q < 0 →
       flush maxCap q order (Some f) [] [] = None).
Proof.
  intros Hperm Hproc Hf. unfold flush.
  rewrite (failed_flush_identity q order f err Hperm Hproc Hf).
  split; [done|]. split.
  - intros [Hlo Hhi]. unfold makePanics.
    replace (batchSize q <? 0) with false by (symmetry; apply Z.ltb_ge; lia).
    replace (maxCap <? batchSize q) with false
      by (symmetry; apply Z.ltb_ge; lia).
    by rewrite andb_false_r.
  - intros Hne Hneg. unfold makePanics.
    replace (batchSize q <? 0) with true by (symmetry; apply Z.ltb_lt; lia).
    destruct (Nat.eqb_spec (size (items q)) 0) as [Hz|Hz]; [|done].
    by apply map_size_empty_iff in Hz.
Qed.

Lemma failed_flush_restores_queue_witness :
  let q := mkQueue [("a.txt", sample_create)] 10000 100 in
  flush (2 ^ 45) q [("a.txt", sample_create)] (Some always_fail) [] []
  = Some q.
Proof.
  intros q.
  refine (proj1 (proj2 (failed_flush_restores_queue (2 ^ 45) q
                   [("a.txt", sample_create)] always_fail "process failed"
                   _ _ _)) _).
  - vm_compute. reflexivity.
  - reflexivity.
  - reflexivity.
  - vm_compute. split; discriminate.
Defined.

(** X4: a flush whose callback succeeds, or that has no callback at all,
    removes its batch from the queue: no batch path is pending or marked
    as processing afterwards, even if events for those paths arrived
    meanwhile, and the batch never holds more than [batchSize] events. *)
Theorem completed_flush_removes_batch (q : PulsePointChangeQueue)
    (order : list (string * ChangeEvent))
    (processFunc : option (list ChangeEvent → option string))
    (during window : list ChangeEvent) :
  order ≡ₚ map_to_list (items q) →
  callback_ok processFunc (selectBatch q order).*2 →
  let batch := selectBatch q order in
  let q' := pulsePointProcessBatch q order processFunc during window in
  (∀ p, p ∈ batch.*1 → items q' !! p = None ∧ processingItems q' !! p = None)
  ∧ (Z.of_nat (length batch) ≤ Z.max 0 (batchSize q))
  ∧ (0 < batchSize q → items q ≠ ∅ → batch ≠ []).
Proof.
  intros Hperm Hok batch q'. split; [|split].
  - intros p Hp. unfold q', pulsePointProcessBatch.
    destruct (Nat.eqb (size (items q)) 0) eqn:Hsz.
    { apply Nat.eqb_eq, map_size_empty_inv in Hsz.
      rewrite Hsz, map_to_list_empty in Hperm.
      apply Permutation_nil_r in Hperm. subst order.
      unfold batch, selectBatch in Hp. rewrite take_nil in Hp.
      by apply elem_of_nil in Hp. }
    cbv zeta. fold batch.
    set (q2 := AddAll (markProcessing q batch.*1) during).
    assert (Hq3 : (match processFunc with
                   | Some f => if Nat.ltb 0 (length batch)
                               then match f batch.*2 with
                                    | Some _ => reinsert q2 batch
                                    | None => q2
                                    end
                               else q2
                   | None => q2
                   end) = q2).
    { destruct processFunc as [f|]; [|done]. simpl in Hok. fold batch in Hok.
      rewrite Hok. by destruct (Nat.ltb 0 (length batch)). }
    rewrite Hq3. split; [|by apply unmarkProcessing_processing].
    rewrite unmarkProcessing_items.
    assert (Hproc : isProcessing q2 p = true).
    { unfold isProcessing, q2. rewrite AddAll_processingItems.
      by apply markProcessing_processing. }
    rewrite AddAll_lookup_processing by done.
    unfold q2. rewrite AddAll_lookup_processing
      by by apply markProcessing_processing.
    rewrite markProcessing_items. by rewrite decide_True.
  - unfold batch, selectBatch. rewrite length_take. lia.
  - intros Hb Hne Hnil. unfold batch, selectBatch in Hnil.
    destruct order as [|x xs].
    + apply Permutation_nil_l in Hperm. symmetry in Hperm.
      by apply map_to_list_empty_iff in Hperm.
    + destruct (Z.to_nat (batchSize q)) eqn:Hn; [lia|done].
Qed.

Lemma completed_flush_removes_batch_witness :
  let q := mkQueue [("a.txt", sample_create)] 10000 100 in
  let q' := pulsePointProcessBatch q [("a.txt", sample_create)] None
              [sample_delete] [] in
  items q' !! "a.txt" = None ∧ processingItems q' !! "a.txt" = None.
Proof.
  intros q q'.
  refine (proj1 (completed_flush_removes_batch q [("a.txt", sample_create)]
                   None [sample_delete] [] _ _) "a.txt" _).
  - vm_compute. reflexivity.
  - exact I.
  - vm_compute. constructor.
Defined.

(** *** Persistence *)

Section codec.
Variable marshalEvent : ChangeEvent → option string.
Variable unmarshalEvent : string → option ChangeEvent.

Lemma Put_ok bucket key value :
  key ≠ "" → strlen key ≤ MaxKeySize → strlen value ≤ MaxValueSize →
  Put bucket key value = inl (<[key := value]> bucket).
Proof.
  intros Hk Hl Hv. unfold Put.
  destruct (String.eqb_spec key ""); [done|].
  rewrite (proj2 (Z.ltb_ge _ _) Hl), (proj2 (Z.ltb_ge _ _) Hv). done.
Qed.

Lemma putAll_lookup order : ∀ bucket,
  NoDup order.*1 →
  (∀ p e, (p, e) ∈ order → storable marshalEvent p e) →
  ∃ bucket',
    putAll marshalEvent bucket order = inl bucket'
    ∧ ∀ k, bucket' !! k =
           match (list_to_map order : gmap string ChangeEvent) !! k with
           | Some e => marshalEvent e
           | None => bucket !! k
           end.
Proof.
  induction order as [|[p e] rest IH]; intros bucket Hnd Hst.
  - exists bucket. split; [done|]. intros k. simpl. by rewrite lookup_empty.
  - simpl in Hnd. apply NoDup_cons in Hnd as [Hp Hnd].
    destruct (Hst p e) as (data & Hm & Hne & Hl & Hv); [by left|].
    simpl. rewrite Hm, Put_ok by done.
    destruct (IH (<[p := data]> bucket) Hnd) as (b' & -> & Hb').
    { intros p' e' Hin. apply Hst. by right. }
    exists b'. split; [done|]. intros k. rewrite Hb'.
    destruct (decide (p = k)) as [<-|Hpk].
    + rewrite lookup_insert_eq. rewrite (not_elem_of_list_to_map_1 _ p) by done.
      by rewrite lookup_insert_eq.
    + by rewrite !lookup_insert_ne.
Qed.

Lemma loadAll_lookup cursor : ∀ items,
  NoDup cursor.*1 →
  (∀ k v, (k, v) ∈ cursor →
     ∃ event, unmarshalEvent v = Some event ∧ Path event = k) →
  ∀ k, loadAll unmarshalEvent items cursor !! k =
       match (list_to_map cursor : gmap string string) !! k with
       | Some v => unmarshalEvent v
       | None => items !! k
       end.
Proof.
  induction cursor as [|[k0 v0] rest IH]; intros items Hnd Hdec k.
  - simpl. by rewrite lookup_empty.
  - simpl in Hnd. apply NoDup_cons in Hnd as [Hk0 Hnd].
    destruct (Hdec k0 v0) as (ev & Hu & Hpath); [by left|].
    simpl. rewrite Hu, IH; [|done|intros k' v' Hin; apply Hdec; by right].
    rewrite Hpath. destruct (decide (k0 = k)) as [<-|Hne].
    + rewrite lookup_insert_eq. rewrite (not_elem_of_list_to_map_1 _ k0) by done.
      by rewrite lookup_insert_eq.
    + by rewrite !lookup_insert_ne.
Qed.

(** X5: persisting the queue and loading it again gives back the same
    pending events.  For an open database, a codec whose decoding inverts
    its encoding, and pending events that are stored under their own path
    and that bbolt accepts, [pulsePointPersistToDB] succeeds, leaves a
    "Queue" bucket, and [NewPulsePointChangeQueue] over that bucket yields a
    queue with exactly the persisted pending events, an empty processing
    set and the defaulted limits. *)
Theorem persist_then_load (q : PulsePointChangeQueue)
    (order : list (string * ChangeEvent)) (db : DB) :
  (∀ e data, marshalEvent e = Some data → unmarshalEvent data = Some e) →
  opened db = true →
  keyed q →
  (∀ p e, items q !! p = Some e → storable marshalEvent p e) →
  order ≡ₚ map_to_list (items q) →
  (pulsePointPersistToDB marshalEvent q order db).2 = None
  ∧ ∃ bucket,
      buckets (pulsePointPersistToDB marshalEvent q order db).1 !! QueueBucket
        = Some bucket
      ∧ ∀ cursor configMax configBatch,
          cursor ≡ₚ map_to_list bucket →
          NewPulsePointChangeQueue unmarshalEvent
            (pulsePointPersistToDB marshalEvent q order db).1
            configMax configBatch cursor
          = inl {| items := items q; processingItems := ∅;
                   maxSize := defaultMaxSize configMax;
                   batchSize := defaultBatchSize configBatch |}.
Proof.
  intros Hcodec Hopen Hkeyed Hst Hperm.
  assert (Hnd : NoDup order.*1).
  { rewrite Hperm. apply NoDup_fst_map_to_list. }
  assert (Hl2m : (list_to_map order : gmap string ChangeEvent) = items q).
  { rewrite (list_to_map_proper order (map_to_list (items q))) by done.
    apply list_to_map_to_list. }
  destruct (putAll_lookup order ∅ Hnd) as (bucket & Hput & Hb).
  { intros p e Hin. apply Hst. apply elem_of_map_to_list. by rewrite <- Hperm. }
  unfold pulsePointPersistToDB, Update. rewrite Hopen.
  set (tx1 := match DeleteBucket (buckets db) QueueBucket with
              | inl tx' => inl tx'
              | inr err => if decide (err = ErrBucketNotFound)
                           then inl (buckets db) else inr err
              end).
  assert (Htx1 : ∃ t, tx1 = inl t ∧ t !! QueueBucket = None) .
  { unfold tx1, DeleteBucket.
    destruct (buckets db !! QueueBucket) eqn:Hq.
    - eexists. split; [done|]. apply lookup_delete_eq.
    - rewrite decide_True by done. eauto. }
  destruct Htx1 as (t & -> & Ht).
  unfold CreateBucketIfNotExists. simpl String.eqb. cbv iota. rewrite Ht.
  rewrite lookup_insert_eq. simpl default. rewrite Hput. simpl.
  split; [done|]. exists bucket. rewrite lookup_insert_eq. split; [done|].
  intros cursor cm cb Hcur.
  unfold NewPulsePointChangeQueue, pulsePointLoadFromDB. simpl.
  rewrite lookup_insert_eq. f_equal. unfold set_items. simpl. f_equal.
  apply map_eq. intros k.
  assert (Hndc : NoDup cursor.*1).
  { rewrite Hcur. apply NoDup_fst_map_to_list. }
  assert (Hc2m : (list_to_map cursor : gmap string string) = bucket).
  { rewrite (list_to_map_proper cursor (map_to_list bucket)) by done.
    apply list_to_map_to_list. }
  rewrite loadAll_lookup; [|done|].
  - rewrite Hc2m, Hb, Hl2m, lookup_empty.
    destruct (items q !! k) as [e|] eqn:Hk; [|done].
    destruct (Hst k e Hk) as (data & Hm & _). rewrite Hm. by apply Hcodec.
  - intros k' v Hin. rewrite Hcur in Hin. apply elem_of_map_to_list in Hin.
    rewrite Hb, Hl2m, lookup_empty in Hin.
    destruct (items q !! k') as [e|] eqn:Hk; [|done].
    exists e. split; [by apply Hcodec|by apply Hkeyed].
Qed.

End codec.

Lemma persist_then_load_witness :
  let q := mkQueue [("a.txt", sample_create)] 10000 100 in
  (pulsePointPersistToDB (oneEventMarshal sample_create) q
     [("a.txt", sample_create)] openDB).2 = None
  ∧ ∃ bucket,
      buckets (pulsePointPersistToDB (oneEventMarshal sample_create) q
                 [("a.txt", sample_create)] openDB).1 !! QueueBucket
        = Some bucket
      ∧ ∀ cursor configMax configBatch,
          cursor ≡ₚ map_to_list bucket →
          NewPulsePointChangeQueue (oneEventUnmarshal sample_create)
            (pulsePointPersistToDB (oneEventMarshal sample_create) q
               [("a.txt", sample_create)] openDB).1
            configMax configBatch cursor
          = inl {| items := items q; processingItems := ∅;
                   maxSize := defaultMaxSize configMax;
                   batchSize := defaultBatchSize configBatch |}.
Proof.
  intros q.
  apply (persist_then_load (oneEventMarshal sample_create)
           (oneEventUnmarshal sample_create) q [("a.txt", sample_create)] openDB).
  - intros e data. unfold oneEventMarshal, oneEventUnmarshal.
    destruct (decide (e = sample_create)) as [->|]; [|done]. by intros [= <-].
  - reflexivity.
  - apply keyed_mkQueue. intros p e Hin.
    apply list_elem_of_singleton in Hin. by injection Hin as -> ->.
  - intros p e Hl. apply elem_of_list_to_map_2 in Hl.
    apply list_elem_of_singleton in Hl. injection Hl as -> ->.
    exists "{}". repeat split; done.
  - vm_compute. reflexivity.
Defined.

(** X6: [Clear] always empties the pending map and leaves the processing
    set alone, also when it returns an error.  It returns no error exactly
    when the database is open and holds a "Queue" bucket; on an error the
    database is unchanged; on an open database no "Queue" bucket remains,
    so a second [Clear] in a row fails with bbolt's bucket-not-found. *)
Theorem Clear_empties_even_on_error (q : PulsePointChangeQueue) (db : DB) :
  let '(q', db', err) := Clear q db in
  items q' = ∅
  ∧ processingItems q' = processingItems q
  ∧ (err = None ↔ opened db = true ∧ is_Some (buckets db !! QueueBucket))
  ∧ (err ≠ None → db' = db)
  ∧ (opened db = true →
     buckets db' !! QueueBucket = None
     ∧ (Clear q' db').2 = Some ErrBucketNotFound).
Proof.
  unfold Clear, Update, DeleteBucket.
  destruct (opened db) eqn:Hopen.
  - destruct (buckets db !! QueueBucket) as [b|] eqn:Hb; cbn.
    + rewrite lookup_delete_eq. repeat split; eauto; done.
    + rewrite Hopen, Hb. repeat split; try done.
      * intros [_ [? ?]]. done.
  - cbn. repeat split; try done. intros [? _]. done.
Qed.

End queue_store_props.

(** ** The watcher: event types, sent events and the hash cache *)
Module watcher_props.
Import interfaces local local_samples watcher_samples.

Lemma land_pow2 (op k : Z) :
  0 ≤ k → Z.land op (2 ^ k) = if Z.testbit op k then 2 ^ k else 0.
Proof.
  intros Hk. apply Z.bits_inj'. intros n Hn.
  rewrite Z.land_spec, Z.pow2_bits_eqb by done.
  destruct (Z.eqb_spec k n) as [->|Hne].
  - rewrite andb_true_r. destruct (Z.testbit op n) eqn:Hb.
    + by rewrite Z.pow2_bits_true.
    + by rewrite Z.bits_0.
  - rewrite andb_false_r. destruct (Z.testbit op k).
    + by rewrite Z.pow2_bits_false.
    + by rewrite Z.bits_0.
Qed.

Lemma mask_test (op k : Z) :
  0 ≤ k → (Z.land op (2 ^ k) =? 2 ^ k) = Z.testbit op k.
Proof.
  intros Hk. rewrite land_pow2 by done.
  destruct (Z.testbit op k).
  - apply Z.eqb_refl.
  - apply Z.eqb_neq. pose proof (Z.pow_pos_nonneg 2 k). lia.
Qed.

(** X7: the change type of an fsnotify operation is decided by the lowest
    of its five bits that is set: Create before Write before Remove before
    Rename before Chmod, so that a combined operation is reported under one
    type only; it is "unknown" exactly when none of the five bits is set. *)
Theorem event_type_is_lowest_set_bit (op : Z) :
  pulsePointMapEventType op =
    (if Z.testbit op 0 then ChangeTypeCreate
     else if Z.testbit op 1 then ChangeTypeModify
     else if Z.testbit op 2 then ChangeTypeDelete
     else if Z.testbit op 3 then ChangeTypeRename
     else if Z.testbit op 4 then ChangeTypeChmod
     else ChangeTypeUnknown)
  ∧ (pulsePointMapEventType op = ChangeTypeUnknown ↔ Z.land op 31 = 0).
Proof.
  assert (Hmap : pulsePointMapEventType op =
    (if Z.testbit op 0 then ChangeTypeCreate
     else if Z.testbit op 1 then ChangeTypeModify
     else if Z.testbit op 2 then ChangeTypeDelete
     else if Z.testbit op 3 then ChangeTypeRename
     else if Z.testbit op 4 then ChangeTypeChmod
     else ChangeTypeUnknown)).
  { unfold pulsePointMapEventType, fsnotify.Create, fsnotify.Write,
      fsnotify.Remove, fsnotify.Rename, fsnotify.Chmod.
    rewrite <- (mask_test op 0), <- (mask_test op 1), <- (mask_test op 2),
      <- (mask_test op 3), <- (mask_test op 4) by lia.
    reflexivity. }
  split; [exact Hmap|].
  rewrite Hmap.
  assert (H31 : Z.land op 31 = 0 ↔
                Z.testbit op 0 = false ∧ Z.testbit op 1 = false
                ∧ Z.testbit op 2 = false ∧ Z.testbit op 3 = false
                ∧ Z.testbit op 4 = false).
  { change 31 with (Z.ones 5). split.
    - intros H0.
      assert (Hb : ∀ n, 0 ≤ n < 5 → Z.testbit op n = false).
      { intros n Hn.
        pose proof (f_equal (fun z => Z.testbit z n) H0) as Hn0.
        cbv beta in Hn0.
        rewrite Z.land_spec, Z.ones_spec_low, andb_true_r, Z.bits_0 in Hn0 by lia.
        done. }
      repeat split; apply Hb; lia.
    - intros (H0 & H1 & H2 & H3 & H4). apply Z.bits_inj'. intros n Hn.
      rewrite Z.land_spec, Z.bits_0.
      destruct (Z_lt_le_dec n 5) as [Hlt|Hge].
      + assert (n = 0 ∨ n = 1 ∨ n = 2 ∨ n = 3 ∨ n = 4) as Hcases by lia.
        destruct Hcases as [->|[->|[->|[->| ->]]]];
          by rewrite ?H0, ?H1, ?H2, ?H3, ?H4.
      + rewrite Z.ones_spec_high by lia. apply andb_false_r. }
  rewrite H31.
  destruct (Z.testbit op 0), (Z.testbit op 1), (Z.testbit op 2),
    (Z.testbit op 3), (Z.testbit op 4);
    (split; [intros Hd; try discriminate Hd; done
            |intros (? & ? & ? & ? & ?); try discriminate; done]).
Qed.

Section processEvent.
Variable addRecursive :
  string → gmap string bool * gmap string string
         → gmap string bool * gmap string string.

Lemma processEvent_unfold pw event env :
  pulsePointMapEventType (fsnotify.Op event) ≠ ChangeTypeUnknown →
  pulsePointProcessEvent addRecursive pw event env =
    let changeType := pulsePointMapEventType (fsnotify.Op event) in
    let changeEvent :=
      {| Type_ := changeType; Path := fsnotify.Name event; OldPath := "";
         Timestamp := now env; Size := 0; Hash := ""; IsDir := false |} in
    match statBlock pw (fsnotify.Name event) changeType env changeEvent with
    | None => pw
    | Some (hashes, ce) =>
        let '(paths', hashes') :=
          if IsDir ce && String.eqb changeType ChangeTypeCreate
          then addRecursive (fsnotify.Name event) (paths pw, hashes)
          else (paths pw, hashes) in
        {| paths := paths'; fileHashes := hashes';
           eventsChan := if ctxDone env then eventsChan pw
                         else (eventsChan pw ++ [ce])%list |}
    end.
Proof.
  intros Hne. unfold pulsePointProcessEvent.
  by destruct (String.eqb_spec (pulsePointMapEventType (fsnotify.Op event))
                 ChangeTypeUnknown).
Qed.

(** What [statBlock] lets through keeps the path, type, time and empty
    old path of the event it was given; a hash is attached only to a
    regular file, never to a Delete, and is then the one in the cache. *)
Lemma statBlock_shape pw name changeType env ce0 hashes ce :
  statBlock pw name changeType env ce0 = Some (hashes, ce) →
  Type_ ce = Type_ ce0 ∧ Path ce = Path ce0 ∧ OldPath ce = OldPath ce0
  ∧ Timestamp ce = Timestamp ce0
  ∧ (Hash ce = Hash ce0 ∧ hashes = fileHashes pw
     ∨ hash env = Some (Hash ce) ∧ IsDir ce = false
       ∧ changeType ≠ ChangeTypeDelete
       ∧ hashes = <[name := Hash ce]> (fileHashes pw)).
Proof.
  unfold statBlock. intros Hb.
  destruct (stat env) as [info|].
  2:{ injection Hb as <- <-. repeat split; auto. }
  destruct (fi_IsDir info) eqn:Hd; simpl in Hb.
  { injection Hb as <- <-. repeat split; auto. }
  destruct (String.eqb_spec changeType ChangeTypeDelete) as [Hdel|Hdel];
    simpl in Hb.
  { injection Hb as <- <-. repeat split; auto. }
  destruct (hash env) as [h|].
  2:{ injection Hb as <- <-. repeat split; auto. }
  destruct (_ && _) in Hb; [discriminate|].
  injection Hb as <- <-. simpl. repeat split; auto 10.
Qed.

(** X8: one debounced event sends at most one change event.  A sent event
    carries the path of the fsnotify event, the mapped type (never
    "unknown"), the firing time and an empty old path, also for a rename;
    when it carries a hash, that hash was just computed for a regular file
    on a type other than delete, and it is the hash now cached for the
    path. *)
Theorem sent_event_shape (pw : PulsePointWatcher) (event : fsnotify.Event)
    (env : Firing) :
  let pw' := pulsePointProcessEvent addRecursive pw event env in
  eventsChan pw' = eventsChan pw
  ∨ ∃ ce,
      eventsChan pw' = (eventsChan pw ++ [ce])%list
      ∧ Path ce = fsnotify.Name event
      ∧ Type_ ce = pulsePointMapEventType (fsnotify.Op event)
      ∧ Type_ ce ≠ ChangeTypeUnknown
      ∧ OldPath ce = ""
      ∧ Timestamp ce = now env
      ∧ (Hash ce ≠ "" →
         hash env = Some (Hash ce) ∧ IsDir ce = false
         ∧ Type_ ce ≠ ChangeTypeDelete
         ∧ fileHashes pw' !! fsnotify.Name event = Some (Hash ce)).
Proof.
  intros pw'. subst pw'.
  destruct (decide (pulsePointMapEventType (fsnotify.Op event)
                    = ChangeTypeUnknown)) as [Hu|Hu].
  { left. unfold pulsePointProcessEvent. by rewrite Hu. }
  rewrite processEvent_unfold by done. cbv zeta.
  destruct (statBlock _ _ _ _ _) as [[hashes ce]|] eqn:Hb; [|by left].
  apply statBlock_shape in Hb as (Hty & Hpath & Hold & Htime & Hhash).
  simpl in Hty, Hpath, Hold, Htime, Hhash.
  destruct (ctxDone env).
  { left. by destruct (_ && _); [destruct (addRecursive _ _)|]. }
  right. exists ce.
  destruct Hhash as [[Hh ->]|(Hh & Hdir & Hdel & ->)].
  - split; [by destruct (_ && _); [destruct (addRecursive _ _)|]|].
    repeat split; try done; try congruence.
  - rewrite Hdir. simpl.
    repeat split; try done; try congruence.
    apply lookup_insert_eq.
Qed.

(** X9: a processed event of any type other than delete on a regular file
    whose hash could be computed leaves that hash in the cache, so a Modify
    for the same path that finds the same content is dropped: the watcher
    is unchanged and nothing is sent. *)
Theorem repeated_content_not_reported (pw : PulsePointWatcher)
    (event again : fsnotify.Event) (env env2 : Firing)
    (info info2 : FileInfo) (h : string) :
  pulsePointMapEventType (fsnotify.Op event) ≠ ChangeTypeUnknown →
  pulsePointMapEventType (fsnotify.Op event) ≠ ChangeTypeDelete →
  stat env = Some info → fi_IsDir info = false → hash env = Some h →
  fsnotify.Name again = fsnotify.Name event →
  pulsePointMapEventType (fsnotify.Op again) = ChangeTypeModify →
  stat env2 = Some info2 → fi_IsDir info2 = false → hash env2 = Some h →
  let pw1 := pulsePointProcessEvent addRecursive pw event env in
  fileHashes pw1 !! fsnotify.Name event = Some h
  ∧ pulsePointProcessEvent addRecursive pw1 again env2 = pw1.
Proof.
  intros Hu Hdel Hs Hd Hh Hname Hmod Hs2 Hd2 Hh2 pw1.
  assert (Hcache : fileHashes pw1 !! fsnotify.Name event = Some h).
  { subst pw1. rewrite processEvent_unfold by done. cbv zeta.
    unfold statBlock. rewrite Hs, Hd, Hh. simpl.
    destruct (String.eqb_spec (pulsePointMapEventType (fsnotify.Op event))
                ChangeTypeDelete) as [|_]; [done|]. simpl.
    destruct (_ && _) eqn:Hsame.
    - apply andb_true_iff in Hsame as [_ Hsame].
      destruct (fileHashes pw !! fsnotify.Name event) as [old|]; [|done].
      apply String.eqb_eq in Hsame. by subst.
    - simpl. apply lookup_insert_eq. }
  split; [done|].
  unfold pulsePointProcessEvent. rewrite Hmod. simpl.
  rewrite Hname.
  by rewrite (local_props.statBlock_same_hash _ _ _ _ info2 h).
Qed.

(** X10: a debounced Delete never touches the watched paths or the hash
    cache, so the hash of the deleted file stays cached; when the file is
    written again with the content it had, the Modify is dropped and
    nothing is sent for it. *)
Theorem delete_keeps_cached_hash (pw : PulsePointWatcher)
    (del again : fsnotify.Event) (env env2 : Firing)
    (info2 : FileInfo) (h : string) :
  pulsePointMapEventType (fsnotify.Op del) = ChangeTypeDelete →
  fileHashes pw !! fsnotify.Name del = Some h →
  fsnotify.Name again = fsnotify.Name del →
  pulsePointMapEventType (fsnotify.Op again) = ChangeTypeModify →
  stat env2 = Some info2 → fi_IsDir info2 = false → hash env2 = Some h →
  let pw1 := pulsePointProcessEvent addRecursive pw del env in
  paths pw1 = paths pw
  ∧ fileHashes pw1 = fileHashes pw
  ∧ (∀ ce, ce ∈ eventsChan pw1 → ce ∈ eventsChan pw ∨ Hash ce = "")
  ∧ pulsePointProcessEvent addRecursive pw1 again env2 = pw1.
Proof.
  intros Hdel Hc Hname Hmod Hs2 Hd2 Hh2 pw1.
  assert (Hpw1 : paths pw1 = paths pw ∧ fileHashes pw1 = fileHashes pw
                 ∧ ∀ ce, ce ∈ eventsChan pw1 → ce ∈ eventsChan pw ∨ Hash ce = "").
  { subst pw1. unfold pulsePointProcessEvent. rewrite Hdel. simpl.
    unfold statBlock.
    destruct (stat env) as [info|]; simpl.
    - rewrite andb_false_r. simpl. rewrite andb_false_r.
      repeat split; try done.
      intros ce. destruct (ctxDone env); [by left|].
      intros Hin. apply elem_of_app in Hin as [?|Hin]; [by left|].
      apply list_elem_of_singleton in Hin as ->. by right.
    - repeat split; try done.
      intros ce. destruct (ctxDone env); [by left|].
      intros Hin. apply elem_of_app in Hin as [?|Hin]; [by left|].
      apply list_elem_of_singleton in Hin as ->. by right. }
  destruct Hpw1 as (Hp & Hf & He). repeat split; try done.
  unfold pulsePointProcessEvent. rewrite Hmod. simpl.
  rewrite Hname.
  rewrite (local_props.statBlock_same_hash _ _ _ _ info2 h); try done.
  by rewrite Hf.
Qed.

End processEvent.

Lemma repeated_content_not_reported_witness :
  let pw1 := pulsePointProcessEvent (fun _ s => s) sample_watcher created
               (file_firing "0cc175b9" 1700000000) in
  fileHashes pw1 !! fsnotify.Name created = Some "0cc175b9"
  ∧ pulsePointProcessEvent (fun _ s => s) pw1 written
      (file_firing "0cc175b9" 1700000005) = pw1.
Proof.
  apply (repeated_content_not_reported (fun _ s => s) sample_watcher
           created written (file_firing "0cc175b9" 1700000000)
           (file_firing "0cc175b9" 1700000005)
           {| fi_Size := 4; fi_IsDir := false |}
           {| fi_Size := 4; fi_IsDir := false |} "0cc175b9");
    (reflexivity || (vm_compute; discriminate)).
Defined.

Lemma delete_keeps_cached_hash_witness :
  let pw1 := pulsePointProcessEvent (fun _ s => s) sample_watcher removed
               (gone_firing 1700000000) in
  paths pw1 = paths sample_watcher
  ∧ fileHashes pw1 = fileHashes sample_watcher
  ∧ (∀ ce, ce ∈ eventsChan pw1 → ce ∈ eventsChan sample_watcher ∨ Hash ce = "")
  ∧ pulsePointProcessEvent (fun _ s => s) pw1 written
      (file_firing "d41d8cd9" 1700000005) = pw1.
Proof.
  apply (delete_keeps_cached_hash (fun _ s => s) sample_watcher
           removed written (gone_firing 1700000000)
           (file_firing "d41d8cd9" 1700000005)
           {| fi_Size := 4; fi_IsDir := false |} "d41d8cd9");
    reflexivity.
Defined.

End watcher_props.

(** ** The watcher: ignore rules, path removal, debouncing *)
Module local_watch_props.
Import interfaces local local_watch local_watch_samples.

Lemma app_cons c (p r : string) : String c p ++ r = String c (p ++ r).
Proof. reflexivity. Qed.
Lemma prefix_spec (p s : string) :
  String.prefix p s = true ↔ ∃ r, s = p ++ r.
Proof.
  revert s. induction p as [|c p IH]; intros s; simpl.
  - split; [intros _; exists s; reflexivity|].
    intros _. by destruct s.
  - destruct s as [|d s]; simpl.
    + split; [done|intros [r Hr]; discriminate].
    + destruct (Ascii.ascii_dec c d) as [->|Hne].
      * rewrite IH. split; intros [r Hr]; exists r; rewrite app_cons in *;
          congruence.
      * split; [done|]. intros [r Hr]. rewrite app_cons in Hr. congruence.
Qed.

Lemma Contains_spec (s sub : string) :
  Contains s sub = true ↔ ∃ a b, s = a ++ sub ++ b.
Proof.
  induction s as [|c s IH]; cbn [Contains].
  - rewrite orb_false_r, prefix_spec. split.
    + intros [r Hr]. by exists "", r.
    + intros (a & b & Hab). destruct a; [by exists b|discriminate].
  - rewrite orb_true_iff, prefix_spec, IH. split.
    + intros [[r Hr]|(a & b & Hab)].
      * by exists "", r.
      * exists (String c a), b. rewrite app_cons. by rewrite Hab.
    + intros (a & b & Hab). destruct a as [|d a].
      * left. by exists b.
      * right. exists a, b. rewrite app_cons in Hab. congruence.
Qed.

Section ignoring.
Variable Match : string → string → bool.
Variable Base : string → string.

Lemma matchesAny_spec patterns path :
  matchesAny Match Base patterns path = true ↔
  ∃ pattern, pattern ∈ patterns
             ∧ (Match pattern (Base path) = true
                ∨ Contains path pattern = true).
Proof.
  induction patterns as [|p rest IH]; simpl.
  - split; [done|]. intros (p & Hin & _). by apply elem_of_nil in Hin.
  - destruct (Match p (Base path)) eqn:Hm.
    { split; [|done]. intros _. exists p. split; [by left|by left]. }
    destruct (Contains path p) eqn:Hc.
    { split; [|done]. intros _. exists p. split; [by left|by right]. }
    rewrite IH. split.
    + intros (q & Hin & Hq). exists q. split; [by right|done].
    + intros (q & Hin & Hq). apply elem_of_cons in Hin as [->|Hin].
      * destruct Hq; congruence.
      * by exists q.
Qed.

(** X11: a path is ignored exactly when some configured pattern matches
    its base name or occurs anywhere in the path as a substring, or its
    base name is one of the built-in names or starts with a tilde.  So the
    order of the patterns does not matter, the built-in names cannot be
    switched off, and an empty pattern makes the watcher ignore every
    path. *)
Theorem ignore_rule (patterns : list string) (path : string) :
  (pulsePointShouldIgnore Match Base patterns path = true ↔
     (∃ pattern, pattern ∈ patterns
                 ∧ (Match pattern (Base path) = true
                    ∨ ∃ before after, path = before ++ pattern ++ after))
     ∨ Base path ∈ [".DS_Store"; "Thumbs.db"; ".git"]
     ∨ ∃ rest, Base path = "~" ++ rest)
  ∧ ("" ∈ patterns → pulsePointShouldIgnore Match Base patterns path = true).
Proof.
  assert (Hrule : pulsePointShouldIgnore Match Base patterns path = true ↔
     (∃ pattern, pattern ∈ patterns
                 ∧ (Match pattern (Base path) = true
                    ∨ ∃ before after, path = before ++ pattern ++ after))
     ∨ Base path ∈ [".DS_Store"; "Thumbs.db"; ".git"]
     ∨ ∃ rest, Base path = "~" ++ rest).
  { unfold pulsePointShouldIgnore, HasPrefix.
    destruct (matchesAny Match Base patterns path) eqn:Hany.
    - split; [|done]. intros _. left.
      apply matchesAny_spec in Hany as (p & Hin & Hp). exists p.
      split; [done|]. destruct Hp as [?|Hc]; [by left|right].
      by apply Contains_spec.
    - assert (Hno : ¬ ∃ pattern, pattern ∈ patterns
                 ∧ (Match pattern (Base path) = true
                    ∨ ∃ before after, path = before ++ pattern ++ after)).
      { intros (p & Hin & Hp).
        assert (matchesAny Match Base patterns path = true); [|congruence].
        apply matchesAny_spec. exists p. split; [done|].
        destruct Hp as [?|Hc]; [by left|right]. by apply Contains_spec. }
      destruct (String.eqb_spec (Base path) ".DS_Store") as [E1|N1]; simpl.
      { split; [|done]. intros _. right. left. rewrite E1. by left. }
      destruct (String.eqb_spec (Base path) "Thumbs.db") as [E2|N2]; simpl.
      { split; [|done]. intros _. right. left. rewrite E2. right. by left. }
      destruct (String.eqb_spec (Base path) ".git") as [E3|N3]; simpl.
      { split; [|done]. intros _. right. left. rewrite E3.
        right. right. by left. }
      destruct (String.prefix "~" (Base path)) eqn:Hp.
      { split; [|done]. intros _. right. right. by apply prefix_spec. }
      split; [done|]. intros [H|[H|H]].
      + by destruct Hno.
      + apply elem_of_cons in H as [?|H]; [done|].
        apply elem_of_cons in H as [?|H]; [done|].
        apply list_elem_of_singleton in H. done.
      + apply prefix_spec in H. congruence. }
  split; [exact Hrule|].
  intros Hin. apply Hrule. left. exists "". split; [done|].
  right. by exists "", path.
Qed.

End ignoring.

(** *** RemovePath *)

Section removing.
Variable Abs : string → string + string.

Lemma removeWatched_paths absPath pw w p :
  paths (removeWatched absPath pw w) !! p =
    if HasPrefix w absPath && bool_decide (p = w) then None else paths pw !! p.
Proof.
  unfold removeWatched. destruct (HasPrefix w absPath); simpl; [|done].
  case_bool_decide as Hp.
  - subst. apply lookup_delete_eq.
  - by apply lookup_delete_ne.
Qed.

Lemma removeWatched_hashes absPath pw w p :
  fileHashes (removeWatched absPath pw w) !! p =
    if HasPrefix w absPath && bool_decide (p = w) then None
    else fileHashes pw !! p.
Proof.
  unfold removeWatched. destruct (HasPrefix w absPath); simpl; [|done].
  case_bool_decide as Hp.
  - subst. apply lookup_delete_eq.
  - by apply lookup_delete_ne.
Qed.

Lemma removed_cases absPath (w p : string) (l : list string) :
  HasPrefix p absPath && bool_decide (p ∈ w :: l)
  = HasPrefix p absPath && bool_decide (p ∈ l)
    || HasPrefix w absPath && bool_decide (p = w).
Proof.
  destruct (decide (p = w)) as [->|Hne].
  - rewrite (bool_decide_eq_true_2 (w = w)) by done.
    rewrite (bool_decide_eq_true_2 (w ∈ w :: l)) by by left.
    rewrite !andb_true_r.
    by destruct (HasPrefix w absPath), (bool_decide (w ∈ l)).
  - rewrite (bool_decide_eq_false_2 (p = w)) by done.
    rewrite andb_false_r, orb_false_r. f_equal.
    apply bool_decide_ext. rewrite elem_of_cons.
    split; [intros [?|?]; done|by right].
Qed.

Lemma removeWatched_fold absPath (l : list string) : ∀ pw,
  let pw' := foldl (removeWatched absPath) pw l in
  (∀ p, paths pw' !! p =
        if HasPrefix p absPath && bool_decide (p ∈ l) then None
        else paths pw !! p)
  ∧ (∀ p, fileHashes pw' !! p =
          if HasPrefix p absPath && bool_decide (p ∈ l) then None
          else fileHashes pw !! p)
  ∧ eventsChan pw' = eventsChan pw.
Proof.
  induction l as [|w l IH]; intros pw; simpl.
  - repeat split; intros; by rewrite andb_false_r.
  - destruct (IH (removeWatched absPath pw w)) as (Hp & Hh & He).
    split; [|split].
    + intros p. rewrite Hp, removeWatched_paths, removed_cases.
      by destruct (HasPrefix p absPath && bool_decide (p ∈ l)),
        (HasPrefix w absPath && bool_decide (p = w)).
    + intros p. rewrite Hh, removeWatched_hashes, removed_cases.
      by destruct (HasPrefix p absPath && bool_decide (p ∈ l)),
        (HasPrefix w absPath && bool_decide (p = w)).
    + rewrite He. unfold removeWatched. by destruct (HasPrefix w absPath).
Qed.

(** X12: [RemovePath] with a resolvable path returns no error and, in
    whatever order Go visits the map, stops watching every watched path
    that has the absolute path as a string prefix (not only the path and
    what lies below it).  From the hash cache it drops only the entries of
    those watched paths: the hash of a file that is not itself a watched
    path stays cached, also when its directory is removed. *)
Theorem RemovePath_by_string_prefix (pw : PulsePointWatcher)
    (order : list (string * bool)) (path absPath : string) :
  order ≡ₚ map_to_list (paths pw) →
  Abs path = inl absPath →
  let pw' := (RemovePath Abs pw order path).1 in
  (RemovePath Abs pw order path).2 = None
  ∧ (∀ p, paths pw' !! p =
          if HasPrefix p absPath then None else paths pw !! p)
  ∧ (∀ p, fileHashes pw' !! p =
          if HasPrefix p absPath && bool_decide (is_Some (paths pw !! p))
          then None else fileHashes pw !! p)
  ∧ (∀ p, paths pw !! p = None → fileHashes pw' !! p = fileHashes pw !! p)
  ∧ eventsChan pw' = eventsChan pw.
Proof.
  intros Hperm Habs pw'. subst pw'. unfold RemovePath. rewrite Habs. simpl.
  destruct (removeWatched_fold absPath order.*1 pw) as (Hp & Hh & He).
  assert (Hkeys : ∀ p, p ∈ order.*1 ↔ is_Some (paths pw !! p)).
  { intros p. rewrite Hperm, list_elem_of_fmap. split.
    - intros ([k v] & -> & Hin). apply elem_of_map_to_list in Hin. eauto.
    - intros [v Hv]. exists (p, v). split; [done|].
      by apply elem_of_map_to_list. }
  assert (Hhashes : ∀ p, fileHashes
      (foldl (removeWatched absPath) pw order.*1) !! p =
        if HasPrefix p absPath && bool_decide (is_Some (paths pw !! p))
        then None else fileHashes pw !! p).
  { intros p. rewrite Hh.
    by rewrite (bool_decide_ext _ _ (Hkeys p)). }
  split; [done|]. split; [|split; [exact Hhashes|split; [|done]]].
  - intros p. rewrite Hp, (bool_decide_ext _ _ (Hkeys p)).
    destruct (HasPrefix p absPath); simpl; [|done].
    destruct (paths pw !! p) eqn:Hl.
    + by rewrite bool_decide_eq_true_2.
    + by destruct (bool_decide _).
  - intros p Hnone. rewrite Hhashes, Hnone.
    rewrite bool_decide_eq_false_2; [by rewrite andb_false_r|].
    by intros [? ?].
Qed.

End removing.

Lemma RemovePath_by_string_prefix_witness :
  let pw' := (RemovePath absSame two_dirs [("/w", true); ("/w2", true)] "/w").1 in
  (RemovePath absSame two_dirs [("/w", true); ("/w2", true)] "/w").2 = None
  ∧ (∀ p, paths pw' !! p =
          if HasPrefix p "/w" then None else paths two_dirs !! p)
  ∧ (∀ p, fileHashes pw' !! p =
          if HasPrefix p "/w" && bool_decide (is_Some (paths two_dirs !! p))
          then None else fileHashes two_dirs !! p)
  ∧ (∀ p, paths two_dirs !! p = None →
          fileHashes pw' !! p = fileHashes two_dirs !! p)
  ∧ eventsChan pw' = eventsChan two_dirs.
Proof.
  apply (RemovePath_by_string_prefix absSame two_dirs
           [("/w", true); ("/w2", true)] "/w" "/w").
  - vm_compute. apply perm_swap.
  - reflexivity.
Defined.

(** *** Debouncing *)

Section debouncing.
Variable Match : string → string → bool.
Variable Base : string → string.
Variable addRecursive :
  string → gmap string bool * gmap string string
         → gmap string bool * gmap string string.

#[local] Abbreviation handle := (pulsePointHandleEvent Match Base).
#[local] Abbreviation ignored w name :=
  (pulsePointShouldIgnore Match Base (ignorePatterns w) name).

Lemma handle_ignorePatterns w ev :
  ignorePatterns (handle w ev) = ignorePatterns w.
Proof.
  unfold pulsePointHandleEvent. by destruct (pulsePointShouldIgnore _ _ _ _).
Qed.

Lemma handle_watcher w ev : watcher (handle w ev) = watcher w.
Proof.
  unfold pulsePointHandleEvent. by destruct (pulsePointShouldIgnore _ _ _ _).
Qed.

Lemma stopped_lookup w name t ev :
  match debounceTimers w !! name with
  | Some timer => delete timer (armed w)
  | None => armed w
  end !! t = Some ev →
  armed w !! t = Some ev ∧ debounceTimers w !! name ≠ Some t.
Proof.
  destruct (debounceTimers w !! name) as [old|]; [|done].
  intros Hl. apply lookup_delete_Some in Hl as [Hne Hl].
  split; [done|congruence].
Qed.

Lemma tidy_fresh w ev : tidy w → armed w !! timersMade w = Some ev → False.
Proof.
  intros [H1 H2] Hl. apply H1, H2 in Hl as [Hlt _]. lia.
Qed.

Lemma tidy_handle w ev : tidy w → tidy (handle w ev).
Proof.
  intros Ht. pose proof Ht as [H1 H2]. unfold pulsePointHandleEvent.
  destruct (pulsePointShouldIgnore _ _ _ _); [done|].
  split; simpl.
  - intros t e Hl. destruct (decide (t = timersMade w)) as [->|Hne].
    + rewrite lookup_insert_eq in Hl. injection Hl as <-.
      apply lookup_insert_eq.
    + rewrite lookup_insert_ne in Hl by done.
      apply stopped_lookup in Hl as [Hl Hold].
      destruct (decide (fsnotify.Name e = fsnotify.Name ev)) as [Heq|Hnm].
      * apply H1 in Hl. rewrite Heq in Hl. done.
      * rewrite lookup_insert_ne by done. by apply H1.
  - intros name t Hl.
    destruct (decide (fsnotify.Name ev = name)) as [<-|Hnm].
    + rewrite lookup_insert_eq in Hl. injection Hl as <-.
      split; [lia|]. intros e He. rewrite lookup_insert_eq in He. congruence.
    + rewrite lookup_insert_ne in Hl by done.
      destruct (H2 _ _ Hl) as [Hlt Hown]. split; [lia|].
      intros e He. rewrite lookup_insert_ne in He by lia.
      apply stopped_lookup in He as [He _]. by apply Hown.
Qed.

Lemma tidy_complete_run w t ev env :
  tidy w → armed w !! t = Some ev →
  tidy (timerCleansUp (timerFires addRecursive w t env) t).
Proof.
  intros Ht Ha. pose proof Ht as [H1 H2]. unfold timerFires. rewrite Ha.
  unfold timerCleansUp. simpl. rewrite lookup_insert_eq. split; simpl.
  - intros t2 e2 Hl. apply lookup_delete_Some in Hl as [Hne Hl].
    pose proof (H1 _ _ Hl) as Hreg. pose proof (H1 _ _ Ha) as Hreg'.
    rewrite lookup_delete_ne; [done|].
    intros Heq. rewrite Heq in Hreg'. congruence.
  - intros name t2 Hl. apply lookup_delete_Some in Hl as [Hne Hl].
    destruct (H2 _ _ Hl) as [Hlt Hown]. split; [done|].
    intros e He. apply lookup_delete_Some in He as [_ He]. by apply Hown.
Qed.

Lemma tidy_one_per_path w t1 t2 e1 e2 :
  tidy w → armed w !! t1 = Some e1 → armed w !! t2 = Some e2 →
  fsnotify.Name e1 = fsnotify.Name e2 → t1 = t2 ∧ e1 = e2.
Proof.
  intros [H1 _] Ha1 Ha2 Heq.
  apply H1 in Ha1 as Hr1. apply H1 in Ha2 as Hr2.
  rewrite Heq in Hr1. assert (t1 = t2) as -> by congruence.
  split; [done|congruence].
Qed.

Lemma lastFor_snoc name events ev :
  lastFor name (events ++ [ev]) =
    if decide (fsnotify.Name ev = name) then Some ev else lastFor name events.
Proof.
  unfold lastFor. rewrite filter_app, filter_cons, filter_nil.
  destruct (decide (fsnotify.Name ev = name)).
  - apply last_snoc.
  - by rewrite app_nil_r.
Qed.

Lemma lastFor_name name events ev :
  lastFor name events = Some ev → fsnotify.Name ev = name.
Proof.
  unfold lastFor. intros Hl. apply last_Some_elem_of in Hl.
  by apply list_elem_of_filter in Hl as [? _].
Qed.

Lemma handle_burst w events :
  tidy w →
  let w' := foldl handle w events in
  tidy w'
  ∧ watcher w' = watcher w
  ∧ ignorePatterns w' = ignorePatterns w
  ∧ ∀ name ev,
      ignored w name = false → lastFor name events = Some ev →
      ∃ t, debounceTimers w' !! name = Some t ∧ armed w' !! t = Some ev.
Proof.
  intros Ht. induction events as [|e events IH] using rev_ind.
  - simpl. split; [done|]. split; [done|]. split; [done|].
    intros name ev _ Hl. discriminate Hl.
  - rewrite foldl_app. simpl. destruct IH as (Ht' & Hw & Hpat & Hlast).
    split; [by apply tidy_handle|].
    split; [by rewrite handle_watcher|].
    split; [by rewrite handle_ignorePatterns|].
    intros name ev Hign Hl. rewrite lastFor_snoc in Hl.
    set (w1 := foldl handle w events) in *.
    destruct (decide (fsnotify.Name e = name)) as [Hnm|Hnm].
    + injection Hl as <-. unfold pulsePointHandleEvent.
      rewrite Hpat, Hnm, Hign. simpl.
      exists (timersMade w1). by rewrite !lookup_insert_eq.
    + destruct (Hlast name ev Hign Hl) as (t & Hreg & Ha).
      exists t. unfold pulsePointHandleEvent.
      destruct (pulsePointShouldIgnore Match Base (ignorePatterns w1)
                  (fsnotify.Name e)); [done|]. simpl.
      destruct Ht' as [H1 H2]. destruct (H2 _ _ Hreg) as [Hlt Hown].
      rewrite lookup_insert_ne by done. split; [done|].
      rewrite lookup_insert_ne by lia.
      destruct (debounceTimers w1 !! fsnotify.Name e) as [old|] eqn:Hold;
        [|done].
      rewrite lookup_delete_ne; [done|]. intros ->.
      destruct (H2 _ _ Hold) as [_ Hown'].
      pose proof (Hown' _ Ha). pose proof (Hown _ Ha). congruence.
Qed.

(** X13: debouncing coalesces a burst.  Starting from a watcher in which
    every timer that can still fire is the one registered for its path
    (as in a new watcher), handling any sequence of fsnotify events
    processes nothing and sends nothing, keeps that property, and leaves
    at most one timer per path that can still fire; for every path that
    is not ignored, that timer carries the last event of the burst for the
    path.  A timer function that runs to its clean-up before the next
    event is handled keeps the property too. *)
Theorem burst_leaves_one_timer (w : Watching) (events : list fsnotify.Event) :
  tidy w →
  let w' := foldl handle w events in
  tidy w'
  ∧ watcher w' = watcher w
  ∧ (∀ t1 t2 e1 e2,
       armed w' !! t1 = Some e1 → armed w' !! t2 = Some e2 →
       fsnotify.Name e1 = fsnotify.Name e2 → t1 = t2 ∧ e1 = e2)
  ∧ (∀ name ev,
       ignored w name = false → lastFor name events = Some ev →
       ∃ t, debounceTimers w' !! name = Some t ∧ armed w' !! t = Some ev)
  ∧ (∀ t ev env,
       armed w' !! t = Some ev →
       tidy (timerCleansUp (timerFires addRecursive w' t env) t)).
Proof.
  intros Ht w'. destruct (handle_burst w events Ht) as (Ht' & Hw & _ & Hlast).
  fold w' in Ht', Hw, Hlast.
  split; [done|]. split; [done|].
  split; [intros t1 t2 e1 e2; by apply tidy_one_per_path|].
  split; [done|].
  intros t ev env Ha. by apply (tidy_complete_run w' t ev).
Qed.

(** X14: the clean-up of a timer function deletes the entry of its path,
    whichever timer is registered there.  When an event for the same path
    is handled between the start of a timer function and its clean-up, the
    clean-up unregisters the new timer; the next event for the path then
    stops nothing, and two timers for the one path are left to fire, one
    for each of the two events. *)
Theorem cleanup_unregisters_newer_timer (w : Watching) (t : nat)
    (ev e2 e3 : fsnotify.Event) (env : Firing) :
  tidy w →
  armed w !! t = Some ev →
  ignored w (fsnotify.Name ev) = false →
  fsnotify.Name e2 = fsnotify.Name ev →
  fsnotify.Name e3 = fsnotify.Name ev →
  let w1 := timerFires addRecursive w t env in
  let w2 := handle w1 e2 in
  let w3 := timerCleansUp w2 t in
  let w4 := handle w3 e3 in
  debounceTimers w3 !! fsnotify.Name ev = None
  ∧ armed w4 !! timersMade w = Some e2
  ∧ armed w4 !! S (timersMade w) = Some e3
  ∧ ¬ tidy w4.
Proof.
  intros Ht Ha Hign Hn2 Hn3 w1 w2 w3 w4.
  pose proof Ht as [H1 H2]. pose proof (H1 _ _ Ha) as Hreg.
  destruct (H2 _ _ Hreg) as [Hlt _].
  assert (Hw3 : debounceTimers w3 !! fsnotify.Name ev = None
                ∧ armed w3 !! timersMade w = Some e2
                ∧ timersMade w3 = S (timersMade w)
                ∧ ignorePatterns w3 = ignorePatterns w).
  { subst w3 w2 w1. unfold timerFires. rewrite Ha.
    unfold pulsePointHandleEvent. simpl. rewrite Hn2, Hign. simpl.
    unfold timerCleansUp. simpl.
    rewrite lookup_insert_eq. simpl.
    rewrite lookup_delete_eq, lookup_insert_eq. done. }
  destruct Hw3 as (Hnone & Ha2 & Hmade & Hpat).
  assert (Hw4 : armed w4 !! timersMade w = Some e2
                ∧ armed w4 !! S (timersMade w) = Some e3).
  { subst w4. unfold pulsePointHandleEvent.
    rewrite Hpat, Hn3, Hign, Hnone, Hmade. simpl.
    rewrite lookup_insert_ne by lia. rewrite lookup_insert_eq. done. }
  destruct Hw4 as [Hb1 Hb2]. repeat split; try done.
  intros Ht4.
  destruct (tidy_one_per_path w4 _ _ _ _ Ht4 Hb1 Hb2) as [Heq _];
    [congruence|lia].
Qed.

End debouncing.

Lemma tidy_NewWatching : tidy NewWatching.
Proof. split; intros *; simpl; by rewrite lookup_empty. Qed.

Lemma burst_leaves_one_timer_witness :
  let events := [watcher_samples.created; watcher_samples.written] in
  let w' := foldl (pulsePointHandleEvent literalMatch baseName) NewWatching
              events in
  tidy w'
  ∧ watcher w' = watcher NewWatching
  ∧ (∀ t1 t2 e1 e2,
       armed w' !! t1 = Some e1 → armed w' !! t2 = Some e2 →
       fsnotify.Name e1 = fsnotify.Name e2 → t1 = t2 ∧ e1 = e2)
  ∧ (∀ name ev,
       pulsePointShouldIgnore literalMatch baseName
         (ignorePatterns NewWatching) name = false →
       lastFor name events = Some ev →
       ∃ t, debounceTimers w' !! name = Some t ∧ armed w' !! t = Some ev)
  ∧ (∀ t ev env,
       armed w' !! t = Some ev →
       tidy (timerCleansUp (timerFires (fun _ s => s) w' t env) t)).
Proof.
  apply (burst_leaves_one_timer literalMatch baseName (fun _ s => s)
           NewWatching [watcher_samples.created; watcher_samples.written]).
  apply tidy_NewWatching.
Defined.

Lemma tidy_one_armed : tidy one_armed.
Proof.
  split; unfold one_armed; simpl.
  - intros t ev Hl. apply lookup_singleton_Some in Hl as [<- <-]. done.
  - intros name t Hl. apply lookup_singleton_Some in Hl as [<- <-].
    split; [lia|]. intros ev Hl.
    apply lookup_singleton_Some in Hl as [_ <-]. done.
Qed.

Lemma cleanup_unregisters_newer_timer_witness :
  let w1 := timerFires (fun _ s => s) one_armed 0
              (watcher_samples.file_firing "0cc175b9" 1700000000) in
  let w2 := pulsePointHandleEvent literalMatch baseName w1
              watcher_samples.written in
  let w3 := timerCleansUp w2 0 in
  let w4 := pulsePointHandleEvent literalMatch baseName w3
              watcher_samples.created in
  debounceTimers w3 !! "/w/a.txt" = None
  ∧ armed w4 !! 1%nat = Some watcher_samples.written
  ∧ armed w4 !! 2%nat = Some watcher_samples.created
  ∧ ¬ tidy w4.
Proof.
  apply (cleanup_unregisters_newer_timer literalMatch baseName (fun _ s => s)
           one_armed 0 watcher_samples.written watcher_samples.written
           watcher_samples.created
           (watcher_samples.file_firing "0cc175b9" 1700000000)).
  - apply tidy_one_armed.
  - reflexivity.
  - reflexivity.
  - reflexivity.
  - reflexivity.
Defined.

End local_watch_props.

(** ** Strategies: accounting, deletions and the size limit *)
Module strategies_log_props.
Import interfaces pperrors strategies strategies_log strategy_samples.

Lemma wrap64_idem z : wrap64 (wrap64 z) = wrap64 z.
Proof.
  unfold wrap64.
  rewrite Z.sub_add, Z.mod_mod by lia. done.
Qed.

Lemma wrap64_plus a b : wrap64 (wrap64 a + b) = wrap64 (a + b).
Proof.
  unfold wrap64.
  replace ((a + 2 ^ 63) mod 2 ^ 64 - 2 ^ 63 + b + 2 ^ 63)
    with ((a + 2 ^ 63) mod 2 ^ 64 + b) by lia.
  rewrite Zplus_mod_idemp_l. f_equal. f_equal. lia.
Qed.

Section loops.
Context {P : Type}.
Variable clock : nat → Z.
Variable step : Run P → ChangeEvent → Run P * option error.
Variable clears : bool.
Variable weight : ChangeEvent → Z.
Variable mayFail : ChangeEvent → bool.

#[local] Abbreviation loop :=
  (foldl (fun s change =>
            let '(s', err) := step s change in
            match err with
            | Some e => recordFailure clock clears s' change e
            | None => s'
            end)).

Hypothesis step_frame : ∀ s c,
  FilesProcessed (result (step s c).1)
    = add64 (FilesProcessed (result s)) (weight c)
  ∧ Errors (result (step s c).1) = Errors (result s)
  ∧ FilesDownloaded (result (step s c).1) = FilesDownloaded (result s)
  ∧ StartTime (result (step s c).1) = StartTime (result s)
  ∧ ((step s c).2 ≠ None → mayFail c = true).

Lemma loop_summary changes : ∀ s,
  wrap64 (FilesProcessed (result s)) = FilesProcessed (result s) →
  let s' := loop s changes in
  FilesProcessed (result s')
    = wrap64 (FilesProcessed (result s) + counted weight changes)
  ∧ FilesDownloaded (result s') = FilesDownloaded (result s)
  ∧ StartTime (result s') = StartTime (result s)
  ∧ ∃ new, Errors (result s') = (Errors (result s) ++ new)%list
           ∧ errorKey <$> new `sublist_of` changeKey <$> filter mayFail changes.
Proof.
  induction changes as [|c cs IH]; intros s Hrange; simpl.
  - rewrite Z.add_0_r. repeat split; try done.
    exists []. by rewrite app_nil_r.
  - destruct (step_frame s c) as (Hp & He & Hd & Hs & Hf).
    destruct (step s c) as [s1 err] eqn:Hstep. simpl in *.
    set (s2 := match err with
               | Some e => recordFailure clock clears s1 c e
               | None => s1
               end).
    assert (Hres : FilesProcessed (result s2) = FilesProcessed (result s1)
                   ∧ FilesDownloaded (result s2) = FilesDownloaded (result s1)
                   ∧ StartTime (result s2) = StartTime (result s1)).
    { subst s2. by destruct err. }
    destruct Hres as (Hrp & Hrd & Hrs).
    destruct (IH s2) as (Hp2 & Hd2 & Hs2 & new & He2 & Hsub).
    { rewrite Hrp, Hp. apply wrap64_idem. }
    split; [|split; [congruence|split; [congruence|]]].
    + rewrite Hp2, Hrp, Hp. unfold add64. rewrite wrap64_plus.
      f_equal. lia.
    + subst s2. destruct err as [e|].
      * exists ({| se_Path := Path c; se_Operation := Type_ c;
                   se_Message := Error e;
                   se_Timestamp := clock (ticks s1) |} :: new).
        split.
        -- rewrite He2. simpl. rewrite He, <- app_assoc. done.
        -- rewrite filter_cons, Hf by done. simpl.
           by apply sublist_skip.
      * exists new. split; [by rewrite He2, He|].
        rewrite filter_cons. destruct (decide (mayFail c)); [|done].
        simpl. by apply sublist_cons.
Qed.

Hypothesis step_ticks : ∀ s c, ticks (step s c).1 = ticks s.

Lemma loop_timestamps changes : ∀ s,
  let s' := loop s changes in
  ∃ new, Errors (result s') = (Errors (result s) ++ new)%list
         ∧ ticks s' = (ticks s + length new)%nat
         ∧ se_Timestamp <$> new = clock <$> seq (ticks s) (length new).
Proof.
  induction changes as [|c cs IH]; intros s; simpl.
  - exists []. rewrite app_nil_r. simpl. repeat split; try done; lia.
  - destruct (step_frame s c) as (_ & He & _).
    pose proof (step_ticks s c) as Ht.
    destruct (step s c) as [s1 err] eqn:Hstep. simpl in *.
    destruct err as [e|].
    + destruct (IH (recordFailure clock clears s1 c e))
        as (new & He2 & Ht2 & Hts).
      exists ({| se_Path := Path c; se_Operation := Type_ c;
                 se_Message := Error e;
                 se_Timestamp := clock (ticks s1) |} :: new).
      split; [|split].
      * rewrite He2. simpl. rewrite He, <- app_assoc. done.
      * rewrite Ht2. simpl. lia.
      * rewrite fmap_cons. cbn [length seq]. rewrite fmap_cons.
        f_equal; [simpl; by rewrite Ht|].
        rewrite Hts. simpl. by rewrite Ht.
    + destruct (IH s1) as (new & He2 & Ht2 & Hts).
      exists new. rewrite He2, Ht2, Hts, He, Ht. done.
Qed.

End loops.

(** A loop whose steps only append to the call log, each change adding
    what [g] says to the part of the log that [f] reads. *)
Section logs.
Context {P A : Type}.
Variable clock : nat → Z.
Variable step : Run P → ChangeEvent → Run P * option error.
Variable clears : bool.
Variable f : list ProviderCall → list A.
Variable g : ChangeEvent → list A.

Hypothesis step_log : ∀ s c, f (calls (step s c).1) = (f (calls s) ++ g c)%list.

Lemma loop_log changes : ∀ s,
  f (calls (foldl (fun s change =>
                     let '(s', err) := step s change in
                     match err with
                     | Some e => recordFailure clock clears s' change e
                     | None => s'
                     end) s changes))
  = (f (calls s) ++ flat_map g changes)%list.
Proof.
  induction changes as [|c cs IH]; intros s; simpl.
  - by rewrite app_nil_r.
  - pose proof (step_log s c) as Hl.
    destruct (step s c) as [s1 [e|]]; simpl in Hl;
      rewrite IH; simpl; by rewrite Hl, <- app_assoc.
Qed.

End logs.

Section invariants.
Context {P : Type}.
Variable clock : nat → Z.
Variable step : Run P → ChangeEvent → Run P * option error.
Variable clears : bool.
Variable I : Run P → Prop.

Hypothesis step_keeps : ∀ s c, I s → I (step s c).1.
Hypothesis failure_keeps : ∀ s c e, I s → I (recordFailure clock clears s c e).

Lemma loop_keeps changes : ∀ s,
  I s →
  I (foldl (fun s change =>
              let '(s', err) := step s change in
              match err with
              | Some e => recordFailure clock clears s' change e
              | None => s'
              end) s changes).
Proof.
  induction changes as [|c cs IH]; intros s Hs; simpl; [done|].
  apply IH. pose proof (step_keeps s c Hs) as H1.
  destruct (step s c) as [s1 [e|]]; simpl in H1; [|done].
  by apply failure_keeps.
Qed.

End invariants.

Lemma counted_one (changes : list ChangeEvent) :
  counted (fun _ => 1) changes = Z.of_nat (length changes).
Proof.
  induction changes as [|c cs IH]; simpl; [done|]. rewrite IH. lia.
Qed.

Lemma filter_all {A} (l : list A) : filter (fun _ => true) l = l.
Proof.
  induction l as [|x l IH]; [done|].
  rewrite filter_cons_True by done. by rewrite IH.
Qed.

Section generic.
Context {P : Type}.
Variable provider : CloudProvider P.
Variable clock : nat → Z.
Variable config : StrategyConfig.

Ltac crush_step :=
  unfold oneway.processChange, mirror.processChange, uploadFile,
    oneway.deleteFile, mirror.deleteFile, callUpload, callDelete;
  repeat (case_match; simpl in *; simplify_eq); try done.

Lemma oneway_step_frame s c :
  FilesProcessed (result (oneway.processChange provider config s c).1)
    = add64 (FilesProcessed (result s)) 1
  ∧ Errors (result (oneway.processChange provider config s c).1)
    = Errors (result s)
  ∧ FilesDownloaded (result (oneway.processChange provider config s c).1)
    = FilesDownloaded (result s)
  ∧ StartTime (result (oneway.processChange provider config s c).1)
    = StartTime (result s)
  ∧ ((oneway.processChange provider config s c).2 ≠ None → true = true).
Proof. repeat split; crush_step. Qed.

Lemma oneway_step_ticks s c :
  ticks (oneway.processChange provider config s c).1 = ticks s.
Proof. crush_step. Qed.

Lemma mirror_step_frame s c :
  FilesProcessed (result (mirror.processChange provider config s c).1)
    = add64 (FilesProcessed (result s)) 1
  ∧ Errors (result (mirror.processChange provider config s c).1)
    = Errors (result s)
  ∧ FilesDownloaded (result (mirror.processChange provider config s c).1)
    = FilesDownloaded (result s)
  ∧ StartTime (result (mirror.processChange provider config s c).1)
    = StartTime (result s)
  ∧ ((mirror.processChange provider config s c).2 ≠ None → true = true).
Proof. repeat split; crush_step. Qed.

Lemma mirror_step_ticks s c :
  ticks (mirror.processChange provider config s c).1 = ticks s.
Proof. crush_step. Qed.

#[local] Abbreviation one := (fun _ : ChangeEvent => 1).
#[local] Abbreviation always := (fun _ : ChangeEvent => true).

Lemma oneway_accounted p0 changes :
  let r := result (oneway.Sync provider clock config p0 changes) in
  accounted clock one always changes r ∧ timed clock r.
Proof.
  unfold oneway.Sync. cbn zeta. fold (startRun clock p0).
  unfold oneway.processAll.
  destruct (loop_summary clock (oneway.processChange provider config) true
              one always oneway_step_frame changes (startRun clock p0))
    as (Hp & Hd & Hs & new & He & Hsub); [done|].
  destruct (loop_timestamps clock (oneway.processChange provider config) true
              one always oneway_step_frame oneway_step_ticks changes
              (startRun clock p0)) as (new' & He' & Ht & Hts).
  simpl in He, He', Ht, Hts. assert (new' = new) as -> by congruence.
  unfold accounted, timed. simpl. rewrite He, Ht, Hts. simpl.
  repeat split; try done.
Qed.

Lemma mirror_accounted p0 source changes :
  let r := result (mirror.Sync provider clock config p0 source changes) in
  accounted clock one always changes r ∧ timed clock r.
Proof.
  unfold mirror.Sync. cbn zeta. fold (startRun clock p0).
  unfold mirror.processAll.
  destruct (loop_summary clock (mirror.processChange provider config) true
              one always mirror_step_frame changes (startRun clock p0))
    as (Hp & Hd & Hs & new & He & Hsub); [done|].
  destruct (loop_timestamps clock (mirror.processChange provider config) true
              one always mirror_step_frame mirror_step_ticks changes
              (startRun clock p0)) as (new' & He' & Ht & Hts).
  simpl in He, He', Ht, Hts. assert (new' = new) as -> by congruence.
  unfold mirror.cleanupRemote, callList.
  destruct (List provider _ "/") as [p [fs [e|]]];
    unfold accounted, timed; simpl; rewrite He, Ht, Hts; simpl;
    repeat split; done.
Qed.

(** X15: the bookkeeping of a one-way and of a mirror [Sync], whatever the
    provider answers.  [FilesProcessed] is the number of changes (in Go's
    [int]); every error entry carries the path and type of one of the
    changes, in the order of the changes and at most one per change;
    nothing is counted as downloaded; the clock is read once at the start,
    once for each error entry and once at the end, and these readings are
    the start time, the error timestamps and the end time. *)
Theorem sync_accounting (p0 : P) (source : string) (changes : list ChangeEvent) :
  let r := result (oneway.Sync provider clock config p0 changes) in
  let m := result (mirror.Sync provider clock config p0 source changes) in
  (FilesProcessed r = wrap64 (Z.of_nat (length changes))
   ∧ errorKey <$> Errors r `sublist_of` changeKey <$> changes
   ∧ FilesDownloaded r = 0
   ∧ StartTime r = clock 0%nat
   ∧ se_Timestamp <$> Errors r = clock <$> seq 1%nat (length (Errors r))
   ∧ EndTime r = clock (S (length (Errors r))))
  ∧ (FilesProcessed m = wrap64 (Z.of_nat (length changes))
     ∧ errorKey <$> Errors m `sublist_of` changeKey <$> changes
     ∧ FilesDownloaded m = 0
     ∧ StartTime m = clock 0%nat
     ∧ se_Timestamp <$> Errors m = clock <$> seq 1%nat (length (Errors m))
     ∧ EndTime m = clock (S (length (Errors m)))).
Proof.
  intros r m.
  destruct (oneway_accounted p0 changes) as [(H1 & H2 & H3 & H4) [H5 H6]].
  destruct (mirror_accounted p0 source changes)
    as [(M1 & M2 & M3 & M4) [M5 M6]].
  fold r in H1, H2, H3, H4, H5, H6. fold m in M1, M2, M3, M4, M5, M6.
  rewrite counted_one in H1, M1. rewrite filter_all in H2, M2.
  repeat split; done.
Qed.

(** *** Deletions *)

Lemma deletesOf_app cs1 cs2 :
  deletesOf (cs1 ++ cs2) = (deletesOf cs1 ++ deletesOf cs2)%list.
Proof. apply omap_app. Qed.

Lemma uploadFile_deletes s c :
  deletesOf (calls (uploadFile provider config s c).1) = deletesOf (calls s).
Proof.
  unfold uploadFile, callUpload.
  destruct (exceedsLimit config c); [done|].
  destruct (Upload provider (prov s) _) as [p [e|]]; simpl;
    rewrite deletesOf_app; simpl; by rewrite app_nil_r.
Qed.

Lemma oneway_deleteFile_deletes s c :
  deletesOf (calls (oneway.deleteFile provider s c).1)
  = (deletesOf (calls s) ++ [Path c])%list.
Proof.
  unfold oneway.deleteFile, callDelete.
  destruct (Delete provider (prov s) _) as [p [e|]]; simpl;
    by rewrite deletesOf_app.
Qed.

Lemma mirror_deleteFile_deletes s c :
  deletesOf (calls (mirror.deleteFile provider s c).1)
  = (deletesOf (calls s) ++ [Path c])%list.
Proof.
  unfold mirror.deleteFile, callDelete.
  destruct (Delete provider (prov s) _) as [p [e|]]; simpl;
    [destruct (IsNotFoundError e)|]; simpl; by rewrite deletesOf_app.
Qed.

Lemma type_cases (c : ChangeEvent) :
  String.eqb (Type_ c) ChangeTypeCreate || String.eqb (Type_ c) ChangeTypeModify
    = true →
  String.eqb (Type_ c) ChangeTypeDelete = false
  ∧ String.eqb (Type_ c) ChangeTypeRename = false.
Proof.
  intros H. apply orb_true_iff in H as [H|H]; apply String.eqb_eq in H;
    rewrite H; done.
Qed.

Lemma delete_not_rename (c : ChangeEvent) :
  String.eqb (Type_ c) ChangeTypeDelete = true →
  String.eqb (Type_ c) ChangeTypeRename = false.
Proof. intros H. apply String.eqb_eq in H. by rewrite H. Qed.

Lemma oneway_step_deletes s c :
  deletesOf (calls (oneway.processChange provider config s c).1)
  = (deletesOf (calls s) ++ deletedBy (PreserveDeleted config) c)%list.
Proof.
  unfold oneway.processChange, deletedBy.
  set (s0 := with_result s (incProcessed (result s))).
  destruct (_ || _) eqn:Hup.
  { destruct (type_cases c Hup) as [-> ->].
    by rewrite uploadFile_deletes, app_nil_r. }
  destruct (String.eqb (Type_ c) ChangeTypeDelete) eqn:Hdel.
  { destruct (PreserveDeleted config); simpl; [by rewrite app_nil_r|].
    by rewrite oneway_deleteFile_deletes. }
  destruct (String.eqb (Type_ c) ChangeTypeRename); simpl;
    [|by rewrite app_nil_r].
  pose proof (oneway_deleteFile_deletes s0 (deleteEvent (OldPath c))) as Hd.
  destruct (oneway.deleteFile _ _ _) as [s1 [e|]]; simpl in *; [done|].
  by rewrite uploadFile_deletes.
Qed.

Lemma mirror_step_deletes s c :
  deletesOf (calls (mirror.processChange provider config s c).1)
  = (deletesOf (calls s) ++ deletedBy false c)%list.
Proof.
  unfold mirror.processChange, deletedBy.
  set (s0 := with_result s (incProcessed (result s))).
  destruct (_ || _) eqn:Hup.
  { destruct (type_cases c Hup) as [-> ->].
    by rewrite uploadFile_deletes, app_nil_r. }
  destruct (String.eqb (Type_ c) ChangeTypeDelete) eqn:Hdel.
  { by rewrite mirror_deleteFile_deletes. }
  destruct (String.eqb (Type_ c) ChangeTypeRename); simpl;
    [|by rewrite app_nil_r].
  pose proof (mirror_deleteFile_deletes s0 (deleteEvent (OldPath c))) as Hd.
  destruct (mirror.deleteFile _ _ _) as [s1 [e|]]; simpl in *; [done|].
  by rewrite uploadFile_deletes.
Qed.

(** X16: what a one-way and a mirror [Sync] ask the provider to delete
    does not depend on what the provider answers.  One-way deletes the
    path of every Delete change unless [preserve_deleted] is set, and the
    old path of every Rename change whether it is set or not; mirror
    deletes both and never looks at [preserve_deleted]; nothing else is
    deleted, and the deletions come in the order of the changes. *)
Theorem delete_calls (p0 : P) (source : string) (changes : list ChangeEvent) :
  deletesOf (calls (oneway.Sync provider clock config p0 changes))
    = flat_map (deletedBy (PreserveDeleted config)) changes
  ∧ deletesOf (calls (mirror.Sync provider clock config p0 source changes))
    = flat_map (deletedBy false) changes.
Proof.
  split.
  - unfold oneway.Sync, oneway.processAll. cbn zeta. simpl.
    by rewrite (loop_log clock (oneway.processChange provider config) true
                  deletesOf (deletedBy (PreserveDeleted config))
                  oneway_step_deletes).
  - unfold mirror.Sync, mirror.processAll, mirror.cleanupRemote, callList.
    cbn zeta.
    destruct (List provider _ "/") as [p [fs [e|]]]; simpl;
      rewrite deletesOf_app; simpl; rewrite app_nil_r;
      by rewrite (loop_log clock (mirror.processChange provider config) true
                    deletesOf (deletedBy false) mirror_step_deletes).
Qed.

(** *** The size limit *)

Lemma within_snoc cs c :
  within_limit config cs →
  match c with
  | CallUpload f => f_Size f ≤ MaxFileSize config
  | _ => True
  end →
  within_limit config (cs ++ [c]).
Proof.
  intros Hcs Hc f Hin. apply elem_of_app in Hin as [Hin|Hin]; [by apply Hcs|].
  apply list_elem_of_singleton in Hin. by subst c.
Qed.

Lemma not_exceeds c :
  0 < MaxFileSize config → exceedsLimit config c = false →
  Size c ≤ MaxFileSize config.
Proof.
  unfold exceedsLimit. intros Hpos Hlim.
  apply andb_false_iff in Hlim as [H|H]; lia.
Qed.

Lemma uploadFile_within s c :
  0 < MaxFileSize config →
  within_limit config (calls s) →
  within_limit config (calls (uploadFile provider config s c).1).
Proof.
  intros Hpos Hs. unfold uploadFile, callUpload.
  destruct (exceedsLimit config c) eqn:Hlim; [done|].
  destruct (Upload provider (prov s) _) as [p [e|]]; simpl;
    apply within_snoc; try done; simpl; by apply not_exceeds.
Qed.

Lemma oneway_step_within s c :
  0 < MaxFileSize config →
  within_limit config (calls s) →
  within_limit config (calls (oneway.processChange provider config s c).1).
Proof.
  intros Hpos Hs. unfold oneway.processChange.
  set (s0 := with_result s (incProcessed (result s))).
  assert (H0 : within_limit config (calls s0)) by done.
  destruct (_ || _); [by apply uploadFile_within|].
  assert (Hdel : ∀ s1 c1, within_limit config (calls s1) →
            within_limit config (calls (oneway.deleteFile provider s1 c1).1)).
  { intros s1 c1 H1. unfold oneway.deleteFile, callDelete.
    destruct (Delete provider (prov s1) _) as [p [e|]]; simpl;
      by apply within_snoc. }
  destruct (String.eqb (Type_ c) ChangeTypeDelete).
  { destruct (PreserveDeleted config); [done|]. by apply Hdel. }
  destruct (String.eqb (Type_ c) ChangeTypeRename); [|done].
  pose proof (Hdel s0 (deleteEvent (OldPath c)) H0) as Hd.
  destruct (oneway.deleteFile _ _ _) as [s1 [e|]]; simpl in *; [done|].
  by apply uploadFile_within.
Qed.

Lemma mirror_step_within s c :
  0 < MaxFileSize config →
  within_limit config (calls s) →
  within_limit config (calls (mirror.processChange provider config s c).1).
Proof.
  intros Hpos Hs. unfold mirror.processChange.
  set (s0 := with_result s (incProcessed (result s))).
  assert (H0 : within_limit config (calls s0)) by done.
  destruct (_ || _); [by apply uploadFile_within|].
  assert (Hdel : ∀ s1 c1, within_limit config (calls s1) →
            within_limit config (calls (mirror.deleteFile provider s1 c1).1)).
  { intros s1 c1 H1. unfold mirror.deleteFile, callDelete.
    destruct (Delete provider (prov s1) _) as [p [e|]]; simpl;
      [destruct (IsNotFoundError e)|]; simpl; by apply within_snoc. }
  destruct (String.eqb (Type_ c) ChangeTypeDelete); [by apply Hdel|].
  destruct (String.eqb (Type_ c) ChangeTypeRename); [|done].
  pose proof (Hdel s0 (deleteEvent (OldPath c)) H0) as Hd.
  destruct (mirror.deleteFile _ _ _) as [s1 [e|]]; simpl in *; [done|].
  by apply uploadFile_within.
Qed.

Lemma oneway_within p0 changes :
  0 < MaxFileSize config →
  within_limit config (calls (oneway.Sync provider clock config p0 changes)).
Proof.
  intros Hpos. unfold oneway.Sync, oneway.processAll. cbn zeta. simpl.
  apply (loop_keeps clock (oneway.processChange provider config) true
           (fun s => within_limit config (calls s))).
  - intros s c. by apply oneway_step_within.
  - done.
  - intros f Hin. by apply elem_of_nil in Hin.
Qed.

Lemma mirror_within p0 source changes :
  0 < MaxFileSize config →
  within_limit config
    (calls (mirror.Sync provider clock config p0 source changes)).
Proof.
  intros Hpos. unfold mirror.Sync, mirror.processAll, mirror.cleanupRemote,
    callList. cbn zeta.
  assert (Hloop : within_limit config
            (calls (foldl (fun s change =>
                             let '(s', err) :=
                               mirror.processChange provider config s change in
                             match err with
                             | Some e => recordFailure clock true s' change e
                             | None => s'
                             end) (startRun clock p0) changes))).
  { apply (loop_keeps clock (mirror.processChange provider config) true
             (fun s => within_limit config (calls s))).
    - intros s c. by apply mirror_step_within.
    - done.
    - intros f Hin. by apply elem_of_nil in Hin. }
  unfold startRun in Hloop.
  destruct (List provider _ "/") as [p [fs [e|]]]; simpl;
    by apply within_snoc.
Qed.

End generic.

(** *** Backup *)
Section backup.
Context {P : Type}.
Variable provider : CloudProvider P.
Variable clock : nat → Z.
Variable config : StrategyConfig.
Variable formatTime : Z → string.
Variables fDir fBase fExt : string → string.
Variable fJoin : string → string → string.

#[local] Abbreviation backupStep ts :=
  (fun s c => backup.processChange provider clock config fDir fBase fExt fJoin
                s c ts).
#[local] Abbreviation twiceIfDelete :=
  (fun c : ChangeEvent => if isDelete c then 2 else 1).
#[local] Abbreviation notDelete := (fun c : ChangeEvent => negb (isDelete c)).

Ltac crush_backup :=
  unfold backup.backupFile, backup.markDeleted,
    backup.markMoved, callUpload, callGetMetadata, timeNow;
  repeat (case_match; simpl in *; simplify_eq); try done.

(** The result fields that [backupFile] and [markMoved] leave alone. *)
#[local] Abbreviation kept r :=
  (FilesProcessed r, Errors r, FilesDownloaded r, StartTime r, FilesDeleted r).

Lemma backupFile_kept s c ts :
  kept (result (backup.backupFile provider config fDir fBase fExt fJoin
                  s c ts).1) = kept (result s).
Proof. crush_backup. Qed.

Lemma markMoved_kept s old new ts :
  kept (result (backup.markMoved provider clock s old new ts).1)
  = kept (result s)
  ∧ (backup.markMoved provider clock s old new ts).2 = None.
Proof. crush_backup. Qed.

Lemma markDeleted_kept s c ts :
  FilesProcessed (result (backup.markDeleted provider clock s c ts).1)
    = add64 (FilesProcessed (result s)) 1
  ∧ Errors (result (backup.markDeleted provider clock s c ts).1)
    = Errors (result s)
  ∧ FilesDownloaded (result (backup.markDeleted provider clock s c ts).1)
    = FilesDownloaded (result s)
  ∧ StartTime (result (backup.markDeleted provider clock s c ts).1)
    = StartTime (result s)
  ∧ FilesDeleted (result (backup.markDeleted provider clock s c ts).1)
    = FilesDeleted (result s)
  ∧ (backup.markDeleted provider clock s c ts).2 = None.
Proof. repeat split; crush_backup. Qed.

Lemma backup_step_all ts s c :
  FilesProcessed (result (backupStep ts s c).1)
    = add64 (FilesProcessed (result s)) (twiceIfDelete c)
  ∧ Errors (result (backupStep ts s c).1) = Errors (result s)
  ∧ FilesDownloaded (result (backupStep ts s c).1) = FilesDownloaded (result s)
  ∧ StartTime (result (backupStep ts s c).1) = StartTime (result s)
  ∧ FilesDeleted (result (backupStep ts s c).1) = FilesDeleted (result s)
  ∧ ((backupStep ts s c).2 ≠ None → notDelete c = true).
Proof.
  assert (Htwice : ∀ x, add64 (add64 x 1) 1 = add64 x 2).
  { intros x. unfold add64. rewrite wrap64_plus. f_equal. lia. }
  unfold backup.processChange, isDelete.
  set (s0 := with_result s (incProcessed (result s))).
  destruct (String.eqb_spec (Type_ c) ChangeTypeDelete) as [Hdel|Hdel].
  - rewrite Hdel. simpl.
    destruct (markDeleted_kept s0 c ts) as (H1 & H2 & H3 & H4 & H5 & H6).
    rewrite H1, H2, H3, H4, H5, H6. simpl. rewrite Htwice. done.
  - destruct (_ || _).
    { pose proof (backupFile_kept s0 c ts) as Hk.
      injection Hk as -> -> -> -> ->. done. }
    destruct (String.eqb (Type_ c) ChangeTypeRename); [|done].
    destruct (markMoved_kept s0 (OldPath c) (Path c) ts) as [Hk Hn].
    destruct (backup.markMoved _ _ _ _ _ _) as [s1 err]. simpl in *.
    subst err. pose proof (backupFile_kept s1 c ts) as Hk1.
    injection Hk as Hk'1 Hk'2 Hk'3 Hk'4 Hk'5.
    injection Hk1 as -> -> -> -> ->.
    rewrite Hk'1, Hk'2, Hk'3, Hk'4, Hk'5. done.
Qed.

Lemma backup_step_frame ts s c :
  FilesProcessed (result (backupStep ts s c).1)
    = add64 (FilesProcessed (result s)) (twiceIfDelete c)
  ∧ Errors (result (backupStep ts s c).1) = Errors (result s)
  ∧ FilesDownloaded (result (backupStep ts s c).1) = FilesDownloaded (result s)
  ∧ StartTime (result (backupStep ts s c).1) = StartTime (result s)
  ∧ ((backupStep ts s c).2 ≠ None → notDelete c = true).
Proof.
  destruct (backup_step_all ts s c) as (H1 & H2 & H3 & H4 & _ & H6). done.
Qed.

Lemma backup_step_deleted ts s c :
  FilesDeleted (result (backupStep ts s c).1) = FilesDeleted (result s).
Proof. by destruct (backup_step_all ts s c) as (_ & _ & _ & _ & H5 & _). Qed.

Lemma counted_twice (changes : list ChangeEvent) :
  counted twiceIfDelete changes
  = Z.of_nat (length changes) + Z.of_nat (length (filter isDelete changes)).
Proof.
  induction changes as [|c cs IH]; simpl; [done|].
  rewrite IH, filter_cons. destruct (isDelete c); simpl; lia.
Qed.

(** X17: the bookkeeping of a backup [Sync], whatever the provider
    answers.  A Delete change is counted twice in [FilesProcessed], every
    other change once; nothing is ever counted as deleted or downloaded;
    the error entries are about changes other than Delete, in their order
    and at most one per change, so a marker that could not be written for
    a deleted file is not reported. *)
Theorem backup_accounting (p0 : P) (changes : list ChangeEvent) :
  let r := result (backup.Sync provider clock config formatTime
                     fDir fBase fExt fJoin p0 changes) in
  FilesProcessed r
    = wrap64 (Z.of_nat (length changes)
              + Z.of_nat (length (filter isDelete changes)))
  ∧ errorKey <$> Errors r `sublist_of` changeKey <$> filter notDelete changes
  ∧ FilesDeleted r = 0
  ∧ FilesDownloaded r = 0
  ∧ StartTime r = clock 0%nat.
Proof.
  unfold backup.Sync, backup.processAll. cbn zeta.
  set (ts := backup.sessionTimestamp clock formatTime).
  set (s0 := {| prov := p0; calls := []; ticks := 2;
                result := emptyResult (clock 0%nat) |}).
  destruct (loop_summary clock (backupStep ts) false twiceIfDelete notDelete
              (backup_step_frame ts) changes s0)
    as (Hp & Hd & Hs & new & He & Hsub); [done|].
  assert (Hdel : FilesDeleted (result
            (foldl (fun s change =>
                      let '(s', err) := backupStep ts s change in
                      match err with
                      | Some e => recordFailure clock false s' change e
                      | None => s'
                      end) s0 changes)) = 0).
  { apply (loop_keeps clock (backupStep ts) false
             (fun s => FilesDeleted (result s) = 0)); [|done|done].
    intros s c Hs0. by rewrite backup_step_deleted. }
  simpl in *. rewrite Hp, He, counted_twice. repeat split; done.
Qed.

Lemma backup_step_within ts s c :
  0 < MaxFileSize config →
  within_limit config (calls s) →
  within_limit config (calls (backupStep ts s c).1).
Proof.
  intros Hpos Hs.
  assert (Hfile : ∀ s1, within_limit config (calls s1) →
            within_limit config
              (calls (backup.backupFile provider config fDir fBase fExt fJoin
                        s1 c ts).1)).
  { intros s1 H1. unfold backup.backupFile.
    destruct (exceedsLimit config c) eqn:Hlim; [done|].
    pose proof (not_exceeds config c Hpos Hlim) as Hsize.
    unfold callGetMetadata, callUpload.
    destruct (VersionControl config).
    - destruct (GetMetadata provider (prov s1) (Path c)) as [p [md err]].
      destruct err, md; simpl;
        destruct (Upload provider p _) as [p' [e'|]]; simpl;
        by repeat apply within_snoc.
    - destruct (Upload provider (prov s1) _) as [p' [e'|]]; simpl;
        by apply within_snoc. }
  assert (Hmark : ∀ (s1 : Run P) path,
            within_limit config (calls s1) →
            within_limit config
              (calls s1 ++ [CallUpload (backup.markerFile path
                                          (clock (ticks s1)))])).
  { intros s1 path H1. apply within_snoc; [done|]. simpl. lia. }
  unfold backup.processChange.
  set (s0 := with_result s (incProcessed (result s))).
  assert (H0 : within_limit config (calls s0)) by done.
  destruct (_ || _); [by apply Hfile|].
  destruct (String.eqb (Type_ c) ChangeTypeDelete).
  { unfold backup.markDeleted, callUpload, timeNow. simpl.
    destruct (Upload provider (prov s) _) as [p' e]. simpl.
    by apply (Hmark s0). }
  destruct (String.eqb (Type_ c) ChangeTypeRename); [|done].
  unfold backup.markMoved, callUpload, timeNow. simpl.
  destruct (Upload provider (prov s) _) as [p' e]. simpl.
  apply Hfile. simpl. by apply (Hmark s0).
Qed.

Lemma backup_within p0 changes :
  0 < MaxFileSize config →
  within_limit config
    (calls (backup.Sync provider clock config formatTime fDir fBase fExt fJoin
              p0 changes)).
Proof.
  intros Hpos. unfold backup.Sync, backup.processAll. cbn zeta. simpl.
  apply (loop_keeps clock
           (backupStep (backup.sessionTimestamp clock formatTime)) false
           (fun s => within_limit config (calls s))).
  - intros s c. by apply backup_step_within.
  - done.
  - intros f Hin. by apply elem_of_nil in Hin.
Qed.

(** X18: with a positive [max_file_size], no strategy ever hands the
    provider a file larger than the limit, whatever the changes and
    whatever the provider answers; the markers of the backup strategy are
    empty files. *)
Theorem uploads_within_limit (p0 : P) (source : string)
    (changes : list ChangeEvent) :
  0 < MaxFileSize config →
  within_limit config (calls (oneway.Sync provider clock config p0 changes))
  ∧ within_limit config
      (calls (mirror.Sync provider clock config p0 source changes))
  ∧ within_limit config
      (calls (backup.Sync provider clock config formatTime
                fDir fBase fExt fJoin p0 changes)).
Proof.
  intros Hpos. split; [|split].
  - by apply oneway_within.
  - by apply mirror_within.
  - by apply backup_within.
Qed.

(** X19: a remote file that is already gone.  When the provider answers
    a deletion with an error that carries status 404, mirror takes the
    Delete change as done without counting a deletion, and on a Rename
    goes on to upload the new path; one-way reports the same answer as a
    failure of the change, and on a Rename stops before the upload. *)
Theorem missing_remote_file (s : Run P) (c : ChangeEvent) (p : P) (e : error) :
  PreserveDeleted config = false →
  IsNotFoundError e = true →
  (Type_ c = ChangeTypeDelete →
   Delete provider (prov s) (Path c) = (p, Some e) →
   (mirror.processChange provider config s c).2 = None
   ∧ FilesDeleted (result (mirror.processChange provider config s c).1)
     = FilesDeleted (result s)
   ∧ (oneway.processChange provider config s c).2
     = Some (NewSyncError ("failed to delete " ++ Path c) (Some e)))
  ∧ (Type_ c = ChangeTypeRename →
     Delete provider (prov s) (OldPath c) = (p, Some e) →
     mirror.processChange provider config s c
       = uploadFile provider config
           {| prov := p; calls := (calls s ++ [CallDelete (OldPath c)])%list;
              ticks := ticks s; result := incProcessed (result s) |} c
     ∧ (oneway.processChange provider config s c).2
       = Some (NewSyncError ("failed to delete " ++ OldPath c) (Some e))
     ∧ calls (oneway.processChange provider config s c).1
       = (calls s ++ [CallDelete (OldPath c)])%list).
Proof.
  intros Hpres Hnf. split.
  - intros Hty Hdel.
    unfold mirror.processChange, oneway.processChange, mirror.deleteFile,
      oneway.deleteFile, callDelete.
    rewrite Hty, Hpres. simpl. rewrite Hdel, Hnf. done.
  - intros Hty Hdel.
    unfold mirror.processChange, oneway.processChange, mirror.deleteFile,
      oneway.deleteFile, callDelete.
    rewrite Hty. simpl. rewrite Hdel, Hnf. done.
Qed.

End backup.

Lemma uploads_within_limit_witness :
  let changes := [change ChangeTypeCreate "big.bin" "" 20;
                  change ChangeTypeModify "a.txt" "" 4; sample_rename] in
  within_limit limit10 (calls (oneway.Sync memProvider tickClock limit10 [] changes))
  ∧ within_limit limit10
      (calls (mirror.Sync memProvider tickClock limit10 [] "/src" changes))
  ∧ within_limit limit10
      (calls (backup.Sync memProvider tickClock limit10 fmtTime
                dirDot baseId extTxt joinSlash [] changes)).
Proof.
  apply (uploads_within_limit memProvider tickClock limit10 fmtTime
           dirDot baseId extTxt joinSlash [] "/src").
  reflexivity.
Defined.

Lemma missing_remote_file_witness :
  let c := change ChangeTypeDelete "gone.txt" "" 0 in
  let s := startRun tickClock ([] : list File) in
  (mirror.processChange memProvider noLimit s c).2 = None
  ∧ FilesDeleted (result (mirror.processChange memProvider noLimit s c).1)
    = FilesDeleted (result s)
  ∧ (oneway.processChange memProvider noLimit s c).2
    = Some (NewSyncError ("failed to delete " ++ Path c) (Some notFound)).
Proof.
  intros c s.
  refine (proj1 (missing_remote_file memProvider noLimit s c [] notFound
                   _ _) _ _); reflexivity.
Defined.

End strategies_log_props.

(** ** From the watcher to the strategies *)
Module watcher_strategy_props.
Import interfaces pperrors local strategies strategies_log watcher_samples
  strategy_samples.

Section rename.
Context {P : Type}.
Variable provider : CloudProvider P.
Variable config : StrategyConfig.
Variable addRecursive :
  string → gmap string bool * gmap string string
         → gmap string bool * gmap string string.

(** X20: a rename reported by the watcher reaches the one-way strategy
    without its old path.  When the send is not cut off by the context, a
    debounced Rename is always sent, with the path of the fsnotify event
    and an empty old path; processing it, one-way first asks the provider
    to delete the empty path, also under [preserve_deleted], and when that
    call fails the change fails and nothing is uploaded. *)
Theorem watcher_rename_has_no_old_path (pw : PulsePointWatcher)
    (event : fsnotify.Event) (env : Firing) (s : Run P) :
  pulsePointMapEventType (fsnotify.Op event) = ChangeTypeRename →
  ctxDone env = false →
  ∃ ce,
    eventsChan (pulsePointProcessEvent addRecursive pw event env)
      = (eventsChan pw ++ [ce])%list
    ∧ Type_ ce = ChangeTypeRename
    ∧ Path ce = fsnotify.Name event
    ∧ OldPath ce = ""
    ∧ (∃ rest,
         calls (oneway.processChange provider config s ce).1
           = (calls s ++ CallDelete "" :: rest)%list
         ∧ ((Delete provider (prov s) "").2 ≠ None →
            rest = []
            ∧ (oneway.processChange provider config s ce).2 ≠ None)).
Proof.
  intros Hty Hctx.
  assert (Hsent : ∃ ce,
    eventsChan (pulsePointProcessEvent addRecursive pw event env)
      = (eventsChan pw ++ [ce])%list
    ∧ Type_ ce = ChangeTypeRename
    ∧ Path ce = fsnotify.Name event
    ∧ OldPath ce = "").
  { unfold pulsePointProcessEvent. rewrite Hty. simpl.
    unfold statBlock. rewrite Hctx.
    destruct (stat env) as [info|]; simpl.
    - destruct (fi_IsDir info); simpl.
      + rewrite ?andb_false_r. eexists. split; [reflexivity|done].
      + destruct (hash env) as [h|]; simpl;
          eexists; (split; [reflexivity|done]).
    - eexists. split; [reflexivity|done]. }
  destruct Hsent as (ce & Hchan & Hce & Hpath & Hold).
  exists ce. repeat split; try done.
  unfold oneway.processChange, oneway.deleteFile, callDelete.
  rewrite Hce, Hold. simpl.
  destruct (Delete provider (prov s) "") as [p [e|]] eqn:Hdel; simpl.
  - exists []. split; [done|]. intros _. split; done.
  - unfold uploadFile, callUpload. simpl.
    destruct (exceedsLimit config ce).
    + exists []. split; [done|]. intros Hne. by destruct Hne.
    + destruct (Upload provider p _) as [p' [e|]]; simpl;
        (eexists; split; [by rewrite <- app_assoc|]);
        intros Hne; by destruct Hne.
Qed.

End rename.

Lemma watcher_rename_has_no_old_path_witness :
  ∃ ce,
    eventsChan (pulsePointProcessEvent (fun _ s => s) local_samples.sample_watcher
                  renamed (gone_firing 1700000000))
      = (eventsChan local_samples.sample_watcher ++ [ce])%list
    ∧ Type_ ce = ChangeTypeRename
    ∧ Path ce = fsnotify.Name renamed
    ∧ OldPath ce = ""
    ∧ (∃ rest,
         calls (oneway.processChange memProvider limit10
                  (startRun tickClock []) ce).1
           = (calls (startRun tickClock ([] : list File))
              ++ CallDelete "" :: rest)%list
         ∧ ((Delete memProvider (prov (startRun tickClock [])) "").2 ≠ None →
            rest = []
            ∧ (oneway.processChange memProvider limit10
                 (startRun tickClock []) ce).2 ≠ None)).
Proof.
  apply (watcher_rename_has_no_old_path memProvider limit10 (fun _ s => s)
           local_samples.sample_watcher renamed (gone_firing 1700000000)
           (startRun tickClock [])); reflexivity.
Defined.

End watcher_strategy_props.

(** ** The state manager over the database *)
Module statestore_props.
Import pperrors database bolt statemgr statestore statestore_samples.

Lemma createAll_spec names : ∀ tx,
  Forall (fun n => n ≠ "") names →
  ∃ tx', createAll tx names = inl tx'
         ∧ ∀ n, tx' !! n = if decide (n ∈ names)
                           then Some (default ∅ (tx !! n)) else tx !! n.
Proof.
  induction names as [|name rest IH]; intros tx Hne; cbn [createAll].
  - exists tx. split; [done|]. intros n.
    case_decide as Hin; [by apply elem_of_nil in Hin|done].
  - apply Forall_cons in Hne as [Hname Hrest].
    unfold CreateBucketIfNotExists.
    destruct (String.eqb_spec name ""); [done|].
    set (tx1 := match tx !! name with
                | Some _ => tx
                | None => <[name := ∅]> tx
                end).
    assert (Htx1 : ∀ n, tx1 !! n = if decide (n = name)
                                   then Some (default ∅ (tx !! n))
                                   else tx !! n).
    { intros m. unfold tx1. destruct (decide (m = name)) as [->|Hm].
      - destruct (tx !! name) eqn:Hl; [by rewrite Hl|].
        by rewrite lookup_insert_eq.
      - destruct (tx !! name); [done|]. by rewrite lookup_insert_ne. }
    assert (Hcreate : match tx !! name with
                      | Some _ => inl tx
                      | None => inl (<[name := ∅]> tx)
                      end = (inl tx1 : _ + BoltError)).
    { unfold tx1. by destruct (tx !! name). }
    rewrite Hcreate.
    destruct (IH tx1 Hrest) as (tx' & -> & Hl).
    exists tx'. split; [done|]. intros m. rewrite Hl, Htx1.
    destruct (decide (m = name)) as [->|Hm].
    + destruct (decide (name ∈ name :: rest)) as [_|Hn];
        [|by destruct Hn; left].
      by destruct (decide (name ∈ rest)).
    + destruct (decide (m ∈ rest)) as [Hin|Hin];
        destruct (decide (m ∈ name :: rest)) as [Hin'|Hin']; try done.
      * destruct Hin'. by right.
      * apply elem_of_cons in Hin' as [?|?]; done.
Qed.

Lemma Initialize_spec db :
  opened db = true →
  (Initialize db).2 = None
  ∧ opened (Initialize db).1 = true
  ∧ ∀ n, buckets (Initialize db).1 !! n
         = if decide (n ∈ [BucketState; BucketFileState; BucketTransactions])
           then Some (default ∅ (buckets db !! n)) else buckets db !! n.
Proof.
  intros Hopen. unfold Initialize, Update. rewrite Hopen.
  destruct (createAll_spec [BucketState; BucketFileState; BucketTransactions]
              (buckets db)) as (tx' & -> & Hl).
  { by repeat constructor. }
  done.
Qed.

Lemma writeKey_spec db bucketName missing key data bucket :
  opened db = true →
  buckets db !! bucketName = Some bucket →
  key ≠ "" → strlen key ≤ MaxKeySize → strlen data ≤ MaxValueSize →
  Update ErrDatabaseNotOpen db (writeKey bucketName missing key data)
  = ({| opened := true;
        buckets := <[bucketName := <[key := data]> bucket]> (buckets db) |},
     None).
Proof.
  intros Hopen Hb Hk Hks Hds. unfold Update, writeKey, Put.
  rewrite Hopen, Hb.
  destruct (String.eqb_spec key ""); [done|].
  rewrite (proj2 (Z.ltb_ge _ _) Hks), (proj2 (Z.ltb_ge _ _) Hds). done.
Qed.

Lemma toInterface_fromInterface i :
  state.toInterface (fromInterface i) = i.
Proof. by destruct i. Qed.

Lemma toFileState_toModelFile f : toFileState (toModelFile f) = f.
Proof. by destruct f. Qed.

Section state.
Variable marshalSyncState : state.SyncState → string + error.
Variable unmarshalSyncState : string → state.SyncState + error.

(** X21: a saved state is the state that is loaded.  On an open database
    that the manager has initialised, [SaveState] of a state whose stored
    form encodes, within bbolt's value size, to data that decode back to
    it returns nil, and [LoadState] then returns exactly the state that
    was saved, whatever was stored before; every other key of the
    database is left as it was.  A nil state is refused without touching
    the database. *)
Theorem saved_state_is_loaded (db : DB) (st : state.ISyncState)
    (data : string) :
  opened db = true →
  marshalSyncState (fromInterface st) = inl data →
  strlen data ≤ MaxValueSize →
  unmarshalSyncState data = inl (fromInterface st) →
  let db1 := (Initialize db).1 in
  let db2 := (SaveState marshalSyncState db1 (Some st)).1 in
  (Initialize db).2 = None
  ∧ (SaveState marshalSyncState db1 (Some st)).2 = None
  ∧ LoadState unmarshalSyncState db2 = (Some st, None)
  ∧ (∀ bucket key,
       (bucket, key) ≠ (BucketState, "current") →
       (buckets db2 !! bucket) ≫= (.!! key)
       = (buckets db1 !! bucket) ≫= (.!! key))
  ∧ SaveState marshalSyncState db1 None
    = (db1, Some (NewValidationError "state cannot be nil" None)).
Proof.
  intros Hopen Hm Hsize Hu db1 db2.
  destruct (Initialize_spec db Hopen) as (Hinit & Hopen1 & Hb1).
  fold db1 in Hopen1, Hb1.
  pose proof (Hb1 BucketState) as Hstate.
  destruct (decide (BucketState ∈ [BucketState; BucketFileState;
                                   BucketTransactions])) as [_|Hn];
    [|by destruct Hn; left].
  assert (Hsave : SaveState marshalSyncState db1 (Some st)
                  = ({| opened := true;
                        buckets := <[BucketState :=
                                       <["current" := data]>
                                         (default ∅ (buckets db !! BucketState))]>
                                     (buckets db1) |}, None)).
  { unfold SaveState. rewrite Hm.
    by rewrite (writeKey_spec db1 _ _ _ _ _ Hopen1 Hstate). }
  subst db2. rewrite Hsave. simpl.
  split; [done|]. split; [done|]. split; [|split; [|done]].
  - unfold LoadState, View, readKey. simpl.
    rewrite !lookup_insert_eq, Hu. by rewrite toInterface_fromInterface.
  - intros bucket key Hne.
    destruct (decide (bucket = BucketState)) as [->|Hb].
    + rewrite lookup_insert_eq, Hstate. simpl.
      rewrite lookup_insert_ne; [done|]. intros <-. done.
    + by rewrite lookup_insert_ne.
Qed.

End state.

Lemma saved_state_is_loaded_witness :
  let marshal := @tagMarshal state.SyncState in
  let unmarshal := tagUnmarshal (fromInterface sample_state) in
  let db1 := (Initialize emptyOpen).1 in
  let db2 := (SaveState marshal db1 (Some sample_state)).1 in
  (Initialize emptyOpen).2 = None
  ∧ (SaveState marshal db1 (Some sample_state)).2 = None
  ∧ LoadState unmarshal db2 = (Some sample_state, None)
  ∧ (∀ bucket key,
       (bucket, key) ≠ (BucketState, "current") →
       (buckets db2 !! bucket) ≫= (.!! key)
       = (buckets db1 !! bucket) ≫= (.!! key))
  ∧ SaveState marshal db1 None
    = (db1, Some (NewValidationError "state cannot be nil" None)).
Proof.
  apply (saved_state_is_loaded (@tagMarshal state.SyncState)
           (tagUnmarshal (fromInterface sample_state))
           emptyOpen sample_state "{}"); reflexivity || done.
Defined.

Section files.
Variable marshalFileState : ModelFileState → string + error.
Variable unmarshalFileState : string → ModelFileState + error.

Lemma GetFileState_lookup db bucket path :
  opened db = true →
  buckets db !! BucketFileState = Some bucket →
  GetFileState unmarshalFileState db path
  = match bucket !! path with
    | None => (None, None)
    | Some data =>
        match unmarshalFileState data with
        | inr err =>
            (None, Some (NewDatabaseError "failed to unmarshal file state"
                           (Some err)))
        | inl modelFile => (Some (toFileState modelFile), None)
        end
    end.
Proof.
  intros Hopen Hb. unfold GetFileState, View, readKey. by rewrite Hopen, Hb.
Qed.

(** X22: the file states behave as a map from paths.  On an open database
    with the file state bucket, [UpdateFileState] of a state with a
    non-empty path whose stored form encodes, within bbolt's sizes, to data
    that decode back to it returns nil; [GetFileState] of that path then
    returns the state, and of any other path what it returned before.
    [DeleteFileState] returns nil whether or not the path is stored; after
    it [GetFileState] of the path returns neither a state nor an error,
    and other paths are not affected.  A state with an empty path is
    refused without touching the database. *)
Theorem file_states_are_a_map (db : DB) (bucket : gmap string string)
    (f : FileState) (data : string) :
  opened db = true →
  buckets db !! BucketFileState = Some bucket →
  fs_Path f ≠ "" → strlen (fs_Path f) ≤ MaxKeySize →
  marshalFileState (toModelFile f) = inl data →
  strlen data ≤ MaxValueSize →
  unmarshalFileState data = inl (toModelFile f) →
  let db1 := (UpdateFileState marshalFileState db (Some f)).1 in
  (UpdateFileState marshalFileState db (Some f)).2 = None
  ∧ GetFileState unmarshalFileState db1 (fs_Path f) = (Some f, None)
  ∧ (∀ path, path ≠ fs_Path f →
       GetFileState unmarshalFileState db1 path
       = GetFileState unmarshalFileState db path)
  ∧ (∀ path,
       (DeleteFileState db1 path).2 = None
       ∧ GetFileState unmarshalFileState (DeleteFileState db1 path).1 path
         = (None, None)
       ∧ ∀ other, other ≠ path →
           GetFileState unmarshalFileState (DeleteFileState db1 path).1 other
           = GetFileState unmarshalFileState db1 other)
  ∧ (∀ g, fs_Path g = "" →
       UpdateFileState marshalFileState db (Some g)
       = (db, Some (NewValidationError "invalid file state" None))).
Proof.
  intros Hopen Hb Hpath Hks Hm Hds Hu db1.
  assert (Hupd : UpdateFileState marshalFileState db (Some f)
                 = ({| opened := true;
                       buckets := <[BucketFileState :=
                                      <[fs_Path f := data]> bucket]>
                                    (buckets db) |}, None)).
  { unfold UpdateFileState.
    destruct (String.eqb_spec (fs_Path f) ""); [done|]. rewrite Hm.
    by rewrite (writeKey_spec db _ _ _ _ bucket). }
  subst db1. rewrite Hupd. simpl.
  set (db1 := {| opened := true;
                 buckets := <[BucketFileState := <[fs_Path f := data]> bucket]>
                              (buckets db) |}).
  assert (Hb1 : buckets db1 !! BucketFileState
                = Some (<[fs_Path f := data]> bucket)).
  { apply lookup_insert_eq. }
  split; [done|]. split; [|split; [|split]].
  - rewrite (GetFileState_lookup db1 _ _ eq_refl Hb1).
    rewrite lookup_insert_eq, Hu. by rewrite toFileState_toModelFile.
  - intros path Hne.
    rewrite (GetFileState_lookup db1 _ _ eq_refl Hb1).
    rewrite (GetFileState_lookup db _ _ Hopen Hb).
    by rewrite lookup_insert_ne.
  - intros path.
    assert (Hdel : DeleteFileState db1 path
                   = ({| opened := true;
                         buckets := <[BucketFileState :=
                                        delete path
                                          (<[fs_Path f := data]> bucket)]>
                                      (buckets db1) |}, None)).
    { unfold DeleteFileState, Update, Delete. simpl.
      by rewrite lookup_insert_eq. }
    rewrite Hdel. simpl. split; [done|].
    set (db2 := {| opened := true; buckets := _ |}).
    assert (Hb2 : buckets db2 !! BucketFileState
                  = Some (delete path (<[fs_Path f := data]> bucket))).
    { apply lookup_insert_eq. }
    split.
    + rewrite (GetFileState_lookup db2 _ _ eq_refl Hb2).
      by rewrite lookup_delete_eq.
    + intros other Hne.
      rewrite (GetFileState_lookup db2 _ _ eq_refl Hb2).
      rewrite (GetFileState_lookup db1 _ _ eq_refl Hb1).
      by rewrite lookup_delete_ne.
  - intros g Hg. unfold UpdateFileState. by rewrite Hg.
Qed.

End files.

Lemma file_states_are_a_map_witness :
  let marshal := @tagMarshal ModelFileState in
  let unmarshal := tagUnmarshal (toModelFile sample_file) in
  let db := (Initialize emptyOpen).1 in
  let db1 := (UpdateFileState marshal db (Some sample_file)).1 in
  (UpdateFileState marshal db (Some sample_file)).2 = None
  ∧ GetFileState unmarshal db1 (fs_Path sample_file) = (Some sample_file, None)
  ∧ (∀ path, path ≠ fs_Path sample_file →
       GetFileState unmarshal db1 path = GetFileState unmarshal db path)
  ∧ (∀ path,
       (DeleteFileState db1 path).2 = None
       ∧ GetFileState unmarshal (DeleteFileState db1 path).1 path
         = (None, None)
       ∧ ∀ other, other ≠ path →
           GetFileState unmarshal (DeleteFileState db1 path).1 other
           = GetFileState unmarshal db1 other)
  ∧ (∀ g, fs_Path g = "" →
       UpdateFileState marshal db (Some g)
       = (db, Some (NewValidationError "invalid file state" None))).
Proof.
  apply (file_states_are_a_map (@tagMarshal ModelFileState)
           (tagUnmarshal (toModelFile sample_file))
           (Initialize emptyOpen).1 ∅ sample_file "{}");
    reflexivity || done.
Defined.

(** *** Listing transactions *)

Section transactions.
Variable unmarshalTransaction : string → SyncTransaction + error.

#[local] Abbreviation decoded :=
  (omap (fun v => match unmarshalTransaction v with
                  | inl t => Some t
                  | inr _ => None
                  end)).











End transactions.


(** *** The buckets *)

Lemma resetAll_spec names : ∀ tx,
  Forall (fun n => n ≠ "") names →
  ∃ tx', resetAll tx names = inl tx'
         ∧ ∀ n, tx' !! n = if decide (n ∈ names) then Some ∅ else tx !! n.
Proof.
  induction names as [|name rest IH]; intros tx Hne; cbn [resetAll].
  - exists tx. split; [done|]. intros n.
    case_decide as Hin; [by apply elem_of_nil in Hin|done].
  - apply Forall_cons in Hne as [Hname Hrest].
    set (tx1 := delete name tx).
    assert (Hdel : match DeleteBucket tx name with
                   | inl tx' => inl tx'
                   | inr err =>
                       if decide (err = ErrBucketNotFound) then inl tx
                       else inr (PlainError
                                   ("failed to delete bucket " ++ name ++ ": "
                                    ++ Error (toError err)))
                   end = (inl tx1 : _ + error)).
    { unfold DeleteBucket, tx1. destruct (tx !! name) eqn:Hl; [done|].
      rewrite decide_True by done. by rewrite delete_id. }
    rewrite Hdel. unfold CreateBucket.
    destruct (String.eqb_spec name ""); [done|].
    unfold tx1. rewrite lookup_delete_eq.
    destruct (IH (<[name := ∅]> (delete name tx)) Hrest) as (tx' & -> & Hl).
    exists tx'. split; [done|]. intros m. rewrite Hl.
    destruct (decide (m = name)) as [->|Hm].
    + rewrite lookup_insert_eq.
      destruct (decide (name ∈ name :: rest)) as [_|Hn];
        [|by destruct Hn; left].
      by destruct (decide (name ∈ rest)).
    + rewrite lookup_insert_ne, lookup_delete_ne by done.
      destruct (decide (m ∈ rest)) as [Hin|Hin];
        destruct (decide (m ∈ name :: rest)) as [Hin'|Hin']; try done.
      * destruct Hin'. by right.
      * apply elem_of_cons in Hin' as [?|?]; done.
Qed.

Section buckets.
Variable unmarshalFileState : string → ModelFileState + error.

(** X24: a database as [database.Manager] opens it has no bucket for file
    states.  [initBuckets] on an open database returns nil, creates its
    nine buckets where they are missing and changes nothing else; the
    file state bucket is not among them, so until the state manager's
    [Initialize] or [Reset] has run, [GetFileState] fails for every path
    with the bucket-not-found database error.  After [Initialize] it
    returns neither a state nor an error for a path never stored; after
    [Reset], which returns nil and leaves the three state buckets empty,
    for every path. *)
Theorem manager_buckets_lack_file_state (db : DB) (path : string) :
  opened db = true →
  buckets db !! BucketFileState = None →
  let db1 := (initBuckets db).1 in
  (initBuckets db).2 = None
  ∧ (∀ n, buckets db1 !! n
          = if decide (n ∈ managerBuckets)
            then Some (default ∅ (buckets db !! n)) else buckets db !! n)
  ∧ GetFileState unmarshalFileState db1 path
    = (None, Some (NewDatabaseError "failed to get file state"
                     (Some (PlainError "file state bucket not found"))))
  ∧ GetFileState unmarshalFileState (Initialize db1).1 path = (None, None)
  ∧ (Reset db1).2 = None
  ∧ (∀ n, buckets (Reset db1).1 !! n
          = if decide (n ∈ [BucketState; BucketFileState; BucketTransactions])
            then Some ∅ else buckets db1 !! n)
  ∧ GetFileState unmarshalFileState (Reset db1).1 path = (None, None).
Proof.
  intros Hopen Hnone db1.
  assert (Hinit : (initBuckets db).2 = None ∧ opened db1 = true
                  ∧ ∀ n, buckets db1 !! n
                         = if decide (n ∈ managerBuckets)
                           then Some (default ∅ (buckets db !! n))
                           else buckets db !! n).
  { subst db1. unfold initBuckets, Update. rewrite Hopen.
    destruct (createAll_spec managerBuckets (buckets db)) as (tx' & -> & Hl).
    { by repeat constructor. }
    done. }
  destruct Hinit as (Herr & Hopen1 & Hb1).
  assert (Hnone1 : buckets db1 !! BucketFileState = None).
  { rewrite Hb1. case_decide as Hin; [exfalso|done].
    unfold managerBuckets in Hin.
    repeat (apply elem_of_cons in Hin as [Hin|Hin]; [discriminate Hin|]).
    by apply elem_of_nil in Hin. }
  assert (Hmem : BucketFileState ∈ [BucketState; BucketFileState;
                                    BucketTransactions]).
  { right. left. }
  destruct (Initialize_spec db1 Hopen1) as (_ & Hopen2 & Hb2).
  assert (Hreset : (Reset db1).2 = None ∧ opened (Reset db1).1 = true
                   ∧ ∀ n, buckets (Reset db1).1 !! n
                          = if decide (n ∈ [BucketState; BucketFileState;
                                            BucketTransactions])
                            then Some ∅ else buckets db1 !! n).
  { unfold Reset, Update. rewrite Hopen1.
    destruct (resetAll_spec [BucketState; BucketFileState; BucketTransactions]
                (buckets db1)) as (tx' & -> & Hl).
    { by repeat constructor. }
    done. }
  destruct Hreset as (Hrerr & Hopen3 & Hb3).
  split; [done|]. split; [done|]. split; [|split; [|split; [done|split]]].
  - unfold GetFileState, View, readKey. by rewrite Hopen1, Hnone1.
  - rewrite (GetFileState_lookup unmarshalFileState _ ∅ path Hopen2); [done|].
    rewrite Hb2, Hnone1. by case_decide.
  - done.
  - rewrite (GetFileState_lookup unmarshalFileState _ ∅ path Hopen3); [done|].
    rewrite Hb3. by case_decide.
Qed.

End buckets.

Lemma manager_buckets_lack_file_state_witness :
  let unmarshal := tagUnmarshal (toModelFile sample_file) in
  let db1 := (initBuckets emptyOpen).1 in
  (initBuckets emptyOpen).2 = None
  ∧ (∀ n, buckets db1 !! n
          = if decide (n ∈ managerBuckets)
            then Some (default ∅ (buckets emptyOpen !! n))
            else buckets emptyOpen !! n)
  ∧ GetFileState unmarshal db1 "a.txt"
    = (None, Some (NewDatabaseError "failed to get file state"
                     (Some (PlainError "file state bucket not found"))))
  ∧ GetFileState unmarshal (Initialize db1).1 "a.txt" = (None, None)
  ∧ (Reset db1).2 = None
  ∧ (∀ n, buckets (Reset db1).1 !! n
          = if decide (n ∈ [BucketState; BucketFileState; BucketTransactions])
            then Some ∅ else buckets db1 !! n)
  ∧ GetFileState unmarshal (Reset db1).1 "a.txt" = (None, None).
Proof.
  apply (manager_buckets_lack_file_state
           (tagUnmarshal (toModelFile sample_file)) emptyOpen "a.txt");
    reflexivity.
Defined.

End statestore_props.

(** ** The engine: metrics over a history, and restarting *)
Module engine_calls_props.
Import pperrors engine engine_calls engine_samples engine_calls_samples.

Lemma record_counts cs : ∀ m,
  0 ≤ SuccessfulSyncs m → 0 ≤ FailedSyncs m →
  SuccessfulSyncs m + FailedSyncs m + Z.of_nat (length cs) < 2 ^ 63 →
  SuccessfulSyncs (foldl record m cs)
    = SuccessfulSyncs m + Z.of_nat (length (filter succeeded cs))
  ∧ FailedSyncs (foldl record m cs)
    = FailedSyncs m
      + Z.of_nat (length (filter (fun c => negb (succeeded c)) cs)).
Proof.
  induction cs as [|c cs IH]; intros m Hs Hf Hb; simpl.
  - lia.
  - simpl length in Hb.
    assert (Hlen : Z.of_nat (length (filter succeeded cs))
                   ≤ Z.of_nat (length cs)).
    { apply Nat2Z.inj_le, length_filter. }
    assert (Hs1 : add64 (SuccessfulSyncs m) 1 = SuccessfulSyncs m + 1).
    { apply engine_props.wrap64_small. unfold in_int64. lia. }
    assert (Hf1 : add64 (FailedSyncs m) 1 = FailedSyncs m + 1).
    { apply engine_props.wrap64_small. unfold in_int64. lia. }
    rewrite !filter_cons. destruct c as [r|]; simpl.
    + destruct (IH (recordSuccess m r)) as [H1 H2].
      * unfold recordSuccess. destruct (0 <? _); simpl; lia.
      * unfold recordSuccess. by destruct (0 <? _).
      * unfold recordSuccess. destruct (0 <? _); simpl; lia.
      * rewrite H1, H2. unfold recordSuccess.
        destruct (0 <? _); simpl; lia.
    + destruct (IH (recordFailure m)) as [H1 H2]; simpl; try lia.
      rewrite H1, H2. simpl. lia.
Qed.

(** The two [+=] totals of [recordSuccess] after a history, in 64-bit
    arithmetic. *)
Lemma record_totals cs : ∀ m,
  wrap64 (TotalFiles m) = TotalFiles m →
  wrap64 (TotalBytes m) = TotalBytes m →
  TotalFiles (foldl record m cs)
    = wrap64 (TotalFiles m + total interfaces.FilesProcessed cs)
  ∧ TotalBytes (foldl record m cs)
    = wrap64 (TotalBytes m + total interfaces.BytesTransferred cs).
Proof.
  induction cs as [|c cs IH]; intros m Hf Hb; simpl.
  - by rewrite !Z.add_0_r, Hf, Hb.
  - destruct c as [r|]; simpl.
    + destruct (IH (recordSuccess m r)) as [H1 H2].
      * unfold recordSuccess, add64.
        destruct (0 <? _); simpl; apply strategies_log_props.wrap64_idem.
      * unfold recordSuccess, add64.
        destruct (0 <? _); simpl; apply strategies_log_props.wrap64_idem.
      * rewrite H1, H2. unfold recordSuccess, add64.
        destruct (0 <? _); simpl;
          rewrite !engine_props.wrap64_add_l, !Z.add_assoc; done.
    + by apply (IH (recordFailure m)).
Qed.

(** X25: the integer metrics after any history of recorded syncs that
    is shorter than 2^63.  [SuccessfulSyncs] and [FailedSyncs] count the
    successes and the failures of the history, [TotalSyncs] is their
    sum, the length of the history, and [TotalFiles] and [TotalBytes]
    are the 64-bit sums of the files processed and the bytes transferred
    by the successful syncs.  None of these depends on the two
    floating-point fields. *)
Theorem metrics_of_a_history (cs : list record_call) :
  Z.of_nat (length cs) < 2 ^ 63 →
  let m := recordAll cs in
  SuccessfulSyncs m = Z.of_nat (length (filter succeeded cs))
  ∧ FailedSyncs m = Z.of_nat (length (filter (fun c => negb (succeeded c)) cs))
  ∧ TotalSyncs m = SuccessfulSyncs m + FailedSyncs m
  ∧ TotalSyncs m = Z.of_nat (length cs)
  ∧ TotalFiles m = wrap64 (total interfaces.FilesProcessed cs)
  ∧ TotalBytes m = wrap64 (total interfaces.BytesTransferred cs).
Proof.
  intros Hlen m.
  destruct (record_counts cs newMetrics) as [Hs Hf]; simpl; try lia.
  fold (recordAll cs) in Hs, Hf. fold m in Hs, Hf. simpl in Hs, Hf.
  pose proof (engine_props.counters_sum cs Hlen) as Hsum. fold m in Hsum.
  assert (Hsplit : (length (filter succeeded cs)
                    + length (filter (fun c => negb (succeeded c)) cs))%nat
                   = length cs).
  { clear. induction cs as [|c cs IH]; [done|].
    rewrite !filter_cons. destruct c; simpl; lia. }
  destruct (record_totals cs newMetrics) as [Hfiles Hbytes]; [done..|].
  fold (recordAll cs) in Hfiles, Hbytes. fold m in Hfiles, Hbytes.
  simpl in Hfiles, Hbytes.
  split; [done|]. split; [done|]. split; [done|]. split; [lia|]. done.
Qed.

Lemma metrics_of_a_history_witness :
  let m := recordAll mixed_history in
  SuccessfulSyncs m = 2
  ∧ FailedSyncs m = 1
  ∧ TotalSyncs m = SuccessfulSyncs m + FailedSyncs m
  ∧ TotalSyncs m = 3
  ∧ TotalFiles m = wrap64 (total interfaces.FilesProcessed mixed_history)
  ∧ TotalBytes m = 4194304.
Proof.
  apply (metrics_of_a_history mixed_history). simpl. lia.
Defined.

Section lifecycle.
Variable clock : nat → Z.

Lemma call_keeps_stop_closed e c :
  stopChanClosed e = true → stopChanClosed (call clock e c).1 = true.
Proof.
  intros Hc. destruct c as [w|w| |]; simpl.
  - unfold Start. destruct (isRunning e); [done|]. by destruct w.
  - unfold Stop. destruct (isRunning e); simpl; [|done]. by rewrite Hc.
  - unfold Pause. cbn.
    by destruct (isRunning e), (isPaused e), (pauseChanClosed e).
  - unfold Resume. by destruct (isRunning e), (isPaused e).
Qed.

Lemma after_keeps_stop_closed cs : ∀ e,
  stopChanClosed e = true → stopChanClosed (after clock e cs) = true.
Proof.
  induction cs as [|c cs IH]; intros e Hc; [done|].
  simpl. apply IH. by apply call_keeps_stop_closed.
Qed.

(** X26: an engine can be stopped once.  [Stop] on a running engine whose
    stop channel is open returns nil and closes the channel, and no
    lifecycle call opens it again: the engine can be started again, but
    after any further calls a [Stop] that finds it running panics on the
    closed channel and changes nothing.  Likewise [Stop] leaves the pause
    channel as it is: an engine stopped with its pause channel closed, as
    [Pause] leaves it, can be started again, but its next [Pause] panics,
    with [isPaused] already set. *)
Theorem engine_stops_once (e : PulsePointEngine) (w : option error) :
  isRunning e = true →
  stopChanClosed e = false →
  let e1 := (Stop clock e w).1 in
  (Stop clock e w).2 = ReturnNil
  ∧ isRunning e1 = false
  ∧ (Start clock e1 None).2 = ReturnNil
  ∧ (∀ cs w',
       let e2 := after clock e1 cs in
       isRunning e2 = true →
       Stop clock e2 w' = (e2, Panic "close of closed channel"))
  ∧ (pauseChanClosed e = true →
     let e3 := (Start clock e1 None).1 in
     (Pause e3).2 = Panic "close of closed channel"
     ∧ isPaused (Pause e3).1 = true).
Proof.
  intros Hrun Hopen e1.
  assert (He1 : (Stop clock e w).2 = ReturnNil ∧ isRunning e1 = false
                ∧ isPaused e1 = false ∧ stopChanClosed e1 = true
                ∧ pauseChanClosed e1 = pauseChanClosed e).
  { subst e1. unfold Stop. rewrite Hrun, Hopen. done. }
  destruct He1 as (Hnil & Hr1 & Hp1 & Hc1 & Hpc1).
  split; [done|]. split; [done|]. split; [|split].
  - unfold Start. by rewrite Hr1.
  - intros cs w' e2 Hr2.
    pose proof (after_keeps_stop_closed cs e1 Hc1) as Hc2. fold e2 in Hc2.
    unfold Stop. by rewrite Hr2, Hc2.
  - intros Hpc e3.
    assert (He3 : isRunning e3 = true ∧ isPaused e3 = false
                  ∧ pauseChanClosed e3 = true).
    { subst e3. unfold Start. rewrite Hr1. simpl. by rewrite Hpc1. }
    destruct He3 as (Hr3 & Hp3 & Hpc3).
    unfold Pause. rewrite Hr3, Hp3. simpl. by rewrite Hpc3.
Qed.

End lifecycle.

Lemma engine_stops_once_witness :
  let clock := fun n => Z.of_nat n in
  let e1 := (Stop clock running_engine None).1 in
  (Stop clock running_engine None).2 = ReturnNil
  ∧ isRunning e1 = false
  ∧ (Start clock e1 None).2 = ReturnNil
  ∧ (∀ cs w',
       let e2 := after clock e1 cs in
       isRunning e2 = true →
       Stop clock e2 w' = (e2, Panic "close of closed channel"))
  ∧ (pauseChanClosed running_engine = true →
     let e3 := (Start clock e1 None).1 in
     (Pause e3).2 = Panic "close of closed channel"
     ∧ isPaused (Pause e3).1 = true).
Proof.
  apply (engine_stops_once (fun n => Z.of_nat n) running_engine None);
    reflexivity.
Defined.

End engine_calls_props.

(** ** The ignore matcher *)
Module ignore_props.
Import local_watch ignore.

Section matcher.
Variable TrimSpace : string → string.
Variable ToSlash : string → string.
Variable Base : string → string.
Variable Match : string → string → bool.
Variable SplitSlash : string → list string.

#[local] Abbreviation matches := (pulsePointMatches ToSlash Base Match SplitSlash).
#[local] Abbreviation applies := (hits ToSlash Base Match SplitSlash).
#[local] Abbreviation step := (decide_ ToSlash Base Match SplitSlash).

Lemma Contains_empty (s : string) : Contains s "" = true.
Proof. by destruct s. Qed.

Lemma matches_empty path : ToSlash "" = "" → matches path "" = true.
Proof.
  intros Hts. unfold pulsePointMatches. rewrite Hts. simpl.
  by rewrite Contains_empty.
Qed.

Lemma applies_snoc path isDir (patterns : list Pattern) p :
  last (filter (applies path isDir) (patterns ++ [p])%list)
  = if applies path isDir p then Some p
    else last (filter (applies path isDir) patterns).
Proof.
  rewrite filter_app. destruct (applies path isDir p) eqn:Hhit.
  - rewrite (filter_cons_True (applies path isDir)) by by rewrite Hhit.
    rewrite filter_nil. apply last_snoc.
  - rewrite (filter_cons_False (applies path isDir))
      by (intros H; by rewrite Hhit in H).
    rewrite filter_nil. by rewrite app_nil_r.
Qed.

Lemma loop_last path isDir patterns :
  foldl (step path isDir) false patterns
  = match last (filter (applies path isDir) patterns) with
    | Some p => negb (IsNegation p)
    | None => false
    end.
Proof.
  induction patterns as [|p patterns IH] using rev_ind; [done|].
  rewrite foldl_app, applies_snoc. cbn [foldl].
  unfold decide_ at 1, hits at 1.
  destruct (IsDir p && negb isDir); simpl; [done|].
  destruct (matches path (Pattern_ p)); simpl; [|done].
  by destruct (IsNegation p).
Qed.

(** X27: the last pattern that applies to a path and matches it decides.
    [ShouldIgnore] is true for every path whose base name is ignored by
    default, whatever the patterns, negations included; otherwise it is
    decided by the last pattern of the list that is not a directory-only
    pattern asked about a file and that matches: ignored unless that
    pattern is a negation, and not ignored when there is none.  A
    pattern left empty matches every path: after the pattern "!" nothing
    but the default names is ignored, and after the pattern "/" every
    directory is. *)
Theorem last_matching_pattern_decides (patterns : list Pattern)
    (path : string) (isDir : bool) :
  ShouldIgnore ToSlash Base Match SplitSlash patterns path isDir
    = (if pulsePointIsDefaultIgnored Match (Base (ToSlash path)) then true
       else match last (filter (applies (ToSlash path) isDir) patterns) with
            | Some p => negb (IsNegation p)
            | None => false
            end)
  ∧ (ToSlash "" = "" → TrimSpace "!" = "!" →
     ShouldIgnore ToSlash Base Match SplitSlash
       (AddPattern TrimSpace patterns "!") path isDir
     = pulsePointIsDefaultIgnored Match (Base (ToSlash path)))
  ∧ (ToSlash "" = "" → TrimSpace "/" = "/" →
     ShouldIgnore ToSlash Base Match SplitSlash
       (AddPattern TrimSpace patterns "/") path true = true).
Proof.
  assert (Hclosed : ∀ ps,
    ShouldIgnore ToSlash Base Match SplitSlash ps path isDir
    = (if pulsePointIsDefaultIgnored Match (Base (ToSlash path)) then true
       else match last (filter (applies (ToSlash path) isDir) ps) with
            | Some p => negb (IsNegation p)
            | None => false
            end)).
  { intros ps. unfold ShouldIgnore. by rewrite loop_last. }
  split; [apply Hclosed|]. split.
  - intros Hts Htrim. rewrite Hclosed.
    unfold AddPattern. rewrite Htrim. simpl.
    rewrite applies_snoc. unfold hits at 1. simpl.
    rewrite matches_empty by done. simpl.
    by destruct (pulsePointIsDefaultIgnored Match (Base (ToSlash path))).
  - intros Hts Htrim. unfold ShouldIgnore.
    destruct (pulsePointIsDefaultIgnored Match (Base (ToSlash path)));
      [done|].
    rewrite loop_last. unfold AddPattern. rewrite Htrim. simpl.
    rewrite applies_snoc. unfold hits at 1. simpl.
    by rewrite matches_empty.
Qed.

End matcher.

End ignore_props.

(** ** The mock provider *)
Module mock_props.
Import interfaces pperrors strategies strategies_log bolt mock.

Lemma stored_delete (fs : gmap string string) path content :
  fs !! path = Some content →
  map_fold (fun _ c n => strlen c + n) 0 (delete path fs)
  = map_fold (fun _ c n => strlen c + n) 0 fs - strlen content.
Proof.
  intros Hl.
  rewrite (map_fold_delete_L (fun _ c n => strlen c + n) 0 path content fs);
    [lia| |done].
  intros. lia.
Qed.

Lemma stored_insert (fs : gmap string string) path content :
  map_fold (fun _ c n => strlen c + n) 0 (<[path := content]> fs)
  = map_fold (fun _ c n => strlen c + n) 0 fs
    - default 0 (strlen <$> fs !! path) + strlen content.
Proof.
  rewrite <- (insert_delete_eq fs).
  rewrite (map_fold_insert_L (fun _ c n => strlen c + n) 0 path content
             (delete path fs)).
  - destruct (fs !! path) as [old|] eqn:Hl; simpl.
    + rewrite (stored_delete fs path old Hl). lia.
    + rewrite delete_id by done. lia.
  - intros. lia.
  - apply lookup_delete_eq.
Qed.

(** A loop in which the steps of some changes always fail reports each of
    those changes. *)
Section reports.
Context {P : Type}.
Variable clock : nat → Z.
Variable step : Run P → ChangeEvent → Run P * option error.
Variable clears : bool.
Variable bad : ChangeEvent → bool.

#[local] Abbreviation loop :=
  (foldl (fun s change =>
            let '(s', err) := step s change in
            match err with
            | Some e => recordFailure clock clears s' change e
            | None => s'
            end)).

Hypothesis step_errors : ∀ s c,
  Errors (result (step s c).1) = Errors (result s).
Hypothesis step_fails : ∀ s c, bad c = true → (step s c).2 ≠ None.

Lemma loop_errors_stay changes : ∀ s k,
  k ∈ errorKey <$> Errors (result s) →
  k ∈ errorKey <$> Errors (result (loop s changes)).
Proof.
  induction changes as [|c cs IH]; intros s k Hk; [done|].
  simpl. apply IH. pose proof (step_errors s c) as He.
  destruct (step s c) as [s1 [e|]]; simpl in *.
  - rewrite He, fmap_app. apply elem_of_app. by left.
  - by rewrite He.
Qed.

Lemma loop_reports changes : ∀ s c,
  c ∈ changes → bad c = true →
  changeKey c ∈ errorKey <$> Errors (result (loop s changes)).
Proof.
  induction changes as [|c0 cs IH]; intros s c Hin Hbad.
  { by apply elem_of_nil in Hin. }
  simpl. apply elem_of_cons in Hin as [->|Hin]; [|by apply IH].
  apply loop_errors_stay. pose proof (step_fails s c0 Hbad) as Hf.
  destruct (step s c0) as [s1 [e|]]; simpl in *; [|done].
  rewrite fmap_app. apply elem_of_app. right. by left.
Qed.

End reports.

Section provider.
Variable Dir : string → string.
Variable Base : string → string.
Variable listing : MockDriveProvider → string → list File.

Lemma apply_drift m op :
  wrap64 (used (apply Dir m op) - stored (apply Dir m op))
  = wrap64 (used m - stored m + replaced m op).
Proof.
  destruct op as [path content|path]; simpl.
  - unfold stored, store. simpl. rewrite stored_insert.
    unfold add64.
    replace (wrap64 (used m + strlen content)
             - (map_fold (fun _ c n => strlen c + n) 0 (files m)
                - default 0 (strlen <$> files m !! path) + strlen content))
      with (wrap64 (used m + strlen content)
            + (- map_fold (fun _ c n => strlen c + n) 0 (files m)
               + default 0 (strlen <$> files m !! path) - strlen content))
      by lia.
    rewrite strategies_log_props.wrap64_plus. f_equal. lia.
  - unfold Delete. destruct (files m !! path) as [content|] eqn:Hl; simpl.
    + unfold stored. simpl. rewrite (stored_delete _ _ _ Hl).
      replace (wrap64 (used m - strlen content)
               - (map_fold (fun _ c n => strlen c + n) 0 (files m)
                  - strlen content))
        with (wrap64 (used m - strlen content)
              + (- map_fold (fun _ c n => strlen c + n) 0 (files m)
                 + strlen content)) by lia.
      rewrite strategies_log_props.wrap64_plus. f_equal. lia.
    + destruct (folders m !! path); simpl; f_equal; unfold stored; simpl; lia.
Qed.

Lemma replaced_nonneg m op : 0 ≤ replaced m op.
Proof.
  destruct op as [path content|path]; simpl; [|done].
  destruct (files m !! path); simpl; [|done]. unfold strlen. lia.
Qed.

(** X28: what the mock reports as used drifts away from what it holds.
    After any sequence of successful uploads and of deletions, the
    difference between the used counter and the bytes actually stored has
    grown (in 64-bit arithmetic) by exactly the sizes of the contents
    that uploads replaced: an upload over an existing path adds the new
    size without releasing the old one, and a later deletion releases
    only the new one.  The drift is never negative. *)
Theorem used_counts_replaced_content (m : MockDriveProvider) (ops : list Op) :
  let m' := foldl (apply Dir) m ops in
  wrap64 (used m' - stored m')
    = wrap64 (used m - stored m + replacedBy Dir m ops)
  ∧ 0 ≤ replacedBy Dir m ops
  ∧ (∀ path c0 c,
       files m !! path = Some c0 →
       replacedBy Dir m [OpUpload path c; OpDelete path] = strlen c0
       ∧ files (foldl (apply Dir) m [OpUpload path c; OpDelete path]) !! path
         = None).
Proof.
  split; [|split].
  - revert m. induction ops as [|op ops IH]; intros m; simpl.
    + f_equal. lia.
    + rewrite IH, <- strategies_log_props.wrap64_plus, apply_drift.
      rewrite strategies_log_props.wrap64_plus. f_equal. lia.
  - revert m. induction ops as [|op ops IH]; intros m; simpl; [done|].
    pose proof (replaced_nonneg m op). pose proof (IH (apply Dir m op)). lia.
  - intros path c0 c Hl. simpl. rewrite Hl. simpl. split; [lia|].
    unfold Delete. simpl. rewrite lookup_insert_eq. simpl.
    apply lookup_delete_eq.
Qed.

(** *** The mock behind the strategies *)

Section strategies.
Variable clock : nat → Z.
Variable config : StrategyConfig.
Variable formatTime : Z → string.
Variables fDir fBase fExt : string → string.
Variable fJoin : string → string → string.
Variable m0 : MockDriveProvider.

#[local] Abbreviation provider := (asProvider Dir Base listing).

(** Nothing has been uploaded, and the mock holds no file it did not
    hold at the start. *)
#[local] Abbreviation nothingStored s :=
  (FilesUploaded (result s) = 0 ∧ BytesTransferred (result s) = 0
   ∧ files (prov s) ⊆ files m0).

#[local] Abbreviation untouched s :=
  (FilesUploaded (result s) = 0 ∧ BytesTransferred (result s) = 0
   ∧ prov s = m0).

Lemma uploadFile_mock s c :
  uploadFile provider config s c
  = if exceedsLimit config c then (with_result s (incSkipped (result s)), None)
    else ({| prov := prov s;
             calls := (calls s ++ [CallUpload (fileOf (Path c) c)])%list;
             ticks := ticks s; result := result s |},
          Some (NewSyncError ("failed to upload " ++ Path c)
                  (Some (PlainError "no content or local path provided")))).
Proof. unfold uploadFile. by destruct (exceedsLimit config c). Qed.

Lemma uploadFile_nothingStored s c :
  nothingStored s → nothingStored (uploadFile provider config s c).1.
Proof.
  intros Hs. rewrite uploadFile_mock. by destruct (exceedsLimit config c).
Qed.

Lemma Delete_subseteq m path : files (Delete m path).1 ⊆ files m.
Proof.
  unfold Delete. destruct (files m !! path) eqn:Hl; simpl.
  - apply delete_subseteq.
  - by destruct (folders m !! path).
Qed.

Lemma oneway_deleteFile_nothingStored s c :
  nothingStored s → nothingStored (oneway.deleteFile provider s c).1.
Proof.
  intros (H1 & H2 & H3). unfold oneway.deleteFile, callDelete. simpl.
  pose proof (Delete_subseteq (prov s) (Path c)) as Hsub.
  destruct (Delete (prov s) (Path c)) as [m' [e|]]; simpl in *;
    (split; [done|split; [done|by etrans]]).
Qed.

Lemma mirror_deleteFile_nothingStored s c :
  nothingStored s → nothingStored (mirror.deleteFile provider s c).1.
Proof.
  intros (H1 & H2 & H3). unfold mirror.deleteFile, callDelete. simpl.
  pose proof (Delete_subseteq (prov s) (Path c)) as Hsub.
  destruct (Delete (prov s) (Path c)) as [m' [e|]]; simpl in *;
    [destruct (IsNotFoundError e)|]; simpl;
    (split; [done|split; [done|by etrans]]).
Qed.

Lemma oneway_step_nothingStored s c :
  nothingStored s → nothingStored (oneway.processChange provider config s c).1.
Proof.
  intros Hs. unfold oneway.processChange.
  set (s0 := with_result s (incProcessed (result s))).
  assert (H0 : nothingStored s0) by done.
  destruct (_ || _); [by apply uploadFile_nothingStored|].
  destruct (String.eqb (Type_ c) ChangeTypeDelete).
  { destruct (PreserveDeleted config); [done|].
    by apply oneway_deleteFile_nothingStored. }
  destruct (String.eqb (Type_ c) ChangeTypeRename); [|done].
  pose proof (oneway_deleteFile_nothingStored s0 (deleteEvent (OldPath c)) H0)
    as Hd.
  destruct (oneway.deleteFile _ _ _) as [s1 [e|]]; simpl in *; [done|].
  by apply uploadFile_nothingStored.
Qed.

Lemma mirror_step_nothingStored s c :
  nothingStored s → nothingStored (mirror.processChange provider config s c).1.
Proof.
  intros Hs. unfold mirror.processChange.
  set (s0 := with_result s (incProcessed (result s))).
  assert (H0 : nothingStored s0) by done.
  destruct (_ || _); [by apply uploadFile_nothingStored|].
  destruct (String.eqb (Type_ c) ChangeTypeDelete).
  { by apply mirror_deleteFile_nothingStored. }
  destruct (String.eqb (Type_ c) ChangeTypeRename); [|done].
  pose proof (mirror_deleteFile_nothingStored s0 (deleteEvent (OldPath c)) H0)
    as Hd.
  destruct (mirror.deleteFile _ _ _) as [s1 [e|]]; simpl in *; [done|].
  by apply uploadFile_nothingStored.
Qed.

Lemma backup_step_untouched ts s c :
  untouched s →
  untouched (backup.processChange provider clock config fDir fBase fExt fJoin
               s c ts).1.
Proof.
  intros (H1 & H2 & H3).
  unfold backup.processChange, backup.backupFile, backup.markDeleted,
    backup.markMoved, callUpload, callGetMetadata, timeNow.
  simpl.
  repeat (case_match; simpl in *; simplify_eq); done.
Qed.

Lemma oneway_upload_fails s c :
  uploadable config c = true →
  (oneway.processChange provider config s c).2 ≠ None.
Proof.
  unfold uploadable. intros Hu. apply andb_true_iff in Hu as [Hty Hlim].
  apply negb_true_iff in Hlim.
  unfold oneway.processChange. rewrite Hty, uploadFile_mock, Hlim. done.
Qed.

Lemma mirror_upload_fails s c :
  uploadable config c = true →
  (mirror.processChange provider config s c).2 ≠ None.
Proof.
  unfold uploadable. intros Hu. apply andb_true_iff in Hu as [Hty Hlim].
  apply negb_true_iff in Hlim.
  unfold mirror.processChange. rewrite Hty, uploadFile_mock, Hlim. done.
Qed.

(** X29: behind the strategies the mock never stores a file.  The files
    the strategies hand to [Upload] carry neither content nor a local
    path, and the mock refuses them.  So whatever the changes, a one-way
    or mirror [Sync] over the mock counts no upload and no byte, leaves
    the mock with no file it did not hold before, and reports every
    Create or Modify change that is within the size limit as failed; a
    backup [Sync], which deletes nothing, leaves the mock exactly as it
    was and still reports success. *)
Theorem mock_never_stores (changes : list ChangeEvent) (source : string) :
  nothingStored (oneway.Sync provider clock config m0 changes)
  ∧ nothingStored (mirror.Sync provider clock config m0 source changes)
  ∧ (∀ c, c ∈ changes → uploadable config c = true →
       changeKey c ∈ errorKey <$>
         Errors (result (oneway.Sync provider clock config m0 changes))
       ∧ changeKey c ∈ errorKey <$>
           Errors (result (mirror.Sync provider clock config m0 source
                             changes)))
  ∧ untouched (backup.Sync provider clock config formatTime
                 fDir fBase fExt fJoin m0 changes)
  ∧ Success (result (backup.Sync provider clock config formatTime
                       fDir fBase fExt fJoin m0 changes)) = true.
Proof.
  split; [|split; [|split; [|split]]].
  - unfold oneway.Sync, oneway.processAll. cbn zeta. simpl.
    apply (strategies_log_props.loop_keeps clock
             (oneway.processChange provider config) true
             (fun s => nothingStored s)).
    + intros s c. apply oneway_step_nothingStored.
    + done.
    + done.
  - unfold mirror.Sync, mirror.processAll, mirror.cleanupRemote, callList.
    cbn zeta. simpl.
    apply (strategies_log_props.loop_keeps clock
             (mirror.processChange provider config) true
             (fun s => nothingStored s)).
    + intros s c. apply mirror_step_nothingStored.
    + done.
    + done.
  - intros c Hin Hup. split.
    + unfold oneway.Sync, oneway.processAll. cbn zeta. simpl.
      apply (loop_reports clock (oneway.processChange provider config) true
               (uploadable config)); try done.
      * intros s c'.
        by destruct (strategies_log_props.oneway_step_frame provider config
                       s c') as (_ & He & _).
      * intros s c'. apply oneway_upload_fails.
    + unfold mirror.Sync, mirror.processAll, mirror.cleanupRemote, callList.
      cbn zeta. simpl.
      apply (loop_reports clock (mirror.processChange provider config) true
               (uploadable config)); try done.
      * intros s c'.
        by destruct (strategies_log_props.mirror_step_frame provider config
                       s c') as (_ & He & _).
      * intros s c'. apply mirror_upload_fails.
  - unfold backup.Sync, backup.processAll. cbn zeta. simpl.
    apply (strategies_log_props.loop_keeps clock
             (fun s c => backup.processChange provider clock config
                           fDir fBase fExt fJoin s c
                           (backup.sessionTimestamp clock formatTime)) false
             (fun s => untouched s)).
    + intros s c. apply backup_step_untouched.
    + done.
    + done.
  - apply strategies_props.Sync_success_always.
Qed.

End strategies.

End provider.

End mock_props.

(** ** The pipeline *)
Module pipeline_props.
Import interfaces pperrors pipeline pipeline_samples.

Section pipeline.
Variables Meta FileState : Type.
Variable stateOf : File → FileState.
Variable itoa : Z → string.

Lemma retryLoop_trace rounds : ∀ retry phase input output err trace,
  let '(output', err', trace') :=
    retryLoop rounds retry phase (input : PipelineInput Meta FileState)
      output err trace in
  ∃ new, trace' = (trace ++ new)%list
         ∧ (length new ≤ rounds)%nat
         ∧ (rounds = O → output' = output ∧ err' = err)
         ∧ (∀ n k, (n, k) ∈ new →
              n = Name phase ∧ (retry ≤ k < retry + rounds)%nat).
Proof.
  induction rounds as [|rounds IH]; intros retry phase input output err trace;
    cbn [retryLoop].
  - exists []. rewrite app_nil_r. split; [done|]. split; [done|].
    split; [done|]. intros n k Hin. by apply elem_of_nil in Hin.
  - destruct (Execute_ phase retry input) as [output' [e|]].
    + specialize (IH (S retry) phase input output' (Some e)
                    (trace ++ [(Name phase, retry)])%list).
      destruct (retryLoop rounds (S retry) phase input output' (Some e) _)
        as [[o2 e2] t2].
      destruct IH as (new & -> & Hlen & _ & Hin).
      exists ((Name phase, retry) :: new). rewrite <- app_assoc.
      split; [done|]. split; [simpl; lia|]. split; [done|].
      intros n k Hk. apply elem_of_cons in Hk as [[= -> ->]|Hk].
      * split; [done|lia].
      * destruct (Hin n k Hk) as [-> ?]. split; [done|lia].
    + exists [(Name phase, retry)]. split; [done|]. split; [simpl; lia|].
      split; [done|]. intros n k Hk.
      apply list_elem_of_singleton in Hk as [= -> ->]. split; [done|lia].
Qed.

Lemma runPhases_trace config phases : ∀ input output trace,
  let '(r, trace') :=
    runPhases stateOf itoa config phases
      (input : PipelineInput Meta FileState) output trace in
  ∃ new, trace' = (trace ++ new)%list
         ∧ (length new ≤ length phases * Z.to_nat (MaxRetries config + 1))%nat
         ∧ (∀ n k, (n, k) ∈ new →
              n ∈ Name <$> phases ∧ Z.of_nat k ≤ MaxRetries config)
         ∧ (MaxRetries config < 0 → r = inl output ∨ ∃ e, r = inr e).
Proof.
  induction phases as [|phase rest IH]; intros input output trace;
    cbn [runPhases].
  - exists []. rewrite app_nil_r. split; [done|]. split; [simpl; lia|].
    split; [|by left]. intros n k Hin. by apply elem_of_nil in Hin.
  - destruct (if EnableValidation config then Validate phase input else None)
      as [verr|].
    { exists []. rewrite app_nil_r. split; [done|]. split; [simpl; lia|].
      split; [|intros _; right; by eexists].
      intros n k Hin. by apply elem_of_nil in Hin. }
    pose proof (retryLoop_trace (Z.to_nat (MaxRetries config + 1)) 0 phase
                  input output None trace) as Hloop.
    destruct (retryLoop _ 0 phase input output None trace) as [[o1 e1] t1].
    destruct Hloop as (new1 & -> & Hlen1 & Hzero & Hin1).
    assert (Hin1' : ∀ n k, (n, k) ∈ new1 →
              n ∈ Name <$> phase :: rest ∧ Z.of_nat k ≤ MaxRetries config).
    { intros n k Hk. destruct (Hin1 n k Hk) as [-> Hb].
      split; [by left|lia]. }
    destruct e1 as [e|].
    { exists new1. split; [done|]. split; [simpl; lia|]. split; [done|].
      intros _. eauto. }
    specialize (IH (nextInput stateOf input o1) o1 (trace ++ new1)%list).
    destruct (runPhases stateOf itoa config rest _ o1 _) as [r t2].
    destruct IH as (new2 & -> & Hlen2 & Hin2 & Hneg).
    exists (new1 ++ new2)%list. rewrite <- app_assoc. split; [done|].
    split; [rewrite length_app; simpl; lia|]. split.
    + intros n k Hk. apply elem_of_app in Hk as [Hk|Hk]; [by apply Hin1'|].
      destruct (Hin2 n k Hk) as [? ?]. split; [by right|done].
    + intros Hlt. destruct (Hneg Hlt) as [->|?]; [|by right].
      destruct Hzero as [-> _]; [lia|]. by left.
Qed.

(** Where the output of a retry loop that ends without error comes
    from: the first attempt that returned no error, which is also the
    last call in the trace. *)
Lemma retryLoop_origin rounds : ∀ retry phase input output err trace o' trace',
  retryLoop rounds retry phase (input : PipelineInput Meta FileState)
    output err trace = (o', None, trace') →
  (rounds = O ∧ err = None ∧ o' = output ∧ trace' = trace)
  ∨ ∃ k, (retry ≤ k < retry + rounds)%nat
         ∧ Execute_ phase k input = (o', None)
         ∧ last trace' = Some (Name phase, k)
         ∧ ∀ j, (retry ≤ j < k)%nat → (Execute_ phase j input).2 ≠ None.
Proof.
  induction rounds as [|rounds IH];
    intros retry phase input output err trace o' trace'; cbn [retryLoop].
  - intros [= -> -> ->]. by left.
  - destruct (Execute_ phase retry input) as [o1 [e|]] eqn:Hex.
    + intros Hloop. right.
      destruct (IH _ _ _ _ _ _ _ _ Hloop) as [(_ & ? & _)|(k & Hk & He & Hl & Hj)];
        [done|].
      exists k. split; [lia|]. split; [done|]. split; [done|].
      intros j Hjk. destruct (decide (j = retry)) as [->|Hne].
      * by rewrite Hex.
      * apply Hj. lia.
    + intros [= <- <-]. right. exists retry. split; [lia|].
      split; [done|]. split; [by rewrite last_snoc|]. intros j Hj. lia.
Qed.

(** Where the output of a run of the phases comes from: the last phase. *)
Lemma runPhases_origin config phases : ∀ input output trace o trace',
  runPhases stateOf itoa config phases
    (input : PipelineInput Meta FileState) output trace = (inl o, trace') →
  0 ≤ MaxRetries config → phases ≠ [] →
  ∃ init lastPhase input' k,
    phases = (init ++ [lastPhase])%list
    ∧ Z.of_nat k ≤ MaxRetries config
    ∧ Execute_ lastPhase k input' = (o, None)
    ∧ last trace' = Some (Name lastPhase, k)
    ∧ ∀ j, (j < k)%nat → (Execute_ lastPhase j input').2 ≠ None.
Proof.
  induction phases as [|phase rest IH]; intros input output trace o trace';
    [done|].
  cbn [runPhases]. intros Hrun Hpos _.
  destruct (if EnableValidation config then Validate phase input else None)
    as [verr|]; [done|].
  destruct (retryLoop _ 0 phase input output None trace) as [[o1 e1] t1]
    eqn:Hloop.
  destruct e1 as [e|]; [done|].
  destruct rest as [|phase2 rest].
  - cbn [runPhases] in Hrun. injection Hrun as <- <-.
    destruct (retryLoop_origin _ _ _ _ _ _ _ _ _ Hloop)
      as [(Hz & _)|(k & Hk & He & Hl & Hj)]; [lia|].
    exists [], phase, input, k. split; [done|]. split; [lia|].
    split; [done|]. split; [done|]. intros j Hjk. apply Hj. lia.
  - destruct (IH _ _ _ _ _ Hrun Hpos) as (init & p & input' & k & -> & H);
      [done|].
    exists (phase :: init), p, input', k. done.
Qed.

(** X30: what a run of the pipeline can return.  Every phase is executed
    at most [MaxRetries + 1] times, so with a negative [MaxRetries] no
    phase is executed at all, and then, as for an empty list of phases,
    [Execute] either stops at a failed validation or dereferences the nil
    output.  A result is built from one output only, that of the last
    phase: when [Execute] returns a result, the last call of the run was
    the first attempt of the last phase that returned no error, that
    attempt returned an output, and the result is [resultOf] that
    output.  The result counts no upload, download or deletion, its
    [Success] is on exactly when that output holds no failed file and no
    conflict, and it never carries an error entry, so a pipeline result
    can be unsuccessful with an empty error list. *)
Theorem pipeline_runs (config : PipelineConfig)
    (phases : list (PipelinePhase Meta FileState)) (meta0 : Meta)
    (startTime endTime : Z) :
  let outcome := (Execute stateOf itoa config phases meta0 startTime endTime).1 in
  let trace := (Execute stateOf itoa config phases meta0 startTime endTime).2 in
  (Z.of_nat (length trace)
   ≤ Z.of_nat (length phases) * Z.max 0 (MaxRetries config + 1))
  ∧ (∀ n k, (n, k) ∈ trace →
       n ∈ Name <$> phases ∧ Z.of_nat k ≤ MaxRetries config)
  ∧ (MaxRetries config < 0 ∨ phases = [] →
     trace = [] ∧ (outcome = NilDereference ∨ ∃ e, outcome = Err e))
  ∧ (∀ r, outcome = Ok r →
       (∃ init lastPhase input k output,
          phases = (init ++ [lastPhase])%list
          ∧ last trace = Some (Name lastPhase, k)
          ∧ Execute_ lastPhase k input = (Some output, None)
          ∧ (∀ j, (j < k)%nat → (Execute_ lastPhase j input).2 ≠ None)
          ∧ r = resultOf startTime endTime output
          ∧ FilesProcessed r = Z.of_nat (length (ProcessedFiles output))
          ∧ FilesSkipped r = Z.of_nat (length (FailedFiles output))
          ∧ Conflicts r = out_Conflicts output
          ∧ BytesTransferred r = out_BytesTransferred output)
       ∧ Errors r = []
       ∧ FilesUploaded r = 0 ∧ FilesDownloaded r = 0 ∧ FilesDeleted r = 0
       ∧ StartTime r = startTime ∧ EndTime r = endTime
       ∧ (Success r = true ↔ FilesSkipped r = 0 ∧ Conflicts r = [])).
Proof.
  intros outcome trace. subst outcome trace. unfold Execute.
  set (input := {| Changes := []; FileStates := ∅; in_Metadata := meta0 |}).
  pose proof (runPhases_trace config phases input None []) as Hrun.
  destruct (runPhases stateOf itoa config phases input None []) as [r t]
    eqn:Hr.
  destruct Hrun as (new & Ht & Hlen & Hin & Hneg). simpl in Ht. subst t.
  assert (Hsnd : (match r with
                  | inr err => (Err err, new)
                  | inl None => (NilDereference, new)
                  | inl (Some output) =>
                      (Ok (resultOf startTime endTime output), new)
                  end).2 = new).
  { by destruct r as [[o'|]|e]. }
  rewrite Hsnd. clear Hsnd.
  split; [|split; [done|split]].
  - apply Nat2Z.inj_le in Hlen. rewrite Nat2Z.inj_mul in Hlen.
    replace (Z.of_nat (Z.to_nat (MaxRetries config + 1)))
      with (Z.max 0 (MaxRetries config + 1)) in Hlen by lia.
    done.
  - intros [Hlt|Hnil].
    + assert (new = []) as ->.
      { destruct new as [|x new]; [done|]. exfalso.
        replace (Z.to_nat (MaxRetries config + 1)) with 0%nat in Hlen by lia.
        simpl in Hlen. lia. }
      split; [done|]. destruct (Hneg Hlt) as [->|[e ->]]; simpl; eauto.
    + subst phases. simpl in Hr. injection Hr as <- <-. simpl. eauto.
  - intros res Hok. destruct r as [[output|]|e]; simpl in Hok; try done.
    injection Hok as <-. split.
    + destruct (Z.ltb_spec (MaxRetries config) 0) as [Hlt|Hpos].
      { by destruct (Hneg Hlt) as [?|[? ?]]. }
      assert (Hne : phases ≠ []).
      { intros ->. simpl in Hr. by injection Hr. }
      destruct (runPhases_origin _ _ _ _ _ _ _ Hr Hpos Hne)
        as (init & p & input' & k & Hph & _ & Hex & Hlast & Hfirst).
      exists init, p, input', k, output. done.
    + simpl. do 6 (split; [done|]). split.
      * intros Hs. apply andb_true_iff in Hs as [H1 H2].
        apply Nat.eqb_eq in H1. apply Nat.eqb_eq in H2.
        split; [lia|by destruct (out_Conflicts output)].
      * intros [H1 H2]. rewrite H2. simpl.
        destruct (FailedFiles output); [done|]. simpl in H1. lia.
Qed.

End pipeline.

(** Two phases, the second failing once: three calls, and the result is
    that of the second phase's output, although the first phase
    reported a failed file. *)
Example pipeline_uses_last_output :
  Execute (fun _ => tt) (fun _ => "3") threeRetries twoPhases tt 10 20
  = (Ok (resultOf 10 20 (outputOf [fileA; fileB] [])),
     [("collect", 0%nat); ("execute", 0%nat); ("execute", 1%nat)])
  ∧ Success (resultOf 10 20 (outputOf [fileA; fileB] [])) = true
  ∧ Success (resultOf 10 20 (outputOf [fileA] [fileB])) = false.
Proof. by vm_compute. Qed.

End pipeline_props.
